(** * Register polling of the Terrasmart Modbus report generators

    A shallow embedding of the address calculator, the codec helpers, the
    register pollers ([csvModbusTTID.js], [csvModbusPosition.js] and the
    legacy sorted generator) and the mode-toggle client
    ([modbus-set-mode-api.js]), with the properties the specification states
    about them.

    Conventions of the embedding:
    - a JavaScript string is a Rocq [string], the bytes of its UTF-8
      encoding; codec names, category names and hex strings are ASCII, and
      case mapping and the [\s] class are the ECMAScript ones on the ASCII
      range;
    - a JavaScript number is a [number]: an exact rational, [NaN] or one of
      the two infinities.  Arithmetic on finite values is exact, as it is in
      IEEE-754 double precision for every integer below [2^53] in absolute
      value; [-0] is identified with [0] (nothing in the modelled code
      distinguishes them);
    - a thrown exception is the [Throw] case of [result]. *)

From Stdlib Require Import ZArith QArith Qround Bool List Lia.
From Stdlib Require Import Ascii String DecimalString.
Import ListNotations.

Local Open Scope string_scope.
Local Open Scope Z_scope.

(** ** JavaScript numbers *)

Inductive number : Type :=
| Num (q : Q)
| NaN
| PosInf
| NegInf.

Definition num_of_Z (z : Z) : number := Num (inject_Z z).

(** Sign of a rational: [-1], [0] or [1]. *)
Definition Qsgn (q : Q) : Z := Z.sgn (Qnum q).

(** [a + b] *)
Definition nadd (a b : number) : number :=
  match a, b with
  | NaN, _ | _, NaN => NaN
  | PosInf, NegInf | NegInf, PosInf => NaN
  | PosInf, _ | _, PosInf => PosInf
  | NegInf, _ | _, NegInf => NegInf
  | Num x, Num y => Num (Qred (Qplus x y))
  end.

(** [a - b] *)
Definition nsub (a b : number) : number :=
  match a, b with
  | NaN, _ | _, NaN => NaN
  | PosInf, PosInf | NegInf, NegInf => NaN
  | PosInf, _ | _, NegInf => PosInf
  | NegInf, _ | _, PosInf => NegInf
  | Num x, Num y => Num (Qred (Qminus x y))
  end.

(** An infinity of the sign [s] ([NaN] for [s = 0]). *)
Definition inf_of_sign (s : Z) : number :=
  match s with
  | Z0 => NaN
  | Zpos _ => PosInf
  | Zneg _ => NegInf
  end.

Definition nsign (a : number) : Z :=
  match a with
  | Num x => Qsgn x
  | NaN => 0
  | PosInf => 1
  | NegInf => -1
  end.

(** [a * b] *)
Definition nmul (a b : number) : number :=
  match a, b with
  | NaN, _ | _, NaN => NaN
  | Num x, Num y => Num (Qred (Qmult x y))
  | _, _ => inf_of_sign (nsign a * nsign b)
  end.

(** [a / b]; with [-0] identified with [0], a non-zero value divided by zero
    takes the sign of the dividend. *)
Definition ndiv (a b : number) : number :=
  match a, b with
  | NaN, _ | _, NaN => NaN
  | Num x, Num y =>
      if Qeq_bool y 0 then inf_of_sign (Qsgn x) else Num (Qred (Qdiv x y))
  | Num _, _ => Num 0
  | _, Num y => if Qeq_bool y 0 then a else inf_of_sign (nsign a * Qsgn y)
  | _, _ => NaN
  end.

(** [Math.floor] *)
Definition Math_floor (a : number) : number :=
  match a with
  | Num x => Num (inject_Z (Qfloor x))
  | _ => a
  end.

(** [a < b]: false as soon as one side is [NaN]. *)
Definition nlt (a b : number) : bool :=
  match a, b with
  | NaN, _ | _, NaN => false
  | Num x, Num y => negb (Qle_bool y x)
  | NegInf, NegInf => false
  | NegInf, _ => true
  | _, PosInf => match a with PosInf => false | _ => true end
  | _, _ => false
  end.

(** [a <= b] *)
Definition nle (a b : number) : bool :=
  match a, b with
  | NaN, _ | _, NaN => false
  | Num x, Num y => Qle_bool x y
  | NegInf, _ => true
  | _, PosInf => true
  | _, _ => false
  end.

(** [Number.isFinite] *)
Definition Number_isFinite (a : number) : bool :=
  match a with
  | Num _ => true
  | _ => false
  end.

(** [Number.isInteger] *)
Definition Number_isInteger (a : number) : bool :=
  match a with
  | Num x => Pos.eqb (Qden (Qred x)) 1
  | _ => false
  end.

(** [isNaN] on a number. *)
Definition isNaN (a : number) : bool :=
  match a with
  | NaN => true
  | _ => false
  end.

(** ** Strings *)

Definition is_upper (c : ascii) : bool :=
  let n := nat_of_ascii c in (Nat.leb 65 n && Nat.leb n 90)%bool.

Definition is_lower (c : ascii) : bool :=
  let n := nat_of_ascii c in (Nat.leb 97 n && Nat.leb n 122)%bool.

Definition lower_char (c : ascii) : ascii :=
  if is_upper c then ascii_of_nat (nat_of_ascii c + 32) else c.

Definition upper_char (c : ascii) : ascii :=
  if is_lower c then ascii_of_nat (nat_of_ascii c - 32) else c.

Fixpoint map_string (f : ascii -> ascii) (s : string) : string :=
  match s with
  | EmptyString => EmptyString
  | String c r => String (f c) (map_string f r)
  end.

(** [s.toLowerCase()] and [s.toUpperCase()] *)
Definition toLowerCase (s : string) : string := map_string lower_char s.
Definition toUpperCase (s : string) : string := map_string upper_char s.

(** ** Exceptions and fallible results *)

Inductive exn : Type :=
| InvalidRowTTID (ttidNum : number)
    (* Error(`Invalid TTID for row boxes: ${ttidNum}`) *)
| UnknownDeviceType (deviceType : string)
    (* Error(`Unknown device type: ${deviceType}`) *)
| BigIntSyntaxError (text : string)
    (* SyntaxError(`Cannot convert ${text} to a BigInt`) *)
| TypeError (message : string)
    (* a property read on [null] *)
| TransportError (message : string).
    (* whatever the register transport or the HTTP transport rejects with *)

Inductive result (A : Type) : Type :=
| Ok (a : A)
| Throw (e : exn).

Arguments Ok {A} a.
Arguments Throw {A} e.

(** ** Address math (csvModbusTTID.js, lines 83-104)

    The two functions are those of the code where [toLowerCase] and the
    arithmetic of [number] are: on category strings of 7-bit characters and
    on the safe integers ([exact_address] and [safe_identifier] below); the
    properties that range over categories or identifiers say so. *)

Definition computeUnitId (deviceType : string) (ttidNum : number) : result number :=
  let t := toLowerCase deviceType in
  if (t =? "row")%string then
    if (negb (Number_isInteger ttidNum) || nlt ttidNum (num_of_Z 1))%bool
    then Throw (InvalidRowTTID ttidNum)
    else Ok (nadd (Math_floor (ndiv (nsub ttidNum (num_of_Z 1)) (num_of_Z 100)))
                  (num_of_Z 1))
  else if (t =? "weather")%string then Ok (num_of_Z 101)
  else if (t =? "repeater")%string then Ok (num_of_Z 102)
  else if (t =? "network")%string then Ok (num_of_Z 100)
  else Throw (UnknownDeviceType deviceType).

Definition computeStartingAddressForType
    (deviceType : string) (ttidNum unitId baseReg : number) : number :=
  let t := toLowerCase deviceType in
  if (t =? "row")%string then
    nadd (nmul (nsub (nsub ttidNum (num_of_Z 1))
                     (nmul (nsub unitId (num_of_Z 1)) (num_of_Z 100)))
               (num_of_Z 512))
         baseReg
  else
    nadd (nmul (nsub ttidNum (num_of_Z 1)) (num_of_Z 512)) baseReg.

(** ** String helpers of the runtime *)

Definition code (c : ascii) : Z := Z.of_nat (nat_of_ascii c).

Definition char_of (z : Z) : ascii := ascii_of_nat (Z.to_nat z).

Definition zero_char : ascii := char_of 48.
Definition quote_char : ascii := char_of 39.
Definition dquote_char : ascii := char_of 34.

Definition str1 (c : ascii) : string := String c EmptyString.

(** The ASCII members of the regular-expression class [\s]
    (and of [StrWhiteSpaceChar]): TAB, LF, VT, FF, CR and SPACE. *)
Definition is_space (c : ascii) : bool :=
  let n := code c in ((9 <=? n) && (n <=? 13) || (n =? 32))%bool.

Fixpoint filter_string (keep : ascii -> bool) (s : string) : string :=
  match s with
  | EmptyString => EmptyString
  | String c r => if keep c then String c (filter_string keep r) else filter_string keep r
  end.

(** [s.replace(/\s+/g, "")] *)
Definition remove_spaces (s : string) : string :=
  filter_string (fun c => negb (is_space c)) s.

(** [s.replace(/\0/g, "")] *)
Definition remove_nul (s : string) : string :=
  filter_string (fun c => negb (code c =? 0)) s.

Fixpoint repeat_char (c : ascii) (n : nat) : string :=
  match n with
  | O => EmptyString
  | S k => String c (repeat_char c k)
  end.

(** [s.padStart(width, "0")] *)
Definition padStart0 (width : nat) (s : string) : string :=
  repeat_char zero_char (width - String.length s) ++ s.

(** [s.replace(/^0+/, "")] *)
Fixpoint strip_leading_zeros (s : string) : string :=
  match s with
  | String c r => if Ascii.eqb c zero_char then strip_leading_zeros r else s
  | EmptyString => EmptyString
  end.

(** [s || d] for a string [s]: the empty string is falsy. *)
Definition or_else (s d : string) : string :=
  match s with
  | EmptyString => d
  | _ => s
  end.

Fixpoint all_chars (p : ascii -> bool) (s : string) : bool :=
  match s with
  | EmptyString => true
  | String c r => (p c && all_chars p r)%bool
  end.

(** [Array.prototype.join("")] *)
Fixpoint join (l : list string) : string :=
  match l with
  | [] => EmptyString
  | s :: r => s ++ join r
  end.

(** Membership in an array literal of strings: [[...].includes(s)]. *)
Fixpoint includes (l : list string) (s : string) : bool :=
  match l with
  | [] => false
  | x :: r => ((x =? s)%string || includes r s)%bool
  end.

(** *** Hexadecimal digits *)

Definition hex_val (c : ascii) : option Z :=
  let n := code c in
  if ((48 <=? n) && (n <=? 57))%bool then Some (n - 48)
  else if ((97 <=? n) && (n <=? 102))%bool then Some (n - 87)
  else if ((65 <=? n) && (n <=? 70))%bool then Some (n - 55)
  else None.

Definition is_hex_digit (c : ascii) : bool :=
  match hex_val c with
  | Some _ => true
  | None => false
  end.

Definition hex_digit (d : Z) : ascii :=
  if d <? 10 then char_of (48 + d) else char_of (87 + d).

Fixpoint to_hex_aux (fuel : nat) (n : Z) (acc : string) : string :=
  match fuel with
  | O => acc
  | S f =>
      let acc' := String (hex_digit (n mod 16)) acc in
      if n / 16 =? 0 then acc' else to_hex_aux f (n / 16) acc'
  end.

(** [n.toString(16)] for an integer [n]: lower-case digits, no leading
    zero, a minus sign in front of a negative value. *)
Definition toString16 (n : Z) : string :=
  let digits m := to_hex_aux (S (Z.to_nat (Z.log2 m))) m EmptyString in
  if n <? 0 then String (char_of 45) (digits (- n)) else digits n.

(** [String(n)] for an integer [n]. *)
Definition Z_toString (n : Z) : string :=
  DecimalString.NilZero.string_of_int (Z.to_int n).

(** ** Buffers *)

(** [Buffer.from(hex, "hex")]: one byte per pair of hexadecimal digits; the
    decoding stops at the first pair that is not one, and a trailing single
    digit is dropped. *)
Fixpoint Buffer_from_hex (s : string) : list Z :=
  match s with
  | String a (String b r) =>
      match hex_val a, hex_val b with
      | Some x, Some y => (16 * x + y) :: Buffer_from_hex r
      | _, _ => []
      end
  | _ => []
  end.

Definition buffer_length (buffer : list Z) : Z := Z.of_nat (List.length buffer).

(** Big-endian unsigned value of the first [n] bytes. *)
Definition readUIntBE (n : nat) (buffer : list Z) : Z :=
  fold_left (fun acc b => acc * 256 + b) (firstn n buffer) 0.

Definition readUInt16BE (buffer : list Z) : Z := readUIntBE 2 buffer.
Definition readUInt32BE (buffer : list Z) : Z := readUIntBE 4 buffer.

Definition readInt16BE (buffer : list Z) : Z :=
  let u := readUIntBE 2 buffer in if u <? 32768 then u else u - 65536.

Definition readInt32BE (buffer : list Z) : Z :=
  let u := readUIntBE 4 buffer in if u <? 2147483648 then u else u - 4294967296.

(** The number denoted by an IEEE-754 binary32 bit pattern. *)
Definition float32_of_bits (w : Z) : number :=
  let s := Z.testbit w 31 in
  let e := Z.land (Z.shiftr w 23) 255 in
  let m := Z.land w 8388607 in
  if e =? 255 then
    if m =? 0 then (if s then NegInf else PosInf) else NaN
  else
    let mag :=
      if e =? 0 then Qmult (inject_Z m) (Qpower 2 (-149))
      else Qmult (inject_Z (m + 8388608)) (Qpower 2 (e - 150)) in
    Num (Qred (if s then Qopp mag else mag)).

Definition readFloatBE (buffer : list Z) : number :=
  float32_of_bits (readUIntBE 4 buffer).

(** *** [buffer.toString("utf8")]

    The bytes of a well-formed UTF-8 sequence are kept; every maximal
    ill-formed part is replaced by U+FFFD (bytes EF BF BD), as the WHATWG
    decoder of the runtime does.  The resulting string is represented by its
    UTF-8 bytes. *)

Record utf8_state : Type := {
  needed : nat;          (* continuation bytes still expected *)
  lower : Z;             (* bounds for the next continuation byte *)
  upper : Z;
  pending : string       (* bytes of the sequence read so far *)
}.

Definition utf8_idle : utf8_state :=
  {| needed := 0; lower := 128; upper := 191; pending := EmptyString |}.

Definition replacement : string :=
  String (char_of 239) (String (char_of 191) (String (char_of 189) EmptyString)).

(** A byte read while no sequence is open: the text produced and the next state. *)
Definition utf8_lead (b : Z) : string * utf8_state :=
  let open n lo hi :=
    (EmptyString, {| needed := n; lower := lo; upper := hi; pending := str1 (char_of b) |}) in
  if b <=? 127 then (str1 (char_of b), utf8_idle)
  else if ((194 <=? b) && (b <=? 223))%bool then open 1%nat 128 191
  else if ((224 <=? b) && (b <=? 239))%bool then
    open 2%nat (if b =? 224 then 160 else 128) (if b =? 237 then 159 else 191)
  else if ((240 <=? b) && (b <=? 244))%bool then
    open 3%nat (if b =? 240 then 144 else 128) (if b =? 244 then 143 else 191)
  else (replacement, utf8_idle).

Fixpoint utf8_run (bs : list Z) (st : utf8_state) : string :=
  match bs with
  | [] => match needed st with O => EmptyString | S _ => replacement end
  | b :: r =>
      match needed st with
      | O => let (out, st') := utf8_lead b in out ++ utf8_run r st'
      | S k =>
          if ((lower st <=? b) && (b <=? upper st))%bool then
            match k with
            | O => (pending st ++ str1 (char_of b)) ++ utf8_run r utf8_idle
            | S _ =>
                utf8_run r {| needed := k; lower := 128; upper := 191;
                              pending := pending st ++ str1 (char_of b) |}
            end
          else
            let (out, st') := utf8_lead b in replacement ++ out ++ utf8_run r st'
      end
  end.

Definition Buffer_toString_utf8 (buffer : list Z) : string := utf8_run buffer utf8_idle.

(** ** JavaScript values held by result rows *)

Inductive jsval : Type :=
| VUndefined
| VNull
| VStr (s : string)
| VNum (n : number)
| VErrText (prefix : string) (e : exn).
    (* the string `${prefix}${e.message}` *)

(** ** Codec helpers (csvModbusTTID.js, lines 12-56) *)

Definition CODEC_ALIASES : list (string * string) :=
  [ ("asciiz", "ascii"); ("utf8", "ascii"); ("text", "ascii"); ("string", "ascii");
    ("float", "float32"); ("floatbe", "float32"); ("float32", "float32");
    ("int", "int32"); ("int32", "int32"); ("i32", "int32");
    ("uint", "uint32"); ("u32", "uint32"); ("uint32", "uint32");
    ("u64", "uint64"); ("uint64", "uint64");
    ("int64", "int64"); ("i64", "int64");
    ("int16", "int16"); ("i16", "int16"); ("s16", "int16");
    ("uint16", "uint16"); ("u16", "uint16");
    ("bool", "boolean"); ("boolean", "boolean");
    ("hex", "hex") ].

Fixpoint lookup (key : string) (table : list (string * string)) : option string :=
  match table with
  | [] => None
  | (k, v) :: r => if (k =? key)%string then Some v else lookup key r
  end.

(** [normalizeCodec].  A key that names a property inherited from
    [Object.prototype] (such as [constructor]) makes the source return that
    property instead of the key; either way the result equals no codec
    name, which is all its users look at, and the model returns the key. *)
Definition normalizeCodec (codec : string) : string :=
  let key := remove_spaces (toLowerCase codec) in
  match lookup key CODEC_ALIASES with
  | Some canonical => canonical
  | None => key
  end.

(** Value of a string of hexadecimal digits, most significant first. *)
Fixpoint hex_value (s : string) (acc : Z) : Z :=
  match s with
  | EmptyString => acc
  | String c r =>
      match hex_val c with
      | Some d => hex_value r (16 * acc + d)
      | None => acc
      end
  end.

(** [s.trimEnd()] on the ASCII white space. *)
Fixpoint trimEnd (s : string) : string :=
  match s with
  | EmptyString => EmptyString
  | String c r =>
      match trimEnd r with
      | EmptyString => if is_space c then EmptyString else str1 c
      | r' => String c r'
      end
  end.

(** [BigInt("0x" + hex)]: white space around the literal is ignored, and
    what is left must be [0x] followed by at least one hexadecimal digit. *)
Definition BigInt_0x (hex : string) : result Z :=
  let digits := trimEnd hex in
  match digits with
  | EmptyString => Throw (BigIntSyntaxError ("0x" ++ hex))
  | _ =>
      if all_chars is_hex_digit digits then Ok (hex_value digits 0)
      else Throw (BigIntSyntaxError ("0x" ++ hex))
  end.

(** [decodeValue]; [notEnough] gives the diagnostic of a buffer that is too
    short, which is the one difference between the copies of the function. *)
Definition decodeValueWith (notEnough : string -> string)
    (hex codec : string) : result jsval :=
  let buffer := Buffer_from_hex hex in
  let sized (n : Z) (name : string) (v : result jsval) : result jsval :=
    if n <=? buffer_length buffer then v else Ok (VStr (notEnough name)) in
  if (codec =? "ascii")%string then
    Ok (VStr (remove_nul (Buffer_toString_utf8 buffer)))
  else if (codec =? "float32")%string then
    sized 4 "float32" (Ok (VNum (readFloatBE buffer)))
  else if (codec =? "int32")%string then
    sized 4 "int32" (Ok (VNum (num_of_Z (readInt32BE buffer))))
  else if (codec =? "uint32")%string then
    sized 4 "uint32" (Ok (VNum (num_of_Z (readUInt32BE buffer))))
  else if (codec =? "uint64")%string then
    sized 8 "uint64"
      match BigInt_0x hex with
      | Ok n => Ok (VStr (Z_toString n))
      | Throw e => Throw e
      end
  else if (codec =? "int64")%string then
    Ok (VStr "Int64 decoding not implemented")
  else if (codec =? "int16")%string then
    sized 2 "int16" (Ok (VNum (num_of_Z (readInt16BE buffer))))
  else if (codec =? "uint16")%string then
    sized 2 "uint16" (Ok (VNum (num_of_Z (readUInt16BE buffer))))
  else if (codec =? "boolean")%string then
    sized 2 "boolean"
      (Ok (VNum (num_of_Z (if negb (readUInt16BE buffer =? 0) then 1 else 0))))
  else if (codec =? "hex")%string then
    Ok (VStr ("0x" ++ toUpperCase hex))
  else Ok VNull.

(** csvModbusTTID.js and csvModbusPosition.js *)
Definition decodeValue : string -> string -> result jsval :=
  decodeValueWith (fun name => "Not enough bytes for " ++ name).

(** The legacy sorted generator *)
Definition decodeValue_sorted : string -> string -> result jsval :=
  decodeValueWith (fun _ => "Not enough bytes").

(** ** Result rows and field specifications *)

Record Row : Type := {
  TTID : jsval;
  Site : jsval;
  UnitID : jsval;
  ID : jsval;
  StartingAddress : jsval;
  Size : jsval;
  CombinedHex : jsval;
  DecodedValue : jsval
}.

(** An entry of the field specification, after the coercions the pollers
    apply to it: [Number(field.BaseReg)], [Number(field.Size)],
    [field.ID || ""] and [field.Codec || ""]. *)
Record FieldSpec : Type := {
  field_ID : string;
  field_BaseReg : number;
  field_Size : number;
  field_Codec : string
}.

(** The rendering of one register word (the arrow function mapped over
    [data.data]): [(val < 0 ? 0x10000 + val : val).toString(16).padStart(4, "0")]. *)
Definition hexWord (val : Z) : string :=
  padStart0 4 (toString16 (if val <? 0 then 65536 + val else val)).

Definition str_length (s : string) : Z := Z.of_nat (String.length s).

(** The three padding statements that precede the decoding. *)
Definition padForCodec (normalizedCodec combinedHex : string) : string :=
  let combinedHex :=
    if (includes ["uint64"] normalizedCodec && (str_length combinedHex <? 16))%bool
    then padStart0 16 combinedHex else combinedHex in
  let combinedHex :=
    if (includes ["uint32"; "int32"; "float32"] normalizedCodec
        && (str_length combinedHex <? 8))%bool
    then padStart0 8 combinedHex else combinedHex in
  let combinedHex :=
    if (includes ["uint16"; "int16"; "boolean"] normalizedCodec
        && (str_length combinedHex <? 4))%bool
    then padStart0 4 combinedHex else combinedHex in
  combinedHex.

(** [`Unknown codec "${rawCodec}"`] *)
Definition unknown_codec_text (rawCodec : string) : string :=
  "Unknown codec " ++ String dquote_char (rawCodec ++ str1 dquote_char).

(** [`'${String(combinedHex).toUpperCase()}`] *)
Definition quoted_upper (combinedHex : string) : string :=
  String quote_char (toUpperCase combinedHex).

(** [array.push(x)] *)
Definition push {A : Type} (array : list A) (x : A) : list A := (array ++ [x])%list.

(** ** The register pollers *)

Section Pollers.

(** The Modbus connection: its state, and what a read of [size] holding
    registers at [address] of the unit [unit] does to it and answers. *)
Variable conn : Type.
Variable readHoldingRegisters :
  conn -> forall (unit address size : number), conn * result (list Z).

(** [Number(String(TTID).trim())] *)
Variable Number_of_TTID : string -> number.

(** The client object: the selected unit, the connection, and the reads
    issued so far (most recent last). *)
Record client : Type := {
  unitID : number;
  link : conn;
  reads : list (number * number * number)
}.

Definition setID (unit : number) (c : client) : client :=
  {| unitID := unit; link := link c; reads := reads c |}.

Definition client_read (c : client) (address size : number)
    : client * result (list Z) :=
  let (l, answer) := readHoldingRegisters (link c) (unitID c) address size in
  ({| unitID := unitID c; link := l;
      reads := push (reads c) (unitID c, address, size) |}, answer).

(** *** csvModbusTTID.js, lines 162-251 *)

(** The body of the loop over the field specification. *)
Definition pollField (deviceType site : string) (ttidNum unitId : number)
    (field : FieldSpec) (c : client) : client * Row :=
  let baseReg := field_BaseReg field in
  let size := field_Size field in
  let id := field_ID field in
  let rawCodec := field_Codec field in
  if (negb (Number_isFinite baseReg) || negb (Number_isFinite size)
      || nle size (num_of_Z 0))%bool
  then
    (c, {| TTID := VNum ttidNum; Site := VStr site; UnitID := VNum unitId;
           ID := VStr id; StartingAddress := VNum baseReg; Size := VNum size;
           CombinedHex := VStr "Invalid field spec";
           DecodedValue := VStr EmptyString |})
  else
    let startAddr := computeStartingAddressForType deviceType ttidNum unitId baseReg in
    let (c', data) := client_read (setID unitId c) startAddr size in
    match data with
    | Ok words =>
        let hexValues := map hexWord words in
        let combinedHex := or_else (strip_leading_zeros (join hexValues)) "00" in
        let normalizedCodec := normalizeCodec rawCodec in
        let combinedHex := padForCodec normalizedCodec combinedHex in
        let decodedValue :=
          match decodeValue combinedHex normalizedCodec with
          | Ok VNull =>
              match rawCodec with
              | EmptyString => VNull
              | _ => VStr (unknown_codec_text rawCodec)
              end
          | Ok v => v
          | Throw err => VErrText "Decode error: " err
          end in
        (c', {| TTID := VNum ttidNum; Site := VStr site; UnitID := VNum unitId;
                ID := VStr id; StartingAddress := VNum startAddr; Size := VNum size;
                CombinedHex := VStr (quoted_upper combinedHex);
                DecodedValue := decodedValue |})
    | Throw err =>
        (c', {| TTID := VNum ttidNum; Site := VStr site; UnitID := VNum unitId;
                ID := VStr id; StartingAddress := VNum startAddr; Size := VNum size;
                CombinedHex := VErrText "Error: " err;
                DecodedValue := VStr EmptyString |})
    end.

(** The loop over the field specification; [allResults.push(row)]. *)
Definition pollFields (deviceType site : string) (ttidNum unitId : number)
    (fieldSpec : list FieldSpec) (st : client * list Row) : client * list Row :=
  fold_left
    (fun (st : client * list Row) field =>
       let (c', row) := pollField deviceType site ttidNum unitId field (fst st) in
       (c', push (snd st) row))
    fieldSpec st.

(** The row of an identifier that yields no field rows. *)
Definition identifierRow (rawTTID site : string) (tag : jsval) : Row :=
  {| TTID := VStr rawTTID; Site := VStr site; UnitID := VStr EmptyString;
     ID := VStr EmptyString; StartingAddress := VStr EmptyString;
     Size := VStr EmptyString; CombinedHex := tag;
     DecodedValue := VStr EmptyString |}.

(** The body of the loop over the identifiers. *)
Definition pollTTID (deviceType site : string) (fieldSpec : list FieldSpec)
    (rawTTID : string) (st : client * list Row) : client * list Row :=
  let ttidNum := Number_of_TTID rawTTID in
  if negb (Number_isFinite ttidNum) then
    (fst st, push (snd st) (identifierRow rawTTID site (VStr "Invalid TTID")))
  else
    match computeUnitId deviceType ttidNum with
    | Throw err =>
        (fst st, push (snd st) (identifierRow rawTTID site (VErrText "Error: " err)))
    | Ok unitId => pollFields deviceType site ttidNum unitId fieldSpec st
    end.

(** The rows of one device type: [allResults] after the loop over
    [deviceType.ttids], started with the rows [allResults]. *)
Definition pollTTIDs (deviceType site : string) (fieldSpec : list FieldSpec)
    (ttids : list string) (st : client * list Row) : client * list Row :=
  fold_left (fun st rawTTID => pollTTID deviceType site fieldSpec rawTTID st) ttids st.

Definition readModbusBatch_rows (deviceType site : string)
    (fieldSpec : list FieldSpec) (ttids : list string) (c : client) : list Row :=
  snd (pollTTIDs deviceType site fieldSpec ttids (c, [])).

(** *** csvModbusPosition.js: the loop over [allEntries] of one position

    [unitId] is [deviceType.unitId], which the generator selects on the
    client once, before its loop over the positions.  The position pollers
    use [BaseReg] and [Size] as the JSON file gives them, without [Number]:
    the embedding covers the entries in which they are numbers, or are
    missing ([NaN] here).  What surrounds this loop for a position (the read
    of the device type, the caption rows) is in [positionBlock] and
    [sortedBlock] below. *)

Definition positionField (site : string) (unitId posBase : number)
    (entry : FieldSpec) (c : client) : client * Row :=
  let rangeStart := nadd (nmul posBase (num_of_Z 512)) (field_BaseReg entry) in
  let row combined decoded :=
    {| TTID := VUndefined; Site := VStr site; UnitID := VNum unitId;
       ID := VStr (field_ID entry); StartingAddress := VNum rangeStart;
       Size := VNum (field_Size entry);
       CombinedHex := combined; DecodedValue := decoded |} in
  let (c', data) := client_read c rangeStart (field_Size entry) in
  match data with
  | Ok words =>
      let hexValues := map hexWord words in
      let combinedHex := join hexValues in
      let normalizedCodec := normalizeCodec (field_Codec entry) in
      let combinedHex := padForCodec normalizedCodec combinedHex in
      match decodeValue combinedHex normalizedCodec with
      | Ok decodedValue => (c', row (VStr (quoted_upper combinedHex)) decodedValue)
      | Throw err => (c', row (VErrText "Error: " err) (VStr EmptyString))
      end
  | Throw err => (c', row (VErrText "Error: " err) (VStr EmptyString))
  end.

Definition positionFields (site : string) (unitId posBase : number)
    (allEntries : list FieldSpec) (st : client * list Row) : client * list Row :=
  fold_left
    (fun (st : client * list Row) entry =>
       let (c', row) := positionField site unitId posBase entry (fst st) in
       (c', push (snd st) row))
    allEntries st.

(** *** The legacy sorted generator: the loop over [entries] of one position *)

Definition sortedField (site : string) (unitId posBase : number)
    (entry : FieldSpec) (st : client * list Row) : client * list Row :=
  match field_ID entry with
  | EmptyString => st
  | _ =>
      if (isNaN (field_BaseReg entry) || isNaN (field_Size entry))%bool then st
      else
        let c := fst st in
        let start := nadd (nmul posBase (num_of_Z 512)) (field_BaseReg entry) in
        let row combined decoded :=
          {| TTID := VUndefined; Site := VStr site; UnitID := VNum unitId;
             ID := VStr (field_ID entry); StartingAddress := VNum start;
             Size := VNum (field_Size entry);
             CombinedHex := combined; DecodedValue := decoded |} in
        let (c', data) := client_read c start (field_Size entry) in
        match data with
        | Ok values =>
            let hexValues := map hexWord values in
            let combinedHex := join hexValues in
            let normalizedCodec := normalizeCodec (field_Codec entry) in
            let combinedHex := padForCodec normalizedCodec combinedHex in
            match decodeValue_sorted combinedHex normalizedCodec with
            | Ok decoded =>
                (c', push (snd st) (row (VStr (quoted_upper combinedHex)) decoded))
            | Throw err =>
                (c', push (snd st) (row (VErrText "Error: " err) (VStr EmptyString)))
            end
        | Throw err =>
            (c', push (snd st) (row (VErrText "Error: " err) (VStr EmptyString)))
        end
  end.

Definition sortedFields (site : string) (unitId posBase : number)
    (entries : list FieldSpec) (st : client * list Row) : client * list Row :=
  fold_left (fun st entry => sortedField site unitId posBase entry st) entries st.

End Pollers.

Arguments unitID {conn} c.
Arguments link {conn} c.
Arguments reads {conn} c.
Arguments setID {conn} unit c.
Arguments client_read {conn} readHoldingRegisters c address size.
Arguments pollField {conn} readHoldingRegisters deviceType site ttidNum unitId field c.
Arguments pollFields {conn} readHoldingRegisters deviceType site ttidNum unitId fieldSpec st.
Arguments pollTTID {conn} readHoldingRegisters Number_of_TTID deviceType site fieldSpec rawTTID st.
Arguments pollTTIDs {conn} readHoldingRegisters Number_of_TTID deviceType site fieldSpec ttids st.
Arguments readModbusBatch_rows
  {conn} readHoldingRegisters Number_of_TTID deviceType site fieldSpec ttids c.
Arguments positionField {conn} readHoldingRegisters site unitId posBase entry c.
Arguments positionFields {conn} readHoldingRegisters site unitId posBase allEntries st.
Arguments sortedField {conn} readHoldingRegisters site unitId posBase entry st.
Arguments sortedFields {conn} readHoldingRegisters site unitId posBase entries st.

(** ** Vocabulary of the specification about rows and codecs *)

(** A 16-bit register word, in its signed or its unsigned reading. *)
Definition is_word16 (v : Z) : Prop := -32768 <= v <= 65535.

(** The number of hexadecimal characters a codec requires: 4 for the 16-bit
    kinds, 8 for the 32-bit kinds, 16 for [uint64]. *)
Definition required_width (codec : string) : option nat :=
  if includes ["uint16"; "int16"; "boolean"] codec then Some 4%nat
  else if includes ["uint32"; "int32"; "float32"] codec then Some 8%nat
  else if includes ["uint64"] codec then Some 16%nat
  else None.

(** The field specifications the TTID poller rejects: a register count
    that is at most 0, or a base register or a count that is not finite. *)
Definition invalid_spec (field : FieldSpec) : bool :=
  (negb (Number_isFinite (field_BaseReg field))
   || negb (Number_isFinite (field_Size field))
   || nle (field_Size field) (num_of_Z 0))%bool.

(** The canonical codecs. *)
Definition canonical_codecs : list string :=
  ["ascii"; "float32"; "int32"; "uint32"; "uint64"; "int64"; "int16"; "uint16";
   "boolean"; "hex"].

(** [sub] occurs in [s]. *)
Fixpoint contains (sub s : string) : bool :=
  (String.prefix sub s ||
   match s with
   | EmptyString => false
   | String _ r => contains sub r
   end)%bool.

(** A success row carries the quoted combined hex string. *)
Definition is_success_row (r : Row) : bool :=
  match CombinedHex r with
  | VStr (String c _) => Ascii.eqb c quote_char
  | _ => false
  end.

(** An error row carries an error tag and an empty decoded value. *)
Definition is_error_row (r : Row) : bool :=
  match CombinedHex r, DecodedValue r with
  | VErrText prefix _, VStr EmptyString => (prefix =? "Error: ")%string
  | VStr tag, VStr EmptyString =>
      ((tag =? "Invalid TTID") || (tag =? "Invalid field spec"))%string
  | _, _ => false
  end.

(** A row is tagged when it is a success row or an error row, not both. *)
Definition tagged (r : Row) : Prop :=
  xorb (is_success_row r) (is_error_row r) = true.

(** The identifier and the field a row is about. *)
Definition row_key (r : Row) : jsval * jsval := (TTID r, ID r).

(** The keys of the rows the specification expects for one identifier: one
    row per field, in the order of the field specification, or the single
    row of an identifier that is not numeric or has no unit. *)
Definition expected_keys (Number_of_TTID : string -> number)
    (deviceType : string) (fieldSpec : list FieldSpec) (rawTTID : string)
    : list (jsval * jsval) :=
  let ttidNum := Number_of_TTID rawTTID in
  match Number_isFinite ttidNum, computeUnitId deviceType ttidNum with
  | true, Ok _ => map (fun field => (VNum ttidNum, VStr (field_ID field))) fieldSpec
  | _, _ => [(VStr rawTTID, VStr EmptyString)]
  end.

(** Transports for the examples: a connection without state that answers
    every read with the same words, or rejects every read. *)
Definition answering (words : list Z)
    : unit -> number -> number -> number -> unit * result (list Z) :=
  fun _ _ _ _ => (tt, Ok words).

Definition refusing (message : string)
    : unit -> number -> number -> number -> unit * result (list Z) :=
  fun _ _ _ _ => (tt, Throw (TransportError message)).

Definition fresh_client : client unit :=
  {| unitID := num_of_Z 0; link := tt; reads := [] |}.

(** Value of a string of decimal digits, most significant first. *)
Fixpoint decimal_value (s : string) (acc : Z) : Z :=
  match s with
  | EmptyString => acc
  | String c r => decimal_value r (10 * acc + (code c - 48))
  end.

(** The identifier conversion used in the examples: it agrees with
    [Number(String(TTID).trim())] on the strings of decimal digits (the empty
    string converts to 0) and answers [NaN] elsewhere. *)
Definition Number_of_digits (s : string) : number :=
  if all_chars (fun c => ((48 <=? code c) && (code c <=? 57))%bool) s
  then num_of_Z (decimal_value s 0)
  else NaN.

(** ** The mode-toggle client (modbus-set-mode-api.js) *)

(** *** Case-insensitive tests of the regular expressions of the client *)

Fixpoint prefix_ci (p s : string) : bool :=
  match p, s with
  | EmptyString, _ => true
  | String a p', String b s' => (Ascii.eqb (lower_char a) (lower_char b) && prefix_ci p' s')%bool
  | String _ _, EmptyString => false
  end.

(** [/needle/i.test(s)] for a literal [needle]. *)
Fixpoint contains_ci (needle s : string) : bool :=
  (prefix_ci needle s ||
   match s with
   | EmptyString => false
   | String _ r => contains_ci needle r
   end)%bool.

Fixpoint drop (n : nat) (s : string) : string :=
  match n, s with
  | O, _ => s
  | S k, String _ r => drop k r
  | S _, EmptyString => EmptyString
  end.

(** [.] matches every character but a line terminator: LF, CR, and U+2028
    and U+2029, whose UTF-8 bytes are E2 80 A8 and E2 80 A9. *)
Definition is_line_terminator (c : ascii) : bool :=
  ((code c =? 10) || (code c =? 13))%bool.

Definition at_line_terminator (s : string) : bool :=
  match s with
  | EmptyString => false
  | String c r =>
      (is_line_terminator c
       || ((code c =? 226)
           && match r with
              | String d (String e _) =>
                  (code d =? 128) && ((code e =? 168) || (code e =? 169))
              | _ => false
              end))%bool
  end.

(** [b] occurs in [s] with no line terminator before it. *)
Fixpoint find_on_line (b s : string) : bool :=
  (prefix_ci b s ||
   match s with
   | EmptyString => false
   | String _ r => if at_line_terminator s then false else find_on_line b r
   end)%bool.

(** [/a.*b/i.test(s)] for literals [a] and [b]. *)
Fixpoint contains_dotstar_ci (a b s : string) : bool :=
  ((prefix_ci a s && find_on_line b (drop (String.length a) s)) ||
   match s with
   | EmptyString => false
   | String _ r => contains_dotstar_ci a b r
   end)%bool.

(** [/Cannot query field .* on type "ModbusService"/i] *)
Definition selection_too_ambitious (msg : string) : bool :=
  contains_dotstar_ci "Cannot query field "
    (" on type " ++ String dquote_char ("ModbusService" ++ str1 dquote_char)) msg.

(** [/Unknown (argument|field)/i.test(msg) || /Field .* is not defined/i.test(msg)] *)
Definition inputs_not_supported (msg : string) : bool :=
  (contains_ci "Unknown argument" msg || contains_ci "Unknown field" msg
   || contains_dotstar_ci "Field " " is not defined" msg)%bool.

(** *** Flags and modes *)

(** The flags object: each of its two properties is present or deleted. *)
Record Flags : Type := {
  enableLegacyMode : option bool;
  enableModbusSorting : option bool
}.

Definition no_flags : Flags :=
  {| enableLegacyMode := None; enableModbusSorting := None |}.

(** [MODE_MAP[key]] when it is truthy.  Of the properties inherited from
    [Object.prototype] the lower-cased key can name [constructor] and
    [__proto__] only; both are truthy and spread to an object without
    properties. *)
Definition MODE_MAP (key : string) : option Flags :=
  if (key =? "ttid")%string then
    Some {| enableLegacyMode := Some false; enableModbusSorting := Some false |}
  else if (key =? "legacy-unsorted")%string then
    Some {| enableLegacyMode := Some true; enableModbusSorting := Some false |}
  else if (key =? "legacy-sorted")%string then
    Some {| enableLegacyMode := Some true; enableModbusSorting := Some true |}
  else if ((key =? "constructor") || (key =? "__proto__"))%string then Some no_flags
  else None.

Definition SELECTIONS : list string :=
  [ "modbusService { enableModbusService enableModbusWrites enableModbusSorting enableLegacyMode }";
    "modbusService { enableModbusService enableModbusWrites }";
    "modbusService { __typename }";
    "__typename" ].

(** [Object.keys(flags).length === 0] *)
Definition no_keys (flags : Flags) : bool :=
  match enableLegacyMode flags, enableModbusSorting flags with
  | None, None => true
  | _, _ => false
  end.

Definition is_some {A : Type} (o : option A) : bool :=
  match o with
  | Some _ => true
  | None => false
  end.

(** [scrubUnsupportedFlagsFromError]: the flags after the deletions, and
    [changed]. *)
Definition scrubUnsupportedFlagsFromError (flags : Flags) (errMsg : string)
    : Flags * bool :=
  let dropSorting :=
    (contains_ci "enableModbusSorting" errMsg && is_some (enableModbusSorting flags))%bool in
  let dropLegacy :=
    (contains_ci "enableLegacyMode" errMsg && is_some (enableLegacyMode flags))%bool in
  ({| enableLegacyMode := if dropLegacy then None else enableLegacyMode flags;
      enableModbusSorting := if dropSorting then None else enableModbusSorting flags |},
   (dropSorting || dropLegacy)%bool).

(** *** The HTTP exchange *)

(** What [JSON.parse(text)] makes of the body of a response. *)
Inductive parsed_body : Type :=
| NotJson                          (* [JSON.parse] throws *)
| JsonNull                         (* the value [null] *)
| JsonValue (errors : option string).
    (* any other value; [Some s] when its [errors] is a non-empty array,
       [s] being [JSON.stringify(json.errors)] *)

Record response : Type := {
  res_ok : bool;
  status : Z;
  text : string;
  body : parsed_body
}.

Inductive fetch_outcome : Type :=
| Rejects (e : exn)
    (* [fetchImpl(...)] or [res.text()] rejects: network failure, or the
       abort that the timeout triggers *)
| Responds (res : response).

(** The object a call of [postUpdate] resolves to: [ok], and the message of
    [error] when there is one. *)
Inductive post_result : Type :=
| PostOk
| PostFailed (message : string).

(** The object [setModbusMode] resolves to. *)
Inductive outcome : Type :=
| Applied (selection : string) (appliedFlags : Flags)
    (* { ok: true, selection, appliedFlags, response } *)
| Skipped (reason : string) (appliedFlags : option Flags).
    (* { ok: false, skipped: true, reason, appliedFlags } *)

(** What running a loop body or a loop leads to. *)
Inductive control (S : Type) : Type :=
| Returns (o : outcome)        (* the function returns *)
| Raises (e : exn)             (* an exception leaves the function *)
| Goes_on (s : S).             (* the loop is left or goes on *)

Arguments Returns {S} o.
Arguments Raises {S} e.
Arguments Goes_on {S} s.

Section ModeToggle.

(** The remote service and the network: its state, and what a POST of the
    mutation with the given selection and flags does to it and yields. *)
Variable world : Type.
Variable fetchImpl : world -> string -> Flags -> world * fetch_outcome.

(** What [ensureFetch()] settles to: the global [fetch] or the imported
    [node-fetch], or the exception of a failed import. *)
Variable ensureFetch : result unit.

Definition postUpdate (w : world) (variables : Flags) (selection : string)
    : world * result post_result :=
  let (w', fetched) := fetchImpl w selection variables in
  match fetched with
  | Rejects e => (w', Throw e)
  | Responds res =>
      match body res with
      | NotJson =>
          (w', Ok (PostFailed ("Non-JSON response (status " ++ Z_toString (status res)
                               ++ "): " ++ text res)))
      | parsed =>
          if negb (res_ok res) then
            (w', Ok (PostFailed ("HTTP " ++ Z_toString (status res) ++ ": " ++ text res)))
          else
            match parsed with
            | JsonNull =>
                (w', Throw (TypeError "Cannot read properties of null (reading 'errors')"))
            | JsonValue (Some errors) => (w', Ok (PostFailed ("GraphQL errors: " ++ errors)))
            | _ => (w', Ok PostOk)
            end
      end
  end.

(** The inner loop of [setFlags] over the selections that are left;
    [Goes_on] carries [flagsToSend] as the loop leaves it, by [break] or
    at its end. *)
Fixpoint selectionLoop (selections : list string) (w : world) (flagsToSend : Flags)
    : world * control Flags :=
  match selections with
  | [] => (w, Goes_on flagsToSend)
  | selection :: rest =>
      let (w', posted) := postUpdate w flagsToSend selection in
      match posted with
      | Throw e => (w', Raises e)
      | Ok PostOk => (w', Returns (Applied selection flagsToSend))
      | Ok (PostFailed msg) =>
          if selection_too_ambitious msg then selectionLoop rest w' flagsToSend
          else if inputs_not_supported msg then
            let (scrubbed, removed) := scrubUnsupportedFlagsFromError flagsToSend msg in
            if removed then (w', Goes_on scrubbed)
            else selectionLoop rest w' scrubbed
          else selectionLoop rest w' flagsToSend
      end
  end.

(** The outer loop of [setFlags], with [attempts] iterations left. *)
Fixpoint attemptLoop (attempts : nat) (w : world) (flagsToSend : Flags)
    : world * result outcome :=
  match attempts with
  | O => (w, Ok (Skipped "Exhausted retries" (Some flagsToSend)))
  | S remaining =>
      let (w', c) := selectionLoop SELECTIONS w flagsToSend in
      match c with
      | Returns o => (w', Ok o)
      | Raises e => (w', Throw e)
      | Goes_on flags' =>
          if no_keys flags' then (w', Ok (Skipped "Unsupported flags" (Some no_flags)))
          else attemptLoop remaining w' flags'
      end
  end.

Definition setFlags (w : world) (flags : Flags) : world * result outcome :=
  attemptLoop 6 w flags.

Definition setModbusMode (mode : string) (w : world) : world * result outcome :=
  match MODE_MAP (toLowerCase mode) with
  | None =>
      (w, Ok (Skipped ("Invalid mode " ++ String dquote_char (mode ++ str1 dquote_char)) None))
  | Some flags =>
      match ensureFetch with
      | Throw e => (w, Throw e)
      | Ok _ => setFlags w flags
      end
  end.

End ModeToggle.

Arguments postUpdate {world} fetchImpl w variables selection.
Arguments selectionLoop {world} fetchImpl selections w flagsToSend.
Arguments attemptLoop {world} fetchImpl attempts w flagsToSend.
Arguments setFlags {world} fetchImpl w flags.
Arguments setModbusMode {world} fetchImpl ensureFetch mode w.

(** The exchanges that [postUpdate] turns into an object: the request is
    not rejected, and the body of an accepted response is not [null]. *)
Definition settles (f : fetch_outcome) : Prop :=
  match f with
  | Rejects _ => False
  | Responds res => res_ok res = true -> body res <> JsonNull
  end.

(** A network for the examples on which every request is rejected, as it is
    when the host is unreachable or the timeout aborts the request. *)
Definition unreachable (message : string)
    : unit -> string -> Flags -> unit * fetch_outcome :=
  fun _ _ _ => (tt, Rejects (TransportError message)).

(** A service for the examples that does not know the flag
    [enableModbusSorting]: it answers a request that carries it with a
    GraphQL error about the unknown field, and accepts the others. *)
Definition without_sorting : unit -> string -> Flags -> unit * fetch_outcome :=
  fun _ _ flags =>
    (tt, Responds
           {| res_ok := true; status := 200; text := EmptyString;
              body := JsonValue
                        (if is_some (enableModbusSorting flags)
                         then Some "Unknown field enableModbusSorting"
                         else None) |}).

(** The field specifications of the examples. *)
Definition two_register_hex_field : FieldSpec :=
  {| field_ID := "Serial"; field_BaseReg := num_of_Z 0; field_Size := num_of_Z 2;
     field_Codec := "hex" |}.

Definition empty_range_field : FieldSpec :=
  {| field_ID := "Status"; field_BaseReg := num_of_Z 4; field_Size := num_of_Z 0;
     field_Codec := "uint16" |}.

Definition missing_base_field : FieldSpec :=
  {| field_ID := "Status"; field_BaseReg := NaN; field_Size := num_of_Z 1;
     field_Codec := "uint16" |}.

Definition widget_field : FieldSpec :=
  {| field_ID := "Vendor"; field_BaseReg := num_of_Z 0; field_Size := num_of_Z 1;
     field_Codec := "widget" |}.

Definition device_type_field : FieldSpec :=
  {| field_ID := "Device Type"; field_BaseReg := num_of_Z 8; field_Size := num_of_Z 2;
     field_Codec := "ascii" |}.

Definition text_field : FieldSpec :=
  {| field_ID := "Label"; field_BaseReg := num_of_Z 20; field_Size := num_of_Z 2;
     field_Codec := "ascii" |}.

Definition four_register_uint32_field : FieldSpec :=
  {| field_ID := "Counter"; field_BaseReg := num_of_Z 0; field_Size := num_of_Z 4;
     field_Codec := "uint32" |}.

(** ** The address calculator of the specification *)

Inductive spec_error : Type :=
| InvalidIdentifier
| UnknownDeviceCategory.

(** Reference definition of [unitId], following the words of the
    specification (section 4.2, TTID addressing): a [row] identifier must be
    an integer that is at least 1 and maps to [floor((identifier-1)/100)+1];
    [weather], [repeater] and [network] have the fixed units 101, 102 and
    100; another category fails. *)
Definition spec_unitId (category : string) (identifier : number)
    : spec_error + number :=
  if (category =? "row")%string then
    if (Number_isInteger identifier && nle (num_of_Z 1) identifier)%bool
    then inr (nadd (Math_floor (ndiv (nsub identifier (num_of_Z 1)) (num_of_Z 100)))
                   (num_of_Z 1))
    else inl InvalidIdentifier
  else if (category =? "weather")%string then inr (num_of_Z 101)
  else if (category =? "repeater")%string then inr (num_of_Z 102)
  else if (category =? "network")%string then inr (num_of_Z 100)
  else inl UnknownDeviceCategory.

(** Reference definition of [startAddress]: banked for [row], flat paging
    for [weather], [repeater] and [network]; the specification gives no
    address to another category. *)
Definition spec_startAddress (category : string)
    (identifier unitId baseRegister : number) : option number :=
  if (category =? "row")%string then
    Some (nadd (nmul (nsub (nsub identifier (num_of_Z 1))
                           (nmul (nsub unitId (num_of_Z 1)) (num_of_Z 100)))
                     (num_of_Z 512))
               baseRegister)
  else if ((category =? "weather") || (category =? "repeater")
           || (category =? "network"))%string then
    Some (nadd (nmul (nsub identifier (num_of_Z 1)) (num_of_Z 512)) baseRegister)
  else None.

(** How a result of [computeUnitId] reads in the terms of the specification. *)
Definition spec_view (r : result number) : option (spec_error + number) :=
  match r with
  | Ok unitId => Some (inr unitId)
  | Throw (InvalidRowTTID _) => Some (inl InvalidIdentifier)
  | Throw (UnknownDeviceType _) => Some (inl UnknownDeviceCategory)
  | Throw _ => None
  end.

(** *** Where the arithmetic of the calculator is exact

    The code computes in IEEE-754 double precision, the embedding in exact
    rationals.  The two agree as long as the integers involved are safe
    integers, those up to [Number.MAX_SAFE_INTEGER] in absolute value: the
    sums, differences and products of the calculator are then exact in
    doubles, and so is the floor of the quotient by 100 of a safe integer. *)

Definition MAX_SAFE_INTEGER : Z := 2 ^ 53 - 1.

Definition safe_integer (z : Z) : bool :=
  ((- MAX_SAFE_INTEGER <=? z) && (z <=? MAX_SAFE_INTEGER))%bool.

(** An identifier on which [computeUnitId] is exact: a finite one lies
    within the safe integers. *)
Definition safe_identifier (t : number) : bool :=
  match t with
  | Num q =>
      (Qle_bool (inject_Z (- MAX_SAFE_INTEGER)) q
       && Qle_bool q (inject_Z MAX_SAFE_INTEGER))%bool
  | _ => true
  end.

(** The integer inputs on which [computeStartingAddressForType] is exact:
    they and every intermediate result of the formula of the category (given
    by its lower-cased name) are safe integers. *)
Definition exact_address (category : string) (t unitId b : Z) : bool :=
  if (category =? "row")%string then
    forallb safe_integer
      [ t; unitId; b; t - 1; unitId - 1; (unitId - 1) * 100;
        (t - 1) - (unitId - 1) * 100;
        ((t - 1) - (unitId - 1) * 100) * 512;
        ((t - 1) - (unitId - 1) * 100) * 512 + b ]
  else
    forallb safe_integer [ t; b; t - 1; (t - 1) * 512; (t - 1) * 512 + b ].

(** ** Vocabulary of the properties of the codecs *)

(** The strings of 7-bit characters: on them the case mappings and the white
    space of the runtime are the ASCII ones of [toLowerCase], [toUpperCase]
    and [remove_spaces]. *)
Definition is_ascii (s : string) : bool := all_chars (fun c => code c <? 128) s.

(** The lower-case names that a lookup in an object literal finds on
    [Object.prototype] and not among its keys. *)
Definition inherited_key (key : string) : bool :=
  ((key =? "constructor") || (key =? "__proto__"))%string.

(** The word a register word stands for once a negative reading is
    normalized. *)
Definition normalized_word (v : Z) : Z := if v <? 0 then 65536 + v else v.

(** The number a sequence of register words denotes, most significant word
    first. *)
Definition words_value (words : list Z) : Z :=
  fold_left (fun acc w => acc * 65536 + normalized_word w) words 0.

(** What a codec with a required width makes of the bit pattern [v]. *)
Definition value_of_bits (codec : string) (v : Z) : jsval :=
  if (codec =? "uint16")%string then VNum (num_of_Z v)
  else if (codec =? "int16")%string then VNum (num_of_Z (if v <? 32768 then v else v - 65536))
  else if (codec =? "boolean")%string then VNum (num_of_Z (if v =? 0 then 0 else 1))
  else if (codec =? "uint32")%string then VNum (num_of_Z v)
  else if (codec =? "int32")%string then
    VNum (num_of_Z (if v <? 2147483648 then v else v - 4294967296))
  else if (codec =? "float32")%string then VNum (float32_of_bits v)
  else if (codec =? "uint64")%string then VStr (Z_toString v)
  else VUndefined.

(** The first [n] characters of a string. *)
Fixpoint take (n : nat) (s : string) : string :=
  match n, s with
  | S k, String c r => String c (take k r)
  | _, _ => EmptyString
  end.

(** The characters of a hex string that a codec with a required width
    decodes: all of them for uint64, which hands the whole string to
    [BigInt], the first [N] for the other codecs, which read the first bytes
    of the buffer. *)
Definition decoded_part (codec : string) (N : nat) (s : string) : string :=
  if (codec =? "uint64")%string then s else take N s.


(** ** Vocabulary of the properties of the pollers *)

(** The reads the TTID poller owes to the fields of one identifier: one per
    field specification it accepts, at the unit of the identifier. *)
Definition field_reads (deviceType : string) (ttidNum unitId : number)
    (fieldSpec : list FieldSpec) : list (number * number * number) :=
  flat_map
    (fun field =>
       if invalid_spec field then []
       else [(unitId,
              computeStartingAddressForType deviceType ttidNum unitId (field_BaseReg field),
              field_Size field)])
    fieldSpec.

Definition identifier_reads (Number_of_TTID : string -> number)
    (deviceType : string) (fieldSpec : list FieldSpec) (rawTTID : string)
    : list (number * number * number) :=
  let ttidNum := Number_of_TTID rawTTID in
  match Number_isFinite ttidNum, computeUnitId deviceType ttidNum with
  | true, Ok unitId => field_reads deviceType ttidNum unitId fieldSpec
  | _, _ => []
  end.

(** The entries the legacy sorted generator reads: those with an ID and with
    a base register and a size that are not [NaN]. *)
Definition sorted_accepts (entry : FieldSpec) : bool :=
  match field_ID entry with
  | EmptyString => false
  | _ => negb (isNaN (field_BaseReg entry) || isNaN (field_Size entry))
  end.

(** ** The position pollers: the loop over the positions of a device type *)

(** [s.trim()] on the ASCII white space. *)
Fixpoint trimStart (s : string) : string :=
  match s with
  | EmptyString => EmptyString
  | String c r => if is_space c then trimStart r else s
  end.

Definition trim (s : string) : string := trimStart (trimEnd s).

(** Whether [v || d] is [v]: [null], [undefined], [0], [NaN] and the empty
    string are falsy. *)
Definition truthy (v : jsval) : bool :=
  match v with
  | VUndefined | VNull => false
  | VStr s => negb (s =? "")%string
  | VNum (Num q) => negb (Qeq_bool q 0)
  | VNum NaN => false
  | VNum _ => true
  | VErrText prefix e =>
      (negb (prefix =? "")%string
       || match e with
          | TransportError message | TypeError message => negb (message =? "")%string
          | _ => true
          end)%bool
  end.

(** A row that is about no entry: only its [ID] is filled. *)
Definition caption_row (id : string) : Row :=
  {| TTID := VUndefined; Site := VStr EmptyString; UnitID := VStr EmptyString;
     ID := VStr id; StartingAddress := VStr EmptyString; Size := VStr EmptyString;
     CombinedHex := VStr EmptyString; DecodedValue := VStr EmptyString |}.

(** ["=".repeat(100)] *)
Definition rule : string := repeat_char (char_of 61) 100.

(** The read of an entry at a position. *)
Definition position_read (unit posBase : number) (entry : FieldSpec)
    : number * number * number :=
  (unit, nadd (nmul posBase (num_of_Z 512)) (field_BaseReg entry), field_Size entry).

(** [findItem(matchId)] of csvModbusPosition.js: the first entry whose ID is
    [matchId], white space around it and letter case apart. *)
Definition findItem (matchId : string) (allEntries : list FieldSpec) : option FieldSpec :=
  find (fun item =>
          (negb (field_ID item =? "")%string
           && (toLowerCase (trim (field_ID item)) =? toLowerCase (trim matchId))%string)%bool)
       allEntries.

(** [typeEntry] of the legacy sorted generator, for its [typeIdKey], which
    is [System ID] for the network controller and [Device Type] otherwise. *)
Definition sortedTypeEntry (typeIdKey : string) (entries : list FieldSpec)
    : option FieldSpec :=
  find (fun item => (toLowerCase (trim (field_ID item)) =? toLowerCase typeIdKey)%string)
       entries.

Section PositionBlocks.

Variable conn : Type.
Variable readHoldingRegisters :
  conn -> forall (unit address size : number), conn * result (list Z).

(** What a template literal makes of a value: [String(value)]. *)
Variable template_text : jsval -> string.

(** *** csvModbusPosition.js: the body of the loop over the positions *)

(** The name of the device type at a position: the entry [Device Type], when
    there is one, is read and decoded, without padding. *)
Definition positionTypeName (posBase : number) (allEntries : list FieldSpec)
    (c : client conn) : client conn * jsval :=
  match findItem "Device Type" allEntries with
  | None => (c, VStr EmptyString)
  | Some deviceTypeEntry =>
      let base := nadd (nmul posBase (num_of_Z 512)) (field_BaseReg deviceTypeEntry) in
      let (c', answer) := client_read readHoldingRegisters c base (field_Size deviceTypeEntry) in
      match answer with
      | Ok words =>
          let combinedHex := join (map hexWord words) in
          let normalizedCodec := normalizeCodec (field_Codec deviceTypeEntry) in
          match decodeValue combinedHex normalizedCodec with
          | Ok decoded => (c', if truthy decoded then decoded else VStr EmptyString)
          | Throw _ => (c', VStr "Unknown")
          end
      | Throw _ => (c', VStr "Unknown")
      end
  end.

Definition positionBlock (site : string) (unitId : number) (allEntries : list FieldSpec)
    (st : client conn * list Row) (position : number) : client conn * list Row :=
  let posBase := position in
  let (c1, deviceTypeName) := positionTypeName posBase allEntries (fst st) in
  let allResults :=
    push (snd st)
      (caption_row ("Position: " ++ template_text (VNum position)
                    ++ " | DeviceType: " ++ template_text deviceTypeName)) in
  let allResults := push allResults (caption_row rule) in
  let (c2, allResults) :=
    positionFields readHoldingRegisters site unitId posBase allEntries (c1, allResults) in
  let allResults := push allResults (caption_row rule) in
  (c2, push allResults (caption_row EmptyString)).

Definition positionBlocks (site : string) (unitId : number) (allEntries : list FieldSpec)
    (positions : list number) (st : client conn * list Row) : client conn * list Row :=
  fold_left (positionBlock site unitId allEntries) positions st.

(** *** The legacy sorted generator: the body of the loop over the positions *)

Definition sortedTypeName (typeEntry : option FieldSpec) (posBase : number)
    (c : client conn) : client conn * jsval :=
  match typeEntry with
  | None => (c, VStr "Unknown")
  | Some entry =>
      if (negb (isNaN (field_BaseReg entry)) && negb (isNaN (field_Size entry)))%bool then
        let start := nadd (nmul posBase (num_of_Z 512)) (field_BaseReg entry) in
        let (c', answer) := client_read readHoldingRegisters c start (field_Size entry) in
        match answer with
        | Ok words =>
            let combinedHex := join (map hexWord words) in
            let codec := normalizeCodec (field_Codec entry) in
            match decodeValue_sorted combinedHex codec with
            | Ok decoded => (c', if truthy decoded then decoded else VStr "Unknown")
            | Throw err => (c', VErrText "Error: " err)
            end
        | Throw err => (c', VErrText "Error: " err)
        end
      else (c, VStr "Unknown")
  end.

Definition sortedBlock (site : string) (unitId : number) (typeEntry : option FieldSpec)
    (entries : list FieldSpec) (st : client conn * list Row) (pos : number)
    : client conn * list Row :=
  let posBase := pos in
  let (c1, deviceTypeName) := sortedTypeName typeEntry posBase (fst st) in
  let allResults :=
    push (snd st)
      (caption_row ("======================Position: " ++ template_text (VNum pos)
                    ++ " | DeviceType: " ++ template_text deviceTypeName
                    ++ " ======================")) in
  let (c2, allResults) :=
    sortedFields readHoldingRegisters site unitId posBase entries (c1, allResults) in
  let allResults := push allResults (caption_row rule) in
  (c2, push allResults (caption_row EmptyString)).

Definition sortedBlocks (site : string) (unitId : number) (typeIdKey : string)
    (entries : list FieldSpec) (positions : list number) (st : client conn * list Row)
    : client conn * list Row :=
  let typeEntry := sortedTypeEntry typeIdKey entries in
  fold_left (sortedBlock site unitId typeEntry entries) positions st.

End PositionBlocks.

Arguments positionTypeName {conn} readHoldingRegisters posBase allEntries c.
Arguments positionBlock
  {conn} readHoldingRegisters template_text site unitId allEntries st position.
Arguments positionBlocks
  {conn} readHoldingRegisters template_text site unitId allEntries positions st.
Arguments sortedTypeName {conn} readHoldingRegisters typeEntry posBase c.
Arguments sortedBlock
  {conn} readHoldingRegisters template_text site unitId typeEntry entries st pos.
Arguments sortedBlocks
  {conn} readHoldingRegisters template_text site unitId typeIdKey entries positions st.

(** The reads a position owes to the device type. *)
Definition position_type_reads (unit : number) (allEntries : list FieldSpec)
    (position : number) : list (number * number * number) :=
  match findItem "Device Type" allEntries with
  | Some deviceTypeEntry => [position_read unit position deviceTypeEntry]
  | None => []
  end.

Definition sorted_type_reads (unit : number) (typeEntry : option FieldSpec)
    (pos : number) : list (number * number * number) :=
  match typeEntry with
  | Some entry =>
      if (negb (isNaN (field_BaseReg entry)) && negb (isNaN (field_Size entry)))%bool
      then [position_read unit pos entry] else []
  | None => []
  end.

(** The rows of a position in csvModbusPosition.js: a caption that names
    the position and the device type, a rule, one tagged row per entry, in
    order, a rule and an empty row. *)
Definition position_block (template_text : jsval -> string)
    (allEntries : list FieldSpec) (position : number) (block : list Row) : Prop :=
  exists deviceTypeName entryRows,
    block
    = (caption_row ("Position: " ++ template_text (VNum position)
                    ++ " | DeviceType: " ++ template_text deviceTypeName)
       :: caption_row rule
       :: entryRows ++ [caption_row rule; caption_row EmptyString])%list
    /\ map ID entryRows = map (fun entry => VStr (field_ID entry)) allEntries
    /\ Forall tagged entryRows.

(** The rows of a position in the legacy sorted generator: a caption, one
    tagged row per accepted entry, in order, a rule and an empty row. *)
Definition sorted_block (template_text : jsval -> string)
    (entries : list FieldSpec) (pos : number) (block : list Row) : Prop :=
  exists deviceTypeName entryRows,
    block
    = (caption_row ("======================Position: " ++ template_text (VNum pos)
                    ++ " | DeviceType: " ++ template_text deviceTypeName
                    ++ " ======================")
       :: entryRows ++ [caption_row rule; caption_row EmptyString])%list
    /\ map ID entryRows
       = map (fun entry => VStr (field_ID entry)) (filter sorted_accepts entries)
    /\ Forall tagged entryRows.

(** The entries whose IDs are strings of 7-bit characters, on which [trim]
    and [toLowerCase] are those of the runtime. *)
Definition ascii_IDs (entries : list FieldSpec) : Prop :=
  Forall (fun entry => is_ascii (field_ID entry) = true) entries.

(** ** Vocabulary of the properties of the mode-toggle client *)

(** The same network with a count of the requests it has received. *)
Definition counting {world : Type}
    (fetchImpl : world -> string -> Flags -> world * fetch_outcome)
    : world * nat -> string -> Flags -> (world * nat) * fetch_outcome :=
  fun wn selection flags =>
    let (w', fetched) := fetchImpl (fst wn) selection flags in
    ((w', S (snd wn)), fetched).

(** Every flag of [sent] is a flag of [flags], with the same value. *)
Definition flags_within (sent flags : Flags) : Prop :=
  (enableLegacyMode sent = None \/ enableLegacyMode sent = enableLegacyMode flags)
  /\ (enableModbusSorting sent = None
      \/ enableModbusSorting sent = enableModbusSorting flags).

(** [Object.keys(flags).length] *)
Definition key_count (flags : Flags) : nat :=
  ((if is_some (enableLegacyMode flags) then 1 else 0)
   + (if is_some (enableModbusSorting flags) then 1 else 0))%nat.

(** The flags an outcome reports, when it reports some. *)
Definition outcome_flags (o : outcome) : option Flags :=
  match o with
  | Applied _ appliedFlags => Some appliedFlags
  | Skipped _ appliedFlags => appliedFlags
  end.

(** A service for the examples that is down: it answers every request with
    the status 500 and a text that is no JSON. *)
Definition internal_error : unit -> string -> Flags -> unit * fetch_outcome :=
  fun _ _ _ =>
    (tt, Responds {| res_ok := false; status := 500; text := "Internal Server Error";
                     body := NotJson |}).

(** A failure message after which [setFlags] goes on with the next
    selection and the same flags: the selection was too ambitious, or the
    inputs are not in question, or no flag that is left is named. *)
Definition keeps_trying (flags : Flags) (msg : string) : Prop :=
  selection_too_ambitious msg = true
  \/ inputs_not_supported msg = false
  \/ snd (scrubUnsupportedFlagsFromError flags msg) = false.

(** [`Invalid mode "${mode}"`] *)
Definition invalid_mode_text (mode : string) : string :=
  "Invalid mode " ++ String dquote_char (mode ++ str1 dquote_char).

(** ** The run over the device types (csvModbusTTID.js, lines 125-160 and 368-376) *)

Record DeviceType : Type := {
  device_name : string;
  device_type : string;
  device_ttids : list string
}.

(** The device categories, after the identifiers of the CSV file are given
    to the first three; the network controller has the one identifier 1. *)
Definition deviceTypes (csvTTIDs : list string) : list DeviceType :=
  [ {| device_name := "Row Boxes"; device_type := "row"; device_ttids := csvTTIDs |};
    {| device_name := "Weather Station"; device_type := "weather";
       device_ttids := csvTTIDs |};
    {| device_name := "Repeater"; device_type := "repeater"; device_ttids := csvTTIDs |};
    {| device_name := "Network Controller"; device_type := "network";
       device_ttids := ["1"] |} ].

(** An entry of [allReports], without the paths of its two files. *)
Record Report : Type := {
  report_deviceType : string;
  report_type : string;
  ttidsProcessed : nat;
  resultsCount : nat
}.

Section DeviceTypeLoop.

Variable conn : Type.
Variable readHoldingRegisters :
  conn -> forall (unit address size : number), conn * result (list Z).
Variable Number_of_TTID : string -> number.

(** The contents of json/unsorted_assets.json and json/unsorted_nc.json. *)
Variable assetsSpec ncSpec : list FieldSpec.

(** The body of the loop over the device types: a device type without
    identifiers is passed over; the rows of another one are polled with the
    field specification of its kind, and go to its CSV and HTML files, which
    the model keeps beside the report. *)
Definition reportDeviceType (site : string) (deviceType : DeviceType)
    (st : client conn * list (Report * list Row))
    : client conn * list (Report * list Row) :=
  match device_ttids deviceType with
  | [] => st
  | _ =>
      let fieldSpec :=
        if (device_type deviceType =? "network")%string then ncSpec else assetsSpec in
      let (c', allResults) :=
        pollTTIDs readHoldingRegisters Number_of_TTID (device_type deviceType) site
          fieldSpec (device_ttids deviceType) (fst st, []) in
      (c', push (snd st)
             ({| report_deviceType := device_name deviceType;
                 report_type := device_type deviceType;
                 ttidsProcessed := List.length (device_ttids deviceType);
                 resultsCount := List.length allResults |},
              allResults))
  end.

(** [allReports], with the rows of each report, after the loop, in a run
    in which the two specification files are read as arrays and the output
    files are written; an exception there ends the run with an error object
    and no report. *)
Definition readModbusBatch_reports (site : string) (csvTTIDs : list string)
    (c : client conn) : client conn * list (Report * list Row) :=
  fold_left (fun st deviceType => reportDeviceType site deviceType st)
    (deviceTypes csvTTIDs) (c, []).

End DeviceTypeLoop.

Arguments reportDeviceType
  {conn} readHoldingRegisters Number_of_TTID assetsSpec ncSpec site deviceType st.
Arguments readModbusBatch_reports
  {conn} readHoldingRegisters Number_of_TTID assetsSpec ncSpec site csvTTIDs c.

(** The rows an identifier contributes to the report of a category with a
    fixed unit: those of its fields, or the one row of an identifier that is
    not numeric. *)
Definition rows_of_identifier (Number_of_TTID : string -> number)
    (fieldSpec : list FieldSpec) (rawTTID : string) : nat :=
  if Number_isFinite (Number_of_TTID rawTTID) then List.length fieldSpec else 1%nat.

(** A report and its rows, as the loop pushes them. *)
Definition report_of (name type : string) (ttids : list string) (rows : list Row)
    : Report * list Row :=
  ({| report_deviceType := name; report_type := type;
      ttidsProcessed := List.length ttids; resultsCount := List.length rows |}, rows).

(** The rows of the report of a category: success rows or error rows, which
    follow the identifiers and the fields of the specification of its kind. *)
Definition rows_of_report (Number_of_TTID : string -> number)
    (assetsSpec ncSpec : list FieldSpec) (type : string) (ttids : list string)
    (rows : list Row) : Prop :=
  Forall tagged rows
  /\ map row_key rows
     = flat_map (expected_keys Number_of_TTID type
                   (if (type =? "network")%string then ncSpec else assetsSpec)) ttids.

(** ** Vocabulary of the properties of text registers *)

(** The two bytes of a register word, high byte first. *)
Definition word_bytes (v : Z) : list Z :=
  [normalized_word v / 256; normalized_word v mod 256].

Definition bytes_of_words (words : list Z) : list Z := flat_map word_bytes words.

(** The text whose characters have the given codes. *)
Fixpoint text_of_bytes (bs : list Z) : string :=
  match bs with
  | [] => EmptyString
  | b :: r => String (char_of b) (text_of_bytes r)
  end.

(** The first byte that is not zero, if there is one, is 16 or more: its two
    hexadecimal digits start with a digit that is not zero. *)
Fixpoint starts_at_a_byte (bs : list Z) : bool :=
  match bs with
  | [] => true
  | b :: r => if b =? 0 then starts_at_a_byte r else 16 <=? b
  end.

(** * Properties *)

(** ** Arithmetic of integer-valued numbers *)

Lemma Qred_inject_Z (z : Z) : Qred (inject_Z z) = inject_Z z.
Proof.
  unfold Qred, inject_Z.
  generalize (Z.ggcd_gcd z 1) (Z.ggcd_correct_divisors z 1).
  destruct (Z.ggcd z 1) as [g [zz dd]]. simpl.
  rewrite Z.gcd_1_r. intros Hg [Hz Hd]. subst g.
  replace zz with z by lia. replace dd with 1 by lia. reflexivity.
Qed.

Lemma Qred_of_Z (q : Q) (z : Z) : q == inject_Z z -> Qred q = inject_Z z.
Proof.
  intros H. rewrite <- (Qred_inject_Z z). now apply Qred_complete.
Qed.

Lemma nadd_Z (a b : Z) : nadd (num_of_Z a) (num_of_Z b) = num_of_Z (a + b).
Proof.
  unfold nadd, num_of_Z. f_equal. apply Qred_of_Z. now rewrite inject_Z_plus.
Qed.

Lemma nsub_Z (a b : Z) : nsub (num_of_Z a) (num_of_Z b) = num_of_Z (a - b).
Proof.
  unfold nsub, num_of_Z. f_equal. apply Qred_of_Z.
  unfold Z.sub. rewrite inject_Z_plus, inject_Z_opp. reflexivity.
Qed.

Lemma nmul_Z (a b : Z) : nmul (num_of_Z a) (num_of_Z b) = num_of_Z (a * b).
Proof.
  unfold nmul, num_of_Z. f_equal. apply Qred_of_Z. now rewrite inject_Z_mult.
Qed.

Lemma floor_div_Z (a : Z) (d : positive) :
  Math_floor (ndiv (num_of_Z a) (num_of_Z (Zpos d))) = num_of_Z (a / Zpos d).
Proof.
  unfold ndiv, num_of_Z, Math_floor.
  assert (Hnz : Qeq_bool (inject_Z (Zpos d)) 0 = false).
  { apply not_true_is_false. intros H. apply Qeq_bool_iff in H.
    unfold Qeq, inject_Z in H; simpl in H. lia. }
  rewrite Hnz. f_equal. f_equal.
  rewrite (Qfloor_comp _ (a # d)).
  - reflexivity.
  - rewrite Qred_correct. unfold Qdiv, Qinv, Qmult, Qeq, inject_Z; simpl. lia.
Qed.

Lemma isInteger_Z (z : Z) : Number_isInteger (num_of_Z z) = true.
Proof.
  unfold Number_isInteger, num_of_Z. now rewrite Qred_inject_Z.
Qed.

Lemma nlt_Z (a b : Z) : nlt (num_of_Z a) (num_of_Z b) = (a <? b).
Proof.
  unfold nlt, num_of_Z.
  destruct (Z.ltb_spec a b) as [H | H].
  - apply negb_true_iff, not_true_is_false. intros L. apply Qle_bool_iff in L.
    rewrite <- Zle_Qle in L. lia.
  - apply negb_false_iff, Qle_bool_iff. now rewrite <- Zle_Qle.
Qed.

Lemma nle_Z (a b : Z) : nle (num_of_Z a) (num_of_Z b) = (a <=? b).
Proof.
  unfold nle, num_of_Z.
  destruct (Z.leb_spec a b) as [H | H].
  - apply Qle_bool_iff. now rewrite <- Zle_Qle.
  - apply not_true_is_false. intros L. apply Qle_bool_iff in L.
    rewrite <- Zle_Qle in L. lia.
Qed.

(** ** The address calculator *)

Lemma computeUnitId_row (deviceType : string) (t : Z) :
  toLowerCase deviceType = "row" -> 1 <= t ->
  computeUnitId deviceType (num_of_Z t) = Ok (num_of_Z ((t - 1) / 100 + 1)).
Proof.
  intros Hrow Ht. unfold computeUnitId. rewrite Hrow, String.eqb_refl.
  rewrite isInteger_Z, nlt_Z.
  destruct (Z.ltb_spec t 1); [lia |]. cbn [negb orb].
  now rewrite nsub_Z, floor_div_Z, nadd_Z.
Qed.

Lemma computeStartingAddress_row (deviceType : string) (t u b : Z) :
  toLowerCase deviceType = "row" ->
  computeStartingAddressForType deviceType (num_of_Z t) (num_of_Z u) (num_of_Z b)
  = num_of_Z (((t - 1) - (u - 1) * 100) * 512 + b).
Proof.
  intros Hrow. unfold computeStartingAddressForType. rewrite Hrow, String.eqb_refl.
  now rewrite !nsub_Z, nmul_Z, nsub_Z, nmul_Z, nadd_Z.
Qed.

Lemma computeStartingAddress_flat (deviceType : string) (t b : Z) (unitId : number) :
  toLowerCase deviceType <> "row" ->
  computeStartingAddressForType deviceType (num_of_Z t) unitId (num_of_Z b)
  = num_of_Z ((t - 1) * 512 + b).
Proof.
  intros Hrow. unfold computeStartingAddressForType.
  destruct (String.eqb_spec (toLowerCase deviceType) "row") as [E | _]; [contradiction |].
  now rewrite nsub_Z, nmul_Z, nadd_Z.
Qed.

Example unit_of_row_101 : computeUnitId "row" (num_of_Z 101) = Ok (num_of_Z 2).
Proof. reflexivity. Qed.

Example unit_of_fractional_row :
  computeUnitId "row" (Num (3 # 2)) = Throw (InvalidRowTTID (Num (3 # 2))).
Proof. reflexivity. Qed.

Example start_of_row_101 :
  computeStartingAddressForType "row" (num_of_Z 101) (num_of_Z 2) (num_of_Z 0) = num_of_Z 0.
Proof. reflexivity. Qed.

Example start_of_network_1 :
  computeStartingAddressForType "network" (num_of_Z 1) (num_of_Z 100) (num_of_Z 10)
  = num_of_Z 10.
Proof. reflexivity. Qed.

Lemma row_guard (t : number) :
  (negb (Number_isInteger t) || nlt t (num_of_Z 1))%bool
  = negb (Number_isInteger t && nle (num_of_Z 1) t)%bool.
Proof.
  destruct t as [x | | |]; try reflexivity.
  unfold nlt, nle, num_of_Z.
  destruct (Number_isInteger (Num x)); reflexivity.
Qed.

(** C1, as stated, fails: the calculator lower-cases the category before it
    compares it, so the category string [ROW], which is none of the four
    names, is served as a row box where the reference definition fails with
    UnknownDeviceCategory. *)
Lemma unitId_of_upper_case_category :
  computeUnitId "ROW" (num_of_Z 101) = Ok (num_of_Z 2)
  /\ spec_unitId "ROW" (num_of_Z 101) = inl UnknownDeviceCategory
  /\ spec_view (computeUnitId "ROW" (num_of_Z 101))
     <> Some (spec_unitId "ROW" (num_of_Z 101)).
Proof.
  split; [reflexivity | split; [reflexivity | discriminate]].
Qed.

(** C1 (amended): on the lower-cased category string the address calculator
    equals the reference definition of the specification, for every category
    string of 7-bit characters and within the safe integers, where the
    arithmetic of the code is exact.  For every identifier that is not a
    finite number beyond the safe integers, [computeUnitId] yields the same
    unit or the same kind of failure as [spec_unitId] (a row identifier that
    is no integer or is below 1 is an InvalidIdentifier, weather is 101,
    repeater 102, network 100, a string that lower-cases to none of the four
    names is an UnknownDeviceCategory); and for integers whose intermediate
    results are safe integers [computeStartingAddressForType] yields the
    address of [spec_startAddress] for each of the four categories. *)
Theorem address_calculator_matches_spec_up_to_case (category : string) :
  is_ascii category = true ->
  (forall t : number,
      safe_identifier t = true ->
      spec_view (computeUnitId category t) = Some (spec_unitId (toLowerCase category) t))
  /\ (forall (t unitId b : Z) (address : number),
        exact_address (toLowerCase category) t unitId b = true ->
        spec_startAddress (toLowerCase category)
          (num_of_Z t) (num_of_Z unitId) (num_of_Z b) = Some address ->
        computeStartingAddressForType category (num_of_Z t) (num_of_Z unitId) (num_of_Z b)
        = address).
Proof.
  intros _. split.
  - intros t _. unfold computeUnitId, spec_unitId.
    destruct (toLowerCase category =? "row")%string.
    + rewrite row_guard.
      destruct (Number_isInteger t && nle (num_of_Z 1) t)%bool; reflexivity.
    + destruct (toLowerCase category =? "weather")%string; [reflexivity |].
      destruct (toLowerCase category =? "repeater")%string; [reflexivity |].
      destruct (toLowerCase category =? "network")%string; reflexivity.
  - intros t unitId b address _. unfold computeStartingAddressForType, spec_startAddress.
    destruct (toLowerCase category =? "row")%string.
    + now intros [= <-].
    + destruct ((toLowerCase category =? "weather")%string
                || (toLowerCase category =? "repeater")%string
                || (toLowerCase category =? "network")%string)%bool.
      * now intros [= <-].
      * discriminate.
Qed.

Lemma address_calculator_matches_spec_up_to_case_witness :
  is_ascii "Weather" = true
  /\ spec_view (computeUnitId "Weather" (num_of_Z 3))
     = Some (spec_unitId (toLowerCase "Weather") (num_of_Z 3))
  /\ computeStartingAddressForType "Weather" (num_of_Z 3) (num_of_Z 101) (num_of_Z 7)
     = num_of_Z 1031.
Proof.
  destruct (address_calculator_matches_spec_up_to_case "Weather" eq_refl)
    as [Hunit Haddress].
  split; [reflexivity |]. split.
  - exact (Hunit (num_of_Z 3) eq_refl).
  - exact (Haddress 3 101 7 (num_of_Z 1031) eq_refl eq_refl).
Defined.




(** ** Strings *)

Lemma length_append (s1 s2 : string) :
  String.length (s1 ++ s2) = (String.length s1 + String.length s2)%nat.
Proof.
  induction s1 as [| c s1 IH]; simpl; [reflexivity | now rewrite IH].
Qed.

Lemma length_repeat_char (c : ascii) (n : nat) : String.length (repeat_char c n) = n.
Proof.
  induction n as [| n IH]; simpl; [reflexivity | now rewrite IH].
Qed.

Lemma padStart0_short (width : nat) (s : string) :
  (String.length s <= width)%nat ->
  padStart0 width s = repeat_char zero_char (width - String.length s) ++ s
  /\ String.length (padStart0 width s) = width.
Proof.
  intros H. unfold padStart0. split; [reflexivity |].
  rewrite length_append, length_repeat_char. lia.
Qed.

Lemma padStart0_long (width : nat) (s : string) :
  (width <= String.length s)%nat -> padStart0 width s = s.
Proof.
  intros H. unfold padStart0.
  replace (width - String.length s)%nat with 0%nat by lia. reflexivity.
Qed.

Lemma all_chars_append (p : ascii -> bool) (s1 s2 : string) :
  all_chars p (s1 ++ s2) = (all_chars p s1 && all_chars p s2)%bool.
Proof.
  induction s1 as [| c s1 IH]; simpl; [reflexivity |].
  now rewrite IH, andb_assoc.
Qed.

Lemma all_chars_repeat (p : ascii -> bool) (c : ascii) (n : nat) :
  p c = true -> all_chars p (repeat_char c n) = true.
Proof.
  intros H. induction n as [| n IH]; simpl; [reflexivity | now rewrite H, IH].
Qed.

(** ** Hexadecimal rendering of register words *)

Lemma hex_val_hex_digit (d : Z) : 0 <= d < 16 -> hex_val (hex_digit d) = Some d.
Proof.
  intros H.
  destruct d as [| p | p]; [reflexivity | | lia].
  do 4 (destruct p as [p | p |]; try lia; try reflexivity).
Qed.

Lemma hex_value_shift (s : string) (acc : Z) :
  all_chars is_hex_digit s = true ->
  hex_value s acc = acc * 16 ^ Z.of_nat (String.length s) + hex_value s 0.
Proof.
  revert acc. induction s as [| c s IH]; intros acc H.
  - simpl. lia.
  - simpl in H. apply andb_true_iff in H as [Hc Hs].
    unfold is_hex_digit in Hc. cbn [hex_value String.length].
    destruct (hex_val c) as [d |]; [| discriminate].
    rewrite (IH (16 * acc + d) Hs), (IH (16 * 0 + d) Hs).
    rewrite Nat2Z.inj_succ, Z.pow_succ_r by lia. ring.
Qed.

Lemma to_hex_aux_length (fuel : nat) :
  forall (n : Z) (acc : string) (k : nat),
    0 <= n < 16 ^ Z.of_nat k -> (1 <= k)%nat ->
    (String.length (to_hex_aux fuel n acc) <= String.length acc + k)%nat.
Proof.
  induction fuel as [| fuel IH]; intros n acc k Hn Hk; simpl; [lia |].
  destruct (Z.eqb_spec (n / 16) 0) as [E | E]; simpl; [lia |].
  destruct k as [| k]; [lia |].
  assert (Hq : 0 <= n / 16 < 16 ^ Z.of_nat k).
  { rewrite Nat2Z.inj_succ, Z.pow_succ_r in Hn by lia.
    split; [apply Z.div_pos; lia | apply Z.div_lt_upper_bound; lia]. }
  assert (Hk' : (1 <= k)%nat).
  { destruct k; [| lia]. simpl in Hq. lia. }
  specialize (IH (n / 16) (String (hex_digit (n mod 16)) acc) k Hq Hk').
  simpl in IH. lia.
Qed.

Lemma to_hex_aux_hex (fuel : nat) :
  forall (n : Z) (acc : string),
    0 <= n -> all_chars is_hex_digit acc = true ->
    all_chars is_hex_digit (to_hex_aux fuel n acc) = true.
Proof.
  induction fuel as [| fuel IH]; intros n acc Hn Hacc; simpl; [exact Hacc |].
  assert (Hd : all_chars is_hex_digit (String (hex_digit (n mod 16)) acc) = true).
  { simpl. rewrite Hacc. unfold is_hex_digit.
    rewrite hex_val_hex_digit; [reflexivity | apply Z.mod_pos_bound; lia]. }
  destruct (n / 16 =? 0); [exact Hd |].
  apply IH; [apply Z.div_pos; lia | exact Hd].
Qed.

Lemma to_hex_aux_value (fuel : nat) :
  forall (n : Z) (acc : string),
    0 <= n < 16 ^ Z.of_nat fuel -> all_chars is_hex_digit acc = true ->
    hex_value (to_hex_aux fuel n acc) 0
    = n * 16 ^ Z.of_nat (String.length acc) + hex_value acc 0.
Proof.
  induction fuel as [| fuel IH]; intros n acc Hn Hacc.
  - simpl in *. assert (n = 0) by lia. subst n. lia.
  - cbn [to_hex_aux].
    assert (Hm : 0 <= n mod 16 < 16) by (apply Z.mod_pos_bound; lia).
    assert (Hd : all_chars is_hex_digit (String (hex_digit (n mod 16)) acc) = true).
    { simpl. rewrite Hacc. unfold is_hex_digit. now rewrite hex_val_hex_digit. }
    assert (Hv : hex_value (String (hex_digit (n mod 16)) acc) 0
                 = (n mod 16) * 16 ^ Z.of_nat (String.length acc) + hex_value acc 0).
    { cbn [hex_value]. rewrite hex_val_hex_digit by exact Hm.
      rewrite hex_value_shift by exact Hacc.
      replace (16 * 0 + n mod 16) with (n mod 16) by lia. reflexivity. }
    pose proof (Z.div_mod n 16 ltac:(lia)) as Hdm.
    destruct (Z.eqb_spec (n / 16) 0) as [E | E].
    + rewrite Hv. replace (n mod 16) with n by lia. reflexivity.
    + rewrite IH; [| | exact Hd].
      * rewrite Hv. cbn [String.length]. rewrite Nat2Z.inj_succ, Z.pow_succ_r by lia.
        set (P := 16 ^ Z.of_nat (String.length acc)). nia.
      * rewrite Nat2Z.inj_succ, Z.pow_succ_r in Hn by lia.
        split; [apply Z.div_pos; lia | apply Z.div_lt_upper_bound; lia].
Qed.

(** The rendering of a natural number below [16^4]: at most four
    hexadecimal digits whose value is the number. *)
Lemma toString16_word (n : Z) :
  0 <= n < 65536 ->
  (String.length (toString16 n) <= 4)%nat
  /\ all_chars is_hex_digit (toString16 n) = true
  /\ hex_value (toString16 n) 0 = n.
Proof.
  intros Hn. unfold toString16.
  destruct (Z.ltb_spec n 0) as [Hneg | _]; [lia |].
  split; [| split].
  - apply (to_hex_aux_length _ n EmptyString 4%nat); [simpl; lia | lia].
  - apply to_hex_aux_hex; [lia | reflexivity].
  - rewrite to_hex_aux_value; [simpl; lia | | reflexivity].
    split; [lia |].
    destruct (Z.eq_dec n 0) as [-> | Hnz]; [simpl; lia |].
    rewrite Nat2Z.inj_succ, Z2Nat.id by (apply Z.log2_nonneg).
    pose proof (Z.log2_spec n ltac:(lia)) as [_ Hlt].
    apply Z.lt_le_trans with (1 := Hlt).
    apply Z.pow_le_mono_l. lia.
Qed.

Lemma hex_value_zeros (n : nat) (s : string) :
  hex_value (repeat_char zero_char n ++ s) 0 = hex_value s 0.
Proof.
  induction n as [| n IH]; [reflexivity | exact IH].
Qed.

(** Every 16-bit word is rendered as exactly four hexadecimal digits, whose
    value is the word, or the word plus [0x10000] when it is negative. *)
Lemma hexWord_spec (v : Z) :
  is_word16 v ->
  String.length (hexWord v) = 4%nat
  /\ all_chars is_hex_digit (hexWord v) = true
  /\ hex_value (hexWord v) 0 = (if v <? 0 then 65536 + v else v).
Proof.
  intros Hv. unfold is_word16 in Hv. unfold hexWord.
  set (n := if v <? 0 then 65536 + v else v).
  assert (Hn : 0 <= n < 65536).
  { subst n. destruct (Z.ltb_spec v 0); lia. }
  destruct (toString16_word n Hn) as (Hlen & Hhex & Hval).
  split; [| split].
  - now apply padStart0_short.
  - unfold padStart0. rewrite all_chars_append, Hhex.
    now rewrite all_chars_repeat.
  - unfold padStart0. now rewrite hex_value_zeros.
Qed.

Example hexWord_minus_one : hexWord (-1) = "ffff".
Proof. reflexivity. Qed.

Example hexWord_zero : hexWord 0 = "0000".
Proof. reflexivity. Qed.

(** ** The padding law *)

Lemma str_length_lt (s : string) (n : nat) :
  (str_length s <? Z.of_nat n) = (String.length s <? n)%nat.
Proof.
  unfold str_length.
  destruct (Z.ltb_spec (Z.of_nat (String.length s)) (Z.of_nat n));
    destruct (Nat.ltb_spec (String.length s) n); lia || reflexivity.
Qed.

Lemma includes_In (l : list string) (s : string) : includes l s = true -> In s l.
Proof.
  induction l as [| x l IH]; simpl; [discriminate |].
  destruct (String.eqb_spec x s) as [-> | _]; [now left | right; now apply IH].
Qed.

(** The three lists of the padding statements are disjoint: a codec that
    requires a width is in exactly one of them. *)
Lemma required_width_cases (codec : string) (N : nat) :
  required_width codec = Some N ->
  includes ["uint64"] codec = Nat.eqb N 16
  /\ includes ["uint32"; "int32"; "float32"] codec = Nat.eqb N 8
  /\ includes ["uint16"; "int16"; "boolean"] codec = Nat.eqb N 4.
Proof.
  unfold required_width.
  destruct (includes ["uint16"; "int16"; "boolean"] codec) eqn:E16.
  { intros [= <-]. apply includes_In in E16.
    destruct E16 as [<- | [<- | [<- | []]]]; repeat split; reflexivity. }
  destruct (includes ["uint32"; "int32"; "float32"] codec) eqn:E32.
  { intros [= <-]. apply includes_In in E32.
    destruct E32 as [<- | [<- | [<- | []]]]; repeat split; reflexivity. }
  destruct (includes ["uint64"] codec) eqn:E64; [| discriminate].
  intros [= <-]. repeat split; reflexivity.
Qed.

Lemma required_width_values (codec : string) (N : nat) :
  required_width codec = Some N -> N = 4%nat \/ N = 8%nat \/ N = 16%nat.
Proof.
  unfold required_width.
  destruct (includes ["uint16"; "int16"; "boolean"] codec); [intros [= <-]; auto |].
  destruct (includes ["uint32"; "int32"; "float32"] codec); [intros [= <-]; auto |].
  destruct (includes ["uint64"] codec); [intros [= <-]; auto | discriminate].
Qed.

(** The three padding statements, for a codec that requires [N]
    hexadecimal characters: a string shorter than [N] becomes the string of
    exactly [N] characters that has zeros in front of it, and a string of
    [N] characters or more is left unchanged. *)
Lemma padForCodec_pads_or_keeps (codec combinedHex : string) (N : nat) :
  required_width codec = Some N ->
  ((String.length combinedHex < N)%nat ->
     padForCodec codec combinedHex
       = repeat_char zero_char (N - String.length combinedHex) ++ combinedHex
     /\ String.length (padForCodec codec combinedHex) = N)
  /\ ((N <= String.length combinedHex)%nat ->
        padForCodec codec combinedHex = combinedHex).
Proof.
  intros Hw.
  destruct (required_width_cases codec N Hw) as (H64 & H32 & H16).
  unfold padForCodec. rewrite H64, H32, H16.
  change 16 with (Z.of_nat 16). change 8 with (Z.of_nat 8). change 4 with (Z.of_nat 4).
  rewrite !str_length_lt.
  destruct (required_width_values codec N Hw) as [-> | [-> | ->]];
    cbn [Nat.eqb andb]; split; intros Hlen.
  - apply Nat.ltb_lt in Hlen as Hb. rewrite Hb.
    now apply padStart0_short, Nat.lt_le_incl.
  - apply Nat.ltb_ge in Hlen as Hb. now rewrite Hb.
  - apply Nat.ltb_lt in Hlen as Hb. rewrite Hb.
    now apply padStart0_short, Nat.lt_le_incl.
  - apply Nat.ltb_ge in Hlen as Hb. now rewrite Hb.
  - apply Nat.ltb_lt in Hlen as Hb. rewrite Hb.
    now apply padStart0_short, Nat.lt_le_incl.
  - apply Nat.ltb_ge in Hlen as Hb. now rewrite Hb.
Qed.

(** ** The decoder *)

(** C8: whatever the hex string, its length and its content, decoding with
    the int64 codec yields the diagnostic "Int64 decoding not implemented",
    never a number; this holds for each copy of [decodeValue]. *)
Theorem int64_is_not_implemented :
  forall (notEnough : string -> string) (hex : string),
    decodeValueWith notEnough hex "int64" = Ok (VStr "Int64 decoding not implemented")
    /\ decodeValue hex "int64" = Ok (VStr "Int64 decoding not implemented")
    /\ decodeValue hex (normalizeCodec "i64") = Ok (VStr "Int64 decoding not implemented").
Proof.
  intros notEnough hex. repeat split.
Qed.

Lemma hex_digit_not_space (c : ascii) : is_hex_digit c = true -> is_space c = false.
Proof.
  destruct c as [[] [] [] [] [] [] [] []]; vm_compute; intros H;
    first [reflexivity | discriminate H].
Qed.

Lemma trimEnd_no_space (s : string) :
  all_chars (fun c => negb (is_space c)) s = true -> trimEnd s = s.
Proof.
  induction s as [| c s IH]; [reflexivity |].
  cbn [all_chars trimEnd]. intros H. apply andb_true_iff in H as [Hc Hs].
  rewrite (IH Hs). apply negb_true_iff in Hc. rewrite Hc.
  destruct s; reflexivity.
Qed.

Lemma all_chars_impl (p q : ascii -> bool) (s : string) :
  (forall c, p c = true -> q c = true) ->
  all_chars p s = true -> all_chars q s = true.
Proof.
  intros Hpq. induction s as [| c s IH]; [reflexivity |].
  cbn [all_chars]. intros H. apply andb_true_iff in H as [Hc Hs].
  now rewrite (Hpq c Hc), (IH Hs).
Qed.

Lemma BigInt_0x_hex_digits (hex : string) :
  all_chars is_hex_digit hex = true -> hex <> EmptyString ->
  BigInt_0x hex = Ok (hex_value hex 0).
Proof.
  intros Hhex Hne. unfold BigInt_0x.
  rewrite trimEnd_no_space.
  - rewrite Hhex. destruct hex; [contradiction | reflexivity].
  - apply all_chars_impl with (2 := Hhex).
    intros c Hc. now rewrite (hex_digit_not_space c Hc).
Qed.

(** Every codec but uint64 decodes every string without raising. *)
Lemma decodeValueWith_total_but_uint64 (notEnough : string -> string) (hex codec : string) :
  codec <> "uint64" -> exists v, decodeValueWith notEnough hex codec = Ok v.
Proof.
  intros Hc. unfold decodeValueWith.
  repeat match goal with
         | |- context [if (codec =? ?name)%string then _ else _] =>
             destruct (String.eqb_spec codec name) as [-> | ?]
         end;
    try contradiction;
    repeat match goal with
           | |- context [if ?n <=? ?m then _ else _] => destruct (n <=? m)
           end;
    eauto.
Qed.

Lemma decodeValueWith_total_on_hex (notEnough : string -> string) (hex codec : string) :
  all_chars is_hex_digit hex = true ->
  exists v, decodeValueWith notEnough hex codec = Ok v.
Proof.
  intros Hhex.
  destruct (string_dec codec "uint64") as [-> | Hc];
    [| now apply decodeValueWith_total_but_uint64].
  unfold decodeValueWith. cbn [String.eqb Ascii.eqb Bool.eqb].
  destruct (Z.leb_spec 8 (buffer_length (Buffer_from_hex hex))) as [Hlen | _]; [| eauto].
  rewrite BigInt_0x_hex_digits; [eauto | exact Hhex |].
  intros ->. cbn in Hlen. lia.
Qed.

(** C10, as stated, fails: on a string with characters that are no
    hexadecimal digits after sixteen that are, the uint64 codec raises the
    SyntaxError of [BigInt]. *)
Lemma decodeValue_raises_on_uint64 :
  decodeValue "0000000000000000zz" "uint64"
  = Throw (BigIntSyntaxError "0x0000000000000000zz").
Proof. reflexivity. Qed.

(** C10 (amended): [decodeValue] is a function of its two inputs alone (equal
    inputs give equal results, and no state is read or written); for every
    string of hexadecimal digits, of odd length and empty ones included, and
    every codec name it returns a value or a diagnostic without raising; for
    a string with other characters it returns without raising for every
    codec name but uint64. *)
Theorem decodeValue_total_on_hex_strings :
  (forall hex codec hex' codec',
      hex = hex' -> codec = codec' -> decodeValue hex codec = decodeValue hex' codec')
  /\ (forall hex codec,
        all_chars is_hex_digit hex = true -> exists v, decodeValue hex codec = Ok v)
  /\ (forall hex codec,
        codec <> "uint64" -> exists v, decodeValue hex codec = Ok v).
Proof.
  split; [| split].
  - now intros hex codec hex' codec' -> ->.
  - intros hex codec. apply decodeValueWith_total_on_hex.
  - intros hex codec. apply decodeValueWith_total_but_uint64.
Qed.

Lemma decodeValue_total_on_hex_strings_witness :
  all_chars is_hex_digit "00000000000000ff7" = true
  /\ (exists v, decodeValue "00000000000000ff7" "uint64" = Ok v)
  /\ "ascii" <> "uint64"
  /\ (exists v, decodeValue "zz41" "ascii" = Ok v).
Proof.
  destruct decodeValue_total_on_hex_strings as (_ & Hhex & Hother).
  split; [reflexivity |].
  split; [apply Hhex; reflexivity |].
  split; [discriminate |].
  apply Hother; discriminate.
Defined.

(** ** The TTID poller *)

Lemma quoted_row_is_success (r : Row) (combinedHex : string) :
  CombinedHex r = VStr (quoted_upper combinedHex) ->
  xorb (is_success_row r) (is_error_row r) = true.
Proof.
  intros H. unfold is_success_row, is_error_row, quoted_upper in *. rewrite H.
  destruct (DecodedValue r) as [| | s | n | p e]; try reflexivity.
  destruct s; reflexivity.
Qed.

Section PollerProperties.

Context {conn : Type}.
Variable readHoldingRegisters :
  conn -> forall (unit address size : number), conn * result (list Z).
Variable Number_of_TTID : string -> number.


Implicit Types (c : client conn) (field : FieldSpec) (words : list Z).

(** The three ways a field is served. *)
Lemma pollField_invalid deviceType site ttidNum unitId field c :
  invalid_spec field = true ->
  pollField readHoldingRegisters deviceType site ttidNum unitId field c
  = (c, {| TTID := VNum ttidNum; Site := VStr site; UnitID := VNum unitId;
           ID := VStr (field_ID field);
           StartingAddress := VNum (field_BaseReg field);
           Size := VNum (field_Size field);
           CombinedHex := VStr "Invalid field spec";
           DecodedValue := VStr EmptyString |}).
Proof.
  unfold invalid_spec, pollField. now intros ->.
Qed.

Lemma pollField_read_fails deviceType site ttidNum unitId field c c' err :
  invalid_spec field = false ->
  client_read readHoldingRegisters (setID unitId c)
    (computeStartingAddressForType deviceType ttidNum unitId (field_BaseReg field))
    (field_Size field) = (c', Throw err) ->
  pollField readHoldingRegisters deviceType site ttidNum unitId field c
  = (c', {| TTID := VNum ttidNum; Site := VStr site; UnitID := VNum unitId;
            ID := VStr (field_ID field);
            StartingAddress :=
              VNum (computeStartingAddressForType deviceType ttidNum unitId
                      (field_BaseReg field));
            Size := VNum (field_Size field);
            CombinedHex := VErrText "Error: " err;
            DecodedValue := VStr EmptyString |}).
Proof.
  unfold invalid_spec, pollField. intros -> Hread.
  cbv zeta. now rewrite Hread.
Qed.

Lemma pollField_read_succeeds deviceType site ttidNum unitId field c c' words :
  invalid_spec field = false ->
  client_read readHoldingRegisters (setID unitId c)
    (computeStartingAddressForType deviceType ttidNum unitId (field_BaseReg field))
    (field_Size field) = (c', Ok words) ->
  let combinedHex :=
    padForCodec (normalizeCodec (field_Codec field))
      (or_else (strip_leading_zeros (join (map hexWord words))) "00") in
  pollField readHoldingRegisters deviceType site ttidNum unitId field c
  = (c', {| TTID := VNum ttidNum; Site := VStr site; UnitID := VNum unitId;
            ID := VStr (field_ID field);
            StartingAddress :=
              VNum (computeStartingAddressForType deviceType ttidNum unitId
                      (field_BaseReg field));
            Size := VNum (field_Size field);
            CombinedHex := VStr (quoted_upper combinedHex);
            DecodedValue :=
              match decodeValue combinedHex (normalizeCodec (field_Codec field)) with
              | Ok VNull =>
                  match field_Codec field with
                  | EmptyString => VNull
                  | _ => VStr (unknown_codec_text (field_Codec field))
                  end
              | Ok v => v
              | Throw err => VErrText "Decode error: " err
              end |}).
Proof.
  unfold invalid_spec, pollField. intros -> Hread.
  cbv zeta. now rewrite Hread.
Qed.

(** A field yields one row, about this identifier and this field, that is
    a success row or an error row. *)
Lemma pollField_row deviceType site ttidNum unitId field c :
  let row := snd (pollField readHoldingRegisters deviceType site ttidNum unitId field c) in
  row_key row = (VNum ttidNum, VStr (field_ID field))
  /\ xorb (is_success_row row) (is_error_row row) = true.
Proof.
  destruct (invalid_spec field) eqn:Hspec.
  - rewrite pollField_invalid by exact Hspec. split; reflexivity.
  - destruct (client_read readHoldingRegisters (setID unitId c)
                (computeStartingAddressForType deviceType ttidNum unitId
                   (field_BaseReg field)) (field_Size field)) as [c' [words | err]] eqn:Hread.
    + rewrite (pollField_read_succeeds _ _ _ _ _ _ _ _ Hspec Hread).
      split; [reflexivity |].
      eapply quoted_row_is_success. reflexivity.
    + rewrite (pollField_read_fails _ _ _ _ _ _ _ _ Hspec Hread).
      split; reflexivity.
Qed.

(** The loop over the field specification appends one row per field, in
    the order of the fields, whatever rows it starts with. *)
Lemma pollFields_rows deviceType site ttidNum unitId fieldSpec :
  forall c, exists c' rows,
    (forall allResults,
        pollFields readHoldingRegisters deviceType site ttidNum unitId fieldSpec (c, allResults)
        = (c', (allResults ++ rows)%list))
    /\ map row_key rows
       = map (fun field => (VNum ttidNum, VStr (field_ID field))) fieldSpec
    /\ Forall tagged rows.
Proof.
  induction fieldSpec as [| field rest IH]; intros c.
  - exists c, []. split; [| split; [reflexivity | constructor]].
    intros allResults. unfold pollFields. simpl. now rewrite app_nil_r.
  - pose proof (pollField_row deviceType site ttidNum unitId field c) as Hrow.
    destruct (pollField readHoldingRegisters deviceType site ttidNum unitId field c) as [c1 row] eqn:E.
    cbn [snd] in Hrow. destruct Hrow as [Hkey Htag].
    destruct (IH c1) as (c' & rows & Hfold & Hkeys & Htags).
    exists c', (row :: rows). split; [| split].
    + intros allResults. unfold pollFields in *.
      cbn [fold_left fst snd]. rewrite E, (Hfold (push allResults row)).
      unfold push. now rewrite <- app_assoc.
    + cbn [map]. now rewrite Hkey, Hkeys.
    + now constructor.
Qed.

(** The body of the loop over the identifiers appends the rows of its
    identifier: the one row of an identifier that is not numeric or has no
    unit, or the rows of its fields. *)
Lemma pollTTID_rows deviceType site fieldSpec rawTTID :
  forall c, exists c' rows,
    (forall allResults,
        pollTTID readHoldingRegisters Number_of_TTID deviceType site fieldSpec rawTTID (c, allResults)
        = (c', (allResults ++ rows)%list))
    /\ map row_key rows = expected_keys Number_of_TTID deviceType fieldSpec rawTTID
    /\ Forall tagged rows.
Proof.
  intros c. unfold pollTTID, expected_keys.
  destruct (Number_isFinite (Number_of_TTID rawTTID)); cbn [negb].
  - destruct (computeUnitId deviceType (Number_of_TTID rawTTID)) as [unitId | err].
    + apply pollFields_rows.
    + exists c, [identifierRow rawTTID site (VErrText "Error: " err)].
      split; [reflexivity | split; [reflexivity |]].
      constructor; [reflexivity | constructor].
  - exists c, [identifierRow rawTTID site (VStr "Invalid TTID")].
    split; [reflexivity | split; [reflexivity |]].
    constructor; [reflexivity | constructor].
Qed.

Lemma pollTTIDs_rows deviceType site fieldSpec ttids :
  forall c, exists c' rows,
    (forall allResults,
        pollTTIDs readHoldingRegisters Number_of_TTID deviceType site fieldSpec ttids (c, allResults)
        = (c', (allResults ++ rows)%list))
    /\ map row_key rows
       = flat_map (expected_keys Number_of_TTID deviceType fieldSpec) ttids
    /\ Forall tagged rows.
Proof.
  induction ttids as [| rawTTID rest IH]; intros c.
  - exists c, []. split; [| split; [reflexivity | constructor]].
    intros allResults. unfold pollTTIDs. simpl. now rewrite app_nil_r.
  - destruct (pollTTID_rows deviceType site fieldSpec rawTTID c)
      as (c1 & rows1 & Hstep & Hkeys1 & Htags1).
    destruct (IH c1) as (c' & rows & Hfold & Hkeys & Htags).
    exists c', (rows1 ++ rows)%list. split; [| split].
    + intros allResults. unfold pollTTIDs in *.
      cbn [fold_left]. rewrite Hstep, Hfold, <- app_assoc. reflexivity.
    + cbn [flat_map]. now rewrite map_app, Hkeys1, Hkeys.
    + apply Forall_app. now split.
Qed.

(** C2: for every sequence of identifiers and every sequence of field
    specs, whatever the reads and the decodings do, the rows of the poller
    are those of the identifiers in input order and, within an identifier,
    those of the fields in declaration order, one row per field (or the one
    row of an identifier that is not numeric or has no unit); each row is a
    success row or an error row, not both; rows are appended only: the rows the loop starts
    with stay in front, untouched, and the rows of every prefix of the
    identifiers are a prefix of the rows of the run. *)
Theorem rows_follow_identifier_and_field_order
    deviceType site fieldSpec ttids c :
  let rows :=
    readModbusBatch_rows readHoldingRegisters Number_of_TTID
      deviceType site fieldSpec ttids c in
  map row_key rows = flat_map (expected_keys Number_of_TTID deviceType fieldSpec) ttids
  /\ Forall (fun r => xorb (is_success_row r) (is_error_row r) = true) rows
  /\ (forall allResults,
         snd (pollTTIDs readHoldingRegisters Number_of_TTID deviceType site fieldSpec ttids (c, allResults))
         = (allResults ++ rows)%list)
  /\ (forall n, exists later,
         rows = (readModbusBatch_rows readHoldingRegisters Number_of_TTID
                   deviceType site fieldSpec (firstn n ttids) c ++ later)%list).
Proof.
  intros rows. subst rows. unfold readModbusBatch_rows.
  destruct (pollTTIDs_rows deviceType site fieldSpec ttids c)
    as (c' & rows & Hfold & Hkeys & Htags).
  rewrite (Hfold []). cbn [snd app].
  split; [exact Hkeys | split; [exact Htags | split]].
  - intros allResults. now rewrite Hfold.
  - intros n.
    destruct (pollTTIDs_rows deviceType site fieldSpec (firstn n ttids) c)
      as (c1 & rows1 & Hfold1 & _ & _).
    destruct (pollTTIDs_rows deviceType site fieldSpec (skipn n ttids) c1)
      as (c2 & rows2 & Hfold2 & _ & _).
    exists rows2. rewrite (Hfold1 []). cbn [snd app].
    pose proof (Hfold []) as Hall.
    rewrite <- (firstn_skipn n ttids) in Hall at 1.
    unfold pollTTIDs in *.
    rewrite fold_left_app, (Hfold1 []), Hfold2 in Hall.
    cbn [app] in Hall. now injection Hall as _ <-.
Qed.

(** *** Invalid field specifications *)

(** In the TTID poller a field specification whose register count is at
    most 0, or whose base register is not finite, is answered by an
    "Invalid field spec" row about this identifier and this field; the
    client is left as it is, so no read is issued, and the loop goes on
    with the fields that follow. *)
Lemma invalid_field_spec_is_rejected
    deviceType site ttidNum unitId field rest c allResults :
  nle (field_Size field) (num_of_Z 0) = true
  \/ Number_isFinite (field_BaseReg field) = false ->
  exists row,
    pollField readHoldingRegisters deviceType site ttidNum unitId field c = (c, row)
    /\ CombinedHex row = VStr "Invalid field spec"
    /\ row_key row = (VNum ttidNum, VStr (field_ID field))
    /\ pollFields readHoldingRegisters deviceType site ttidNum unitId (field :: rest) (c, allResults)
       = pollFields readHoldingRegisters deviceType site ttidNum unitId rest (c, (allResults ++ [row])%list).
Proof.
  intros Hbad.
  assert (Hspec : invalid_spec field = true).
  { unfold invalid_spec. destruct Hbad as [-> | ->].
    - now rewrite orb_true_r.
    - reflexivity. }
  eexists. split; [now apply pollField_invalid |].
  split; [reflexivity | split; [reflexivity |]].
  unfold pollFields. cbn [fold_left fst snd].
  now rewrite pollField_invalid by exact Hspec.
Qed.

(** *** Unknown codecs *)

Lemma decodeValue_unknown_codec notEnough hex codec :
  includes canonical_codecs codec = false ->
  decodeValueWith notEnough hex codec = Ok VNull.
Proof.
  unfold canonical_codecs, includes. intros H.
  repeat (apply orb_false_iff in H as [?E H]).
  unfold decodeValueWith.
  repeat match goal with
         | E : (?name =? codec)%string = false |- _ =>
             rewrite (String.eqb_sym name codec) in E; rewrite E; clear E
         end.
  reflexivity.
Qed.

(** In the TTID poller the row of a field that was read, whose codec
    string is not empty and normalizes to no canonical codec, carries the
    text [Unknown codec "..."] around the codec string as it was given. *)
Lemma unknown_codec_is_reported
    deviceType site ttidNum unitId field c c' words :
  invalid_spec field = false ->
  client_read readHoldingRegisters (setID unitId c)
    (computeStartingAddressForType deviceType ttidNum unitId (field_BaseReg field))
    (field_Size field) = (c', Ok words) ->
  field_Codec field <> EmptyString ->
  includes canonical_codecs (normalizeCodec (field_Codec field)) = false ->
  DecodedValue (snd (pollField readHoldingRegisters deviceType site ttidNum unitId field c))
  = VStr (unknown_codec_text (field_Codec field)).
Proof.
  intros Hspec Hread Hraw Hunknown.
  rewrite (pollField_read_succeeds _ _ _ _ _ _ _ _ Hspec Hread).
  cbn [snd DecodedValue].
  unfold decodeValue. rewrite decodeValue_unknown_codec by exact Hunknown.
  destruct (field_Codec field); [contradiction | reflexivity].
Qed.

(** *** The position pollers *)

Lemma positionField_read_succeeds site unitId posBase entry c c' words v :
  let rangeStart := nadd (nmul posBase (num_of_Z 512)) (field_BaseReg entry) in
  let combinedHex :=
    padForCodec (normalizeCodec (field_Codec entry)) (join (map hexWord words)) in
  client_read readHoldingRegisters c rangeStart (field_Size entry) = (c', Ok words) ->
  decodeValue combinedHex (normalizeCodec (field_Codec entry)) = Ok v ->
  positionField readHoldingRegisters site unitId posBase entry c
  = (c', {| TTID := VUndefined; Site := VStr site; UnitID := VNum unitId;
            ID := VStr (field_ID entry); StartingAddress := VNum rangeStart;
            Size := VNum (field_Size entry);
            CombinedHex := VStr (quoted_upper combinedHex);
            DecodedValue := v |}).
Proof.
  intros rangeStart combinedHex Hread Hdecode.
  unfold positionField. fold rangeStart. rewrite Hread.
  fold combinedHex. now rewrite Hdecode.
Qed.

(** *** The combined hex string *)

(** In the position poller the padding is applied to the concatenation of
    the words: under a codec that requires [N] characters the string that
    reaches the decoder, and the row, is the concatenation with zeros in
    front when it is shorter than [N], and the concatenation itself when it
    has [N] characters or more. *)
Lemma position_poller_pads_the_concatenation
    site unitId posBase entry (c c' : client conn) words v N :
  let concatenation := join (map hexWord words) in
  let combinedHex :=
    if (String.length concatenation <? N)%nat
    then repeat_char zero_char (N - String.length concatenation) ++ concatenation
    else concatenation in
  required_width (normalizeCodec (field_Codec entry)) = Some N ->
  client_read readHoldingRegisters c
    (nadd (nmul posBase (num_of_Z 512)) (field_BaseReg entry)) (field_Size entry)
  = (c', Ok words) ->
  decodeValue combinedHex (normalizeCodec (field_Codec entry)) = Ok v ->
  let row := snd (positionField readHoldingRegisters site unitId posBase entry c) in
  CombinedHex row = VStr (quoted_upper combinedHex) /\ DecodedValue row = v.
Proof.
  intros concatenation combinedHex Hw Hread Hdecode.
  assert (Hpad : padForCodec (normalizeCodec (field_Codec entry)) concatenation
                 = combinedHex).
  { destruct (padForCodec_pads_or_keeps _ concatenation N Hw) as [Hshort Hlong].
    subst combinedHex. destruct (Nat.ltb_spec (String.length concatenation) N) as [L | L].
    - now destruct (Hshort L).
    - now apply Hlong. }
  rewrite <- Hpad in Hdecode.
  rewrite (positionField_read_succeeds _ _ _ _ _ _ _ _ Hread Hdecode).
  cbn [snd CombinedHex DecodedValue]. fold concatenation. now rewrite Hpad.
Qed.

End PollerProperties.

(** The end-to-end scenario of the specification: row 101, a float32 field
    of two registers at base 0, the words [0x4048] and [0xf5c3]. *)
Example float32_scenario :
  pollField (answering [16456; 62915]) "row" "10.0.0.5" (num_of_Z 101) (num_of_Z 2)
    {| field_ID := "Angle"; field_BaseReg := num_of_Z 0; field_Size := num_of_Z 2;
       field_Codec := "float32" |} fresh_client
  = ({| unitID := num_of_Z 2; link := tt;
        reads := [(num_of_Z 2, num_of_Z 0, num_of_Z 2)] |},
     {| TTID := VNum (num_of_Z 101); Site := VStr "10.0.0.5"; UnitID := VNum (num_of_Z 2);
        ID := VStr "Angle"; StartingAddress := VNum (num_of_Z 0);
        Size := VNum (num_of_Z 2); CombinedHex := VStr "'4048F5C3";
        DecodedValue := VNum (Num (13170115 # 4194304)) |}).
Proof. reflexivity. Qed.

Example rows_of_a_small_run :
  map row_key
    (readModbusBatch_rows (refusing "Timed out") Number_of_digits "row" "10.0.0.5"
       [two_register_hex_field; widget_field] ["7"; "x"; "0"; "8"] fresh_client)
  = [ (VNum (num_of_Z 7), VStr "Serial"); (VNum (num_of_Z 7), VStr "Vendor");
      (VStr "x", VStr EmptyString); (VStr "0", VStr EmptyString);
      (VNum (num_of_Z 8), VStr "Serial"); (VNum (num_of_Z 8), VStr "Vendor") ].
Proof. reflexivity. Qed.

(** ** The position pollers against the TTID poller *)

(** C3 at inputs where the TTID poller departs from it.  The words 0, 1 and
    -1 are rendered as [0000], [0001] and [ffff]; for the words 0 and 1 the
    rows of the position poller and of the legacy sorted generator carry the
    concatenation [00000001], but the row of the TTID poller carries [1],
    which the hex codec decodes to [0x1]: the leading zeros of the
    concatenation are removed before the padding.  For the text registers
    [0948] and [6921], a tab and [Hi!], the position poller decodes the text,
    while the TTID poller, one digit short, decodes three bytes that are no
    text. *)
Theorem TTID_poller_strips_the_combined_hex :
  map hexWord [0; 1; -1] = ["0000"; "0001"; "ffff"]
  /\ join (map hexWord [0; 1]) = "00000001"
  /\ (let row := snd (pollField (answering [0; 1]) "row" "10.0.0.5"
                        (num_of_Z 1) (num_of_Z 1) two_register_hex_field fresh_client) in
      CombinedHex row = VStr "'1" /\ DecodedValue row = VStr "0x1")
  /\ map (fun row => (CombinedHex row, DecodedValue row))
       (snd (positionFields (answering [0; 1]) "10.0.0.5" (num_of_Z 1) (num_of_Z 0)
               [two_register_hex_field] (setID (num_of_Z 1) fresh_client, [])))
     = [(VStr "'00000001", VStr "0x00000001")]
  /\ map (fun row => (CombinedHex row, DecodedValue row))
       (snd (sortedFields (answering [0; 1]) "10.0.0.5" (num_of_Z 1) (num_of_Z 0)
               [two_register_hex_field] (setID (num_of_Z 1) fresh_client, [])))
     = [(VStr "'00000001", VStr "0x00000001")]
  /\ (let row := snd (pollField (answering [2376; 26913]) "weather" "10.0.0.5"
                        (num_of_Z 1) (num_of_Z 101) text_field fresh_client) in
      CombinedHex row = VStr "'9486921"
      /\ DecodedValue row = VStr (replacement ++ replacement ++ replacement))
  /\ map (fun row => (CombinedHex row, DecodedValue row))
       (snd (positionFields (answering [2376; 26913]) "10.0.0.5" (num_of_Z 1) (num_of_Z 0)
               [text_field] (setID (num_of_Z 1) fresh_client, [])))
     = [(VStr "'09486921", VStr (String (char_of 9) "Hi!"))].
Proof.
  repeat split.
Qed.

(** C4 at an input where the TTID poller departs from it.  The codec uint32
    requires 8 characters; the four words 0, 0, 0 and 5 give the combined hex
    string [0000000000000005], which has 16.  The rows of the position
    poller and of the legacy sorted generator carry these 16 characters,
    which reached the decoder unchanged (its first four bytes are the number
    0); in the TTID poller the decoder receives the 8 characters [00000005],
    the number 5: the response has lost half its width. *)
Theorem TTID_poller_narrows_an_oversized_response :
  required_width (normalizeCodec (field_Codec four_register_uint32_field)) = Some 8%nat
  /\ join (map hexWord [0; 0; 0; 5]) = "0000000000000005"
  /\ (let row := snd (pollField (answering [0; 0; 0; 5]) "weather" "10.0.0.5"
                        (num_of_Z 1) (num_of_Z 101) four_register_uint32_field
                        fresh_client) in
      CombinedHex row = VStr "'00000005" /\ DecodedValue row = VNum (num_of_Z 5))
  /\ map (fun row => (CombinedHex row, DecodedValue row))
       (snd (positionFields (answering [0; 0; 0; 5]) "10.0.0.5" (num_of_Z 1) (num_of_Z 0)
               [four_register_uint32_field] (setID (num_of_Z 1) fresh_client, [])))
     = [(VStr "'0000000000000005", VNum (num_of_Z 0))]
  /\ map (fun row => (CombinedHex row, DecodedValue row))
       (snd (sortedFields (answering [0; 0; 0; 5]) "10.0.0.5" (num_of_Z 1) (num_of_Z 0)
               [four_register_uint32_field] (setID (num_of_Z 1) fresh_client, [])))
     = [(VStr "'0000000000000005", VNum (num_of_Z 0))].
Proof.
  repeat split.
Qed.


(** C6 at the inputs where the legacy sorted generator departs from it: a
    field specification with a register count of 0 is rejected by the TTID
    poller with an "Invalid field spec" row and no read, but the legacy
    sorted generator issues the read and reports what the transport
    answers; the same holds for one without a base register, which that
    generator skips without a row. *)
Theorem sorted_generator_does_not_reject_invalid_specs :
  invalid_spec empty_range_field = true
  /\ invalid_spec missing_base_field = true
  /\ (let st := pollFields (refusing "Illegal data value") "row" "10.0.0.5"
                  (num_of_Z 3) (num_of_Z 1) [empty_range_field] (fresh_client, []) in
      reads (fst st) = [] /\ map CombinedHex (snd st) = [VStr "Invalid field spec"])
  /\ (let st := sortedFields (refusing "Illegal data value") "10.0.0.5"
                  (num_of_Z 1) (num_of_Z 2) [empty_range_field]
                  (setID (num_of_Z 1) fresh_client, []) in
      reads (fst st) = [(num_of_Z 1, num_of_Z 1028, num_of_Z 0)]
      /\ map CombinedHex (snd st)
         = [VErrText "Error: " (TransportError "Illegal data value")])
  /\ snd (sortedFields (refusing "Illegal data value") "10.0.0.5"
            (num_of_Z 1) (num_of_Z 2) [missing_base_field]
            (setID (num_of_Z 1) fresh_client, [])) = [].
Proof.
  repeat split.
Qed.

(** C7 at the input where the position poller departs from it: for the
    codec string [widget] the TTID poller reports [Unknown codec "widget"],
    but the rows of the position poller and of the legacy sorted generator
    carry the bare [null] of the decoder. *)
Theorem position_pollers_leave_unknown_codec_null :
  includes canonical_codecs (normalizeCodec "widget") = false
  /\ DecodedValue (snd (pollField (answering [65]) "row" "10.0.0.5"
                          (num_of_Z 1) (num_of_Z 1) widget_field fresh_client))
     = VStr (unknown_codec_text "widget")
  /\ contains "widget" (unknown_codec_text "widget") = true
  /\ map DecodedValue
       (snd (positionFields (answering [65]) "10.0.0.5" (num_of_Z 1) (num_of_Z 0)
               [widget_field] (setID (num_of_Z 1) fresh_client, [])))
     = [VNull]
  /\ map DecodedValue
       (snd (sortedFields (answering [65]) "10.0.0.5" (num_of_Z 1) (num_of_Z 0)
               [widget_field] (setID (num_of_Z 1) fresh_client, [])))
     = [VNull].
Proof.
  repeat split.
Qed.

(** ** The mode-toggle client *)

Section ModeToggleProperties.

Context {world : Type}.
Variable fetchImpl : world -> string -> Flags -> world * fetch_outcome.

(** An exception of [postUpdate] leaves the loops of [setFlags] at once. *)
Lemma attemptLoop_first_request_raises attempts w w' flags e :
  postUpdate fetchImpl w flags
    "modbusService { enableModbusService enableModbusWrites enableModbusSorting enableLegacyMode }"
  = (w', Throw e) ->
  attemptLoop fetchImpl (S attempts) w flags = (w', Throw e).
Proof.
  intros Hpost. cbn [attemptLoop SELECTIONS selectionLoop]. now rewrite Hpost.
Qed.

(** A rejected request makes [setModbusMode] raise. *)
Lemma setModbusMode_propagates_rejection mode flags w w' e :
  MODE_MAP (toLowerCase mode) = Some flags ->
  fetchImpl w
    "modbusService { enableModbusService enableModbusWrites enableModbusSorting enableLegacyMode }"
    flags
  = (w', Rejects e) ->
  setModbusMode fetchImpl (Ok tt) mode w = (w', Throw e).
Proof.
  intros Hmode Hfetch. unfold setModbusMode, setFlags. rewrite Hmode.
  apply attemptLoop_first_request_raises.
  unfold postUpdate. now rewrite Hfetch.
Qed.

Lemma postUpdate_settles w flags selection :
  settles (snd (fetchImpl w selection flags)) ->
  exists w' r, postUpdate fetchImpl w flags selection = (w', Ok r).
Proof.
  unfold postUpdate, settles.
  destruct (fetchImpl w selection flags) as [w' [e | res]]; cbn [snd];
    [contradiction |].
  intros Hbody. destruct (body res) as [| | [errors |]] eqn:Eb; eauto.
  - destruct (res_ok res); cbn [negb]; eauto.
    now contradiction Hbody.
  - destruct (res_ok res); cbn [negb]; eauto.
  - destruct (res_ok res); cbn [negb]; eauto.
Qed.

Hypothesis every_request_settles :
  forall w selection flags, settles (snd (fetchImpl w selection flags)).

Lemma selectionLoop_settles selections :
  forall w flags, exists w' c,
    selectionLoop fetchImpl selections w flags = (w', c)
    /\ forall e, c <> Raises e.
Proof.
  induction selections as [| selection rest IH]; intros w flags.
  - eexists _, _. split; [reflexivity | discriminate].
  - cbn [selectionLoop].
    destruct (postUpdate_settles w flags selection (every_request_settles _ _ _))
      as (w1 & r & ->).
    destruct r as [| msg].
    + eexists _, _. split; [reflexivity | discriminate].
    + destruct (selection_too_ambitious msg); [apply IH |].
      destruct (inputs_not_supported msg); [| apply IH].
      destruct (scrubUnsupportedFlagsFromError flags msg) as [scrubbed [|]].
      * eexists _, _. split; [reflexivity | discriminate].
      * apply IH.
Qed.

Lemma attemptLoop_settles attempts :
  forall w flags, exists w' o, attemptLoop fetchImpl attempts w flags = (w', Ok o).
Proof.
  induction attempts as [| attempts IH]; intros w flags.
  - eexists _, _. reflexivity.
  - cbn [attemptLoop].
    destruct (selectionLoop_settles SELECTIONS w flags) as (w1 & c & -> & Hc).
    destruct c as [o | e | flags'].
    + eexists _, _. reflexivity.
    + now contradiction (Hc e).
    + destruct (no_keys flags'); [eexists _, _; reflexivity | apply IH].
Qed.

(** When [fetch] is there, no request is rejected and no accepted response
    has the body [null], [setModbusMode] resolves to an outcome object. *)
Lemma setModbusMode_resolves mode w :
  exists w' o, setModbusMode fetchImpl (Ok tt) mode w = (w', Ok o).
Proof.
  unfold setModbusMode, setFlags.
  destruct (MODE_MAP (toLowerCase mode)); [apply attemptLoop_settles |].
  eexists _, _. reflexivity.
Qed.

End ModeToggleProperties.

(** The mode-toggle scenario of the specification: the service rejects
    [enableModbusSorting] as an unknown field; the flag is removed, the
    selections start again, and the payload that is applied omits that flag
    only. *)
Example unknown_flag_is_dropped :
  setModbusMode without_sorting (Ok tt) "legacy-sorted" tt
  = (tt, Ok (Applied
               "modbusService { enableModbusService enableModbusWrites enableModbusSorting enableLegacyMode }"
               {| enableLegacyMode := Some true; enableModbusSorting := None |})).
Proof. reflexivity. Qed.

Example invalid_mode_is_skipped :
  exists reason, setModbusMode without_sorting (Ok tt) "sorted" tt
                 = (tt, Ok (Skipped reason None)).
Proof. eexists. reflexivity. Qed.

(** C5 at the failing input: when the transport rejects the request (the
    host is unreachable, or the timeout aborts the request), the exception
    leaves [postUpdate], [setFlags] and [setModbusMode]: the caller gets the
    exception, not an outcome object. *)
Theorem setModbusMode_raises_when_the_request_is_rejected :
  setModbusMode (unreachable "fetch failed") (Ok tt) "ttid" tt
  = (tt, Throw (TransportError "fetch failed")).
Proof. reflexivity. Qed.

(** * Further properties *)

(** ** Codec names *)

Lemma lower_char_idempotent (c : ascii) : lower_char (lower_char c) = lower_char c.
Proof.
  destruct c as [[] [] [] [] [] [] [] []]; reflexivity.
Qed.

Lemma lower_upper_char (c : ascii) : lower_char (upper_char c) = lower_char c.
Proof.
  destruct c as [[] [] [] [] [] [] [] []]; reflexivity.
Qed.

Lemma is_space_lower_char (c : ascii) : is_space (lower_char c) = is_space c.
Proof.
  destruct c as [[] [] [] [] [] [] [] []]; reflexivity.
Qed.

Lemma toLowerCase_idempotent (s : string) : toLowerCase (toLowerCase s) = toLowerCase s.
Proof.
  induction s as [| c s IH]; [reflexivity |].
  cbn [toLowerCase map_string]. f_equal; [apply lower_char_idempotent | exact IH].
Qed.

Lemma toLowerCase_toUpperCase (s : string) : toLowerCase (toUpperCase s) = toLowerCase s.
Proof.
  induction s as [| c s IH]; [reflexivity |].
  cbn [toLowerCase toUpperCase map_string]. f_equal; [apply lower_upper_char | exact IH].
Qed.

Lemma toLowerCase_remove_spaces (s : string) :
  toLowerCase (remove_spaces s) = remove_spaces (toLowerCase s).
Proof.
  induction s as [| c s IH]; [reflexivity |].
  cbn [toLowerCase remove_spaces filter_string map_string].
  rewrite is_space_lower_char.
  destruct (is_space c); cbn [negb]; [exact IH |].
  cbn [map_string]. f_equal. exact IH.
Qed.

Lemma remove_spaces_idempotent (s : string) :
  remove_spaces (remove_spaces s) = remove_spaces s.
Proof.
  induction s as [| c s IH]; [reflexivity |].
  cbn [remove_spaces filter_string].
  destruct (is_space c) eqn:E; cbn [negb]; [exact IH |].
  cbn [filter_string]. rewrite E. cbn [negb]. f_equal. exact IH.
Qed.

(** The key [normalizeCodec] looks up is clean: cleaning it again changes
    nothing. *)
Lemma clean_key_is_clean (s : string) :
  remove_spaces (toLowerCase (remove_spaces (toLowerCase s)))
  = remove_spaces (toLowerCase s).
Proof.
  now rewrite toLowerCase_remove_spaces, toLowerCase_idempotent,
    remove_spaces_idempotent.
Qed.

(** Every value of the alias table is a canonical codec that normalizes to
    itself. *)
Lemma alias_values_are_canonical (key canonical : string) :
  lookup key CODEC_ALIASES = Some canonical ->
  includes canonical_codecs canonical = true /\ normalizeCodec canonical = canonical.
Proof.
  unfold CODEC_ALIASES. cbn [lookup].
  repeat match goal with
         | |- context [if (?k =? key)%string then _ else _] =>
             destruct (k =? key)%string; [intros [= <-]; split; reflexivity |]
         end.
  discriminate.
Qed.

(** X1: [normalizeCodec] is idempotent, and its result is a canonical codec
    or else the cleaned name itself (lower case, white space removed), which
    every copy of the decoder answers with [null].  The name is a string of
    7-bit characters, and its cleaned form must not be [constructor] or
    [__proto__], for which the lookup in the alias table answers with a
    property of [Object.prototype] and not with a string. *)
Theorem normalizeCodec_idempotent (codec : string) :
  is_ascii codec = true ->
  inherited_key (remove_spaces (toLowerCase codec)) = false ->
  normalizeCodec (normalizeCodec codec) = normalizeCodec codec
  /\ (includes canonical_codecs (normalizeCodec codec) = true
      \/ (normalizeCodec codec = remove_spaces (toLowerCase codec)
          /\ forall notEnough hex,
               decodeValueWith notEnough hex (normalizeCodec codec) = Ok VNull)).
Proof.
  intros _ _.
  destruct (lookup (remove_spaces (toLowerCase codec)) CODEC_ALIASES) as [canonical |] eqn:E.
  - assert (Hn : normalizeCodec codec = canonical) by (unfold normalizeCodec; now rewrite E).
    rewrite Hn. destruct (alias_values_are_canonical _ _ E) as [Hc Hi].
    split; [exact Hi | now left].
  - assert (Hn : normalizeCodec codec = remove_spaces (toLowerCase codec))
      by (unfold normalizeCodec; now rewrite E).
    rewrite Hn. split.
    + unfold normalizeCodec. now rewrite clean_key_is_clean, E.
    + destruct (includes canonical_codecs (remove_spaces (toLowerCase codec))) eqn:Ec;
        [now left | right].
      split; [reflexivity |].
      intros notEnough hex. now apply decodeValue_unknown_codec.
Qed.

Lemma normalizeCodec_idempotent_witness :
  normalizeCodec (normalizeCodec "Float BE") = normalizeCodec "Float BE"
  /\ (includes canonical_codecs (normalizeCodec "Float BE") = true
      \/ (normalizeCodec "Float BE" = remove_spaces (toLowerCase "Float BE")
          /\ forall notEnough hex,
               decodeValueWith notEnough hex (normalizeCodec "Float BE") = Ok VNull)).
Proof.
  exact (normalizeCodec_idempotent "Float BE" eq_refl eq_refl).
Defined.

(** X2: on the strings of 7-bit characters [normalizeCodec] does not see
    the case of the letters nor the white space: a name, its upper-case and
    lower-case forms and the name without its white space normalize to the
    same codec. *)
Theorem normalizeCodec_ignores_case_and_space (codec : string) :
  is_ascii codec = true ->
  normalizeCodec (toUpperCase codec) = normalizeCodec codec
  /\ normalizeCodec (toLowerCase codec) = normalizeCodec codec
  /\ normalizeCodec (remove_spaces codec) = normalizeCodec codec.
Proof.
  intros _.
  unfold normalizeCodec.
  rewrite toLowerCase_toUpperCase, toLowerCase_idempotent, toLowerCase_remove_spaces,
    remove_spaces_idempotent.
  repeat split.
Qed.

Lemma normalizeCodec_ignores_case_and_space_witness :
  normalizeCodec (toUpperCase "u Int 16") = normalizeCodec "u Int 16"
  /\ normalizeCodec (toLowerCase "u Int 16") = normalizeCodec "u Int 16"
  /\ normalizeCodec (remove_spaces "u Int 16") = normalizeCodec "u Int 16".
Proof.
  exact (normalizeCodec_ignores_case_and_space "u Int 16" eq_refl).
Defined.

(** ** Stripping and padding of the combined hex string *)

Lemma hex_val_zero_char : hex_val zero_char = Some 0.
Proof. reflexivity. Qed.

Lemma strip_leading_zeros_value (s : string) :
  hex_value (strip_leading_zeros s) 0 = hex_value s 0.
Proof.
  induction s as [| c s IH]; [reflexivity |].
  cbn [strip_leading_zeros].
  destruct (Ascii.eqb_spec c zero_char) as [-> | _]; [| reflexivity].
  rewrite IH. cbn [hex_value]. now rewrite hex_val_zero_char.
Qed.

Lemma strip_leading_zeros_decompose (s : string) :
  s = repeat_char zero_char (String.length s - String.length (strip_leading_zeros s))
      ++ strip_leading_zeros s
  /\ (String.length (strip_leading_zeros s) <= String.length s)%nat.
Proof.
  induction s as [| c s [IH Hle]]; [split; reflexivity |].
  cbn [strip_leading_zeros].
  destruct (Ascii.eqb_spec c zero_char) as [-> | _].
  - cbn [String.length]. split; [| lia].
    replace (S (String.length s) - String.length (strip_leading_zeros s))%nat
      with (S (String.length s - String.length (strip_leading_zeros s))) by lia.
    cbn [repeat_char append]. f_equal. exact IH.
  - split; [| lia]. now rewrite Nat.sub_diag.
Qed.

Lemma strip_leading_zeros_all (p : ascii -> bool) (s : string) :
  all_chars p s = true -> all_chars p (strip_leading_zeros s) = true.
Proof.
  induction s as [| c s IH]; [reflexivity |].
  cbn [strip_leading_zeros]. intros H.
  destruct (Ascii.eqb c zero_char); [| exact H].
  cbn [all_chars] in H. apply andb_true_iff in H. now apply IH.
Qed.

Lemma or_else_stripped_value (s : string) :
  hex_value (or_else (strip_leading_zeros s) "00") 0 = hex_value s 0.
Proof.
  rewrite <- (strip_leading_zeros_value s).
  destruct (strip_leading_zeros s); reflexivity.
Qed.

Lemma padStart0_value (width : nat) (s : string) :
  hex_value (padStart0 width s) 0 = hex_value s 0.
Proof.
  unfold padStart0. apply hex_value_zeros.
Qed.

Lemma padForCodec_value (codec s : string) :
  hex_value (padForCodec codec s) 0 = hex_value s 0.
Proof.
  unfold padForCodec.
  repeat match goal with
         | |- context [if ?b then padStart0 ?n ?x else ?x] => destruct b
         end;
    rewrite ?padStart0_value; reflexivity.
Qed.

Lemma padStart0_hex (width : nat) (s : string) :
  all_chars is_hex_digit s = true -> all_chars is_hex_digit (padStart0 width s) = true.
Proof.
  intros H. unfold padStart0. rewrite all_chars_append, H.
  now rewrite all_chars_repeat.
Qed.

Lemma padForCodec_hex (codec s : string) :
  all_chars is_hex_digit s = true -> all_chars is_hex_digit (padForCodec codec s) = true.
Proof.
  intros H. unfold padForCodec.
  repeat match goal with
         | |- context [if ?b then padStart0 ?n ?x else ?x] =>
             let Hx := fresh in
             assert (Hx : all_chars is_hex_digit (if b then padStart0 n x else x) = true)
               by (destruct b; [apply padStart0_hex |]; assumption);
             generalize dependent (if b then padStart0 n x else x); intros
         end.
  assumption.
Qed.

(** After the padding a codec with a required width has at least that many
    characters to decode. *)
Lemma padForCodec_width (codec s : string) (N : nat) :
  required_width codec = Some N -> (N <= String.length (padForCodec codec s))%nat.
Proof.
  intros Hw.
  destruct (required_width_cases codec N Hw) as (H64 & H32 & H16).
  unfold padForCodec. rewrite H64, H32, H16.
  change 16 with (Z.of_nat 16). change 8 with (Z.of_nat 8). change 4 with (Z.of_nat 4).
  rewrite !str_length_lt.
  destruct (required_width_values codec N Hw) as [-> | [-> | ->]]; cbn [Nat.eqb andb];
    match goal with
    | |- context [(String.length s <? ?n)%nat] =>
        destruct (Nat.ltb_spec (String.length s) n) as [Hlt | Hge];
        [destruct (padStart0_short n s (Nat.lt_le_incl _ _ Hlt)) as [_ ->]; lia | exact Hge]
    end.
Qed.

Lemma repeat_char_append (c : ascii) (n m : nat) :
  repeat_char c n ++ repeat_char c m = repeat_char c (n + m).
Proof.
  induction n as [| n IH]; [reflexivity |]. cbn [repeat_char append Nat.add]. now rewrite IH.
Qed.

Lemma strip_then_pad_exact_width (codec s : string) (N : nat) :
  required_width codec = Some N -> String.length s = N ->
  padForCodec codec (or_else (strip_leading_zeros s) "00") = s.
Proof.
  intros Hw Hlen.
  destruct (strip_leading_zeros_decompose s) as [Hs Hle].
  destruct (required_width_cases codec N Hw) as (H64 & H32 & H16).
  assert (Hpad : forall t, (String.length t <= N)%nat ->
                           padForCodec codec t = padStart0 N t).
  { intros t Ht. unfold padForCodec. rewrite H64, H32, H16.
    change 16 with (Z.of_nat 16). change 8 with (Z.of_nat 8). change 4 with (Z.of_nat 4).
    rewrite !str_length_lt.
    destruct (required_width_values codec N Hw) as [-> | [-> | ->]]; cbn [Nat.eqb andb];
      match goal with
      | |- context [(String.length t <? ?n)%nat] =>
          destruct (Nat.ltb_spec (String.length t) n) as [Hlt | Hge];
          [reflexivity | now rewrite padStart0_long]
      end. }
  destruct (strip_leading_zeros s) as [| c r] eqn:E.
  - cbn [or_else]. cbn [String.length] in Hs. rewrite Nat.sub_0_r, Hlen in Hs.
    rewrite Hpad.
    + rewrite Hs. unfold padStart0.
      change "00" with (repeat_char zero_char 2).
      rewrite repeat_char_append, length_repeat_char.
      change (repeat_char zero_char N ++ EmptyString)
        with (repeat_char zero_char N ++ repeat_char zero_char 0).
      rewrite repeat_char_append. f_equal.
      destruct (required_width_values codec N Hw) as [-> | [-> | ->]]; reflexivity.
    + destruct (required_width_values codec N Hw) as [-> | [-> | ->]]; cbn; lia.
  - cbn [or_else]. rewrite Hpad by lia.
    unfold padStart0. rewrite Hlen in Hs. exact (eq_sym Hs).
Qed.


(** X3: the stripping of the leading zeros and the padding that follow the
    hexadecimal assembly in the TTID poller never change the number the
    combined hex string denotes; and when the string has exactly the width
    its codec requires, the string that reaches the decoder is the
    concatenation itself. *)
Theorem strip_then_pad_keeps_the_value (codec s : string) (N : nat) :
  hex_value (padForCodec codec (or_else (strip_leading_zeros s) "00")) 0 = hex_value s 0
  /\ (required_width codec = Some N -> String.length s = N ->
      padForCodec codec (or_else (strip_leading_zeros s) "00") = s).
Proof.
  split; [now rewrite padForCodec_value, or_else_stripped_value |].
  apply strip_then_pad_exact_width.
Qed.

Lemma strip_then_pad_keeps_the_value_witness :
  required_width "uint32" = Some 8%nat
  /\ String.length "00000a05" = 8%nat
  /\ padForCodec "uint32" (or_else (strip_leading_zeros "00000a05") "00") = "00000a05".
Proof.
  split; [reflexivity | split; [reflexivity |]].
  apply (strip_then_pad_keeps_the_value "uint32" "00000a05" 8); reflexivity.
Defined.

(** ** Buffers and the numeric codecs *)

Lemma string_pair_ind (P : string -> Prop) :
  P EmptyString ->
  (forall c, P (String c EmptyString)) ->
  (forall a b r, P r -> P (String a (String b r))) ->
  forall s, P s.
Proof.
  intros H0 H1 H2. fix IH 1.
  intros [| a [| b r]]; [exact H0 | apply H1 | apply H2, IH].
Qed.

(** A buffer never has more bytes than half the characters it is made from. *)
Lemma Buffer_from_hex_length_le (s : string) :
  (2 * List.length (Buffer_from_hex s) <= String.length s)%nat.
Proof.
  induction s as [| c | a b r IH] using string_pair_ind; [simpl; lia | simpl; lia |].
  cbn [Buffer_from_hex String.length].
  destruct (hex_val a), (hex_val b); cbn [List.length]; lia.
Qed.

Lemma take_length (n : nat) (s : string) :
  (n <= String.length s)%nat -> String.length (take n s) = n.
Proof.
  revert s. induction n as [| n IH]; intros s H; [reflexivity |].
  destruct s as [| c r]; [simpl in H; lia |].
  cbn [take String.length] in *. f_equal. apply IH. lia.
Qed.

Lemma take_all (s : string) : take (String.length s) s = s.
Proof.
  induction s as [| c s IH]; [reflexivity |]. cbn [take String.length]. now rewrite IH.
Qed.

(** On hexadecimal digits the first [k] bytes are those of the first [2k]
    digits, and their big-endian value is the value of these digits. *)
Lemma readUIntBE_hex (k : nat) :
  forall (s : string) (acc : Z),
    all_chars is_hex_digit s = true -> (2 * k <= String.length s)%nat ->
    (k <= List.length (Buffer_from_hex s))%nat
    /\ fold_left (fun a b => a * 256 + b) (firstn k (Buffer_from_hex s)) acc
       = hex_value (take (2 * k) s) acc.
Proof.
  induction k as [| k IH]; intros s acc Hhex Hlen.
  - split; [lia | reflexivity].
  - destruct s as [| a [| b r]]; [simpl in Hlen; lia | simpl in Hlen; lia |].
    cbn [all_chars] in Hhex.
    apply andb_true_iff in Hhex as [Ha Hhex]. apply andb_true_iff in Hhex as [Hb Hr].
    unfold is_hex_digit in Ha, Hb.
    replace (2 * S k)%nat with (S (S (2 * k))) by lia.
    cbn [Buffer_from_hex take hex_value].
    destruct (hex_val a) as [x |]; [| discriminate].
    destruct (hex_val b) as [y |]; [| discriminate].
    cbn [List.length firstn fold_left].
    cbn [String.length] in Hlen.
    destruct (IH r (acc * 256 + (16 * x + y)) Hr ltac:(lia)) as [Hk Hv].
    split; [lia |]. rewrite Hv. f_equal. lia.
Qed.

Lemma decodeValueWith_cases (notEnough : string -> string) (hex : string) :
  let buffer := Buffer_from_hex hex in
  let sized (n : Z) (name : string) (v : result jsval) :=
    if n <=? buffer_length buffer then v else Ok (VStr (notEnough name)) in
  decodeValueWith notEnough hex "uint16"
    = sized 2 "uint16" (Ok (VNum (num_of_Z (readUInt16BE buffer))))
  /\ decodeValueWith notEnough hex "int16"
    = sized 2 "int16" (Ok (VNum (num_of_Z (readInt16BE buffer))))
  /\ decodeValueWith notEnough hex "boolean"
    = sized 2 "boolean"
        (Ok (VNum (num_of_Z (if negb (readUInt16BE buffer =? 0) then 1 else 0))))
  /\ decodeValueWith notEnough hex "uint32"
    = sized 4 "uint32" (Ok (VNum (num_of_Z (readUInt32BE buffer))))
  /\ decodeValueWith notEnough hex "int32"
    = sized 4 "int32" (Ok (VNum (num_of_Z (readInt32BE buffer))))
  /\ decodeValueWith notEnough hex "float32"
    = sized 4 "float32" (Ok (VNum (readFloatBE buffer)))
  /\ decodeValueWith notEnough hex "uint64"
    = sized 8 "uint64"
        match BigInt_0x hex with
        | Ok n => Ok (VStr (Z_toString n))
        | Throw e => Throw e
        end.
Proof.
  repeat split.
Qed.

Lemma required_width_codec (codec : string) (N : nat) :
  required_width codec = Some N ->
  (N = 4%nat /\ (codec = "uint16" \/ codec = "int16" \/ codec = "boolean"))
  \/ (N = 8%nat /\ (codec = "uint32" \/ codec = "int32" \/ codec = "float32"))
  \/ (N = 16%nat /\ codec = "uint64").
Proof.
  unfold required_width.
  destruct (includes ["uint16"; "int16"; "boolean"] codec) eqn:E16.
  { intros [= <-]. apply includes_In in E16. left. split; [reflexivity |].
    destruct E16 as [<- | [<- | [<- | []]]]; auto. }
  destruct (includes ["uint32"; "int32"; "float32"] codec) eqn:E32.
  { intros [= <-]. apply includes_In in E32. right; left. split; [reflexivity |].
    destruct E32 as [<- | [<- | [<- | []]]]; auto. }
  destruct (includes ["uint64"] codec) eqn:E64; [| discriminate].
  intros [= <-]. apply includes_In in E64. right; right. split; [reflexivity |].
  destruct E64 as [<- | []]. reflexivity.
Qed.

(** X6: a hex string with fewer characters than the width its codec
    requires (4, 8 or 16) is answered by the diagnostic of the codec, not by a
    number: [Not enough bytes for <codec>] in csvModbusTTID.js and
    csvModbusPosition.js, [Not enough bytes] in the legacy sorted generator. *)
Theorem short_input_is_not_enough_bytes (codec hex : string) (N : nat) :
  required_width codec = Some N ->
  (String.length hex < N)%nat ->
  decodeValue hex codec = Ok (VStr ("Not enough bytes for " ++ codec))
  /\ decodeValue_sorted hex codec = Ok (VStr "Not enough bytes").
Proof.
  intros Hw Hlen.
  pose proof (Buffer_from_hex_length_le hex) as Hbuf.
  assert (Hshort : forall n, Z.of_nat N <= 2 * n ->
                             (n <=? buffer_length (Buffer_from_hex hex)) = false).
  { intros n Hn. apply Z.leb_gt. unfold buffer_length. lia. }
  unfold decodeValue, decodeValue_sorted.
  destruct (required_width_codec codec N Hw)
    as [[-> [-> | [-> | ->]]] | [[-> [-> | [-> | ->]]] | [-> ->]]];
    split;
    match goal with
    | |- decodeValueWith ?f hex ?c = _ =>
        destruct (decodeValueWith_cases f hex) as (H1 & H2 & H3 & H4 & H5 & H6 & H7);
        first [rewrite H1 | rewrite H2 | rewrite H3 | rewrite H4 | rewrite H5
              | rewrite H6 | rewrite H7];
        cbv zeta; rewrite Hshort by (simpl; lia); reflexivity
    end.
Qed.

Lemma short_input_is_not_enough_bytes_witness :
  required_width "int32" = Some 8%nat
  /\ (String.length "00ff12" < 8)%nat
  /\ decodeValue "00ff12" "int32" = Ok (VStr "Not enough bytes for int32").
Proof.
  split; [reflexivity | split; [simpl; lia |]].
  apply (short_input_is_not_enough_bytes "int32" "00ff12" 8); [reflexivity | simpl; lia].
Defined.

Lemma value_of_bits_cases (v : Z) :
  value_of_bits "uint16" v = VNum (num_of_Z v)
  /\ value_of_bits "int16" v = VNum (num_of_Z (if v <? 32768 then v else v - 65536))
  /\ value_of_bits "boolean" v = VNum (num_of_Z (if v =? 0 then 0 else 1))
  /\ value_of_bits "uint32" v = VNum (num_of_Z v)
  /\ value_of_bits "int32" v
     = VNum (num_of_Z (if v <? 2147483648 then v else v - 4294967296))
  /\ value_of_bits "float32" v = VNum (float32_of_bits v)
  /\ value_of_bits "uint64" v = VStr (Z_toString v).
Proof.
  repeat split.
Qed.

Lemma sized_codecs_decode_hex (notEnough : string -> string) (codec s : string) (N : nat) :
  required_width codec = Some N ->
  all_chars is_hex_digit s = true ->
  (N <= String.length s)%nat ->
  decodeValueWith notEnough s codec
  = Ok (value_of_bits codec (hex_value (decoded_part codec N s) 0)).
Proof.
  intros Hw Hhex Hlen.
  destruct (decodeValueWith_cases notEnough s) as (D1 & D2 & D3 & D4 & D5 & D6 & D7).
  destruct (value_of_bits_cases (hex_value (decoded_part codec N s) 0))
    as (V1 & V2 & V3 & V4 & V5 & V6 & V7).
  assert (Hread : forall k, (2 * k <= N)%nat ->
             (Z.of_nat k <=? buffer_length (Buffer_from_hex s)) = true
             /\ readUIntBE k (Buffer_from_hex s) = hex_value (take (2 * k) s) 0).
  { intros k Hk. destruct (readUIntBE_hex k s 0 Hhex ltac:(lia)) as [Hb Hv].
    split; [apply Z.leb_le; unfold buffer_length; lia | exact Hv]. }
  destruct (required_width_codec codec N Hw)
    as [[-> [-> | [-> | ->]]] | [[-> [-> | [-> | ->]]] | [-> ->]]].
  - destruct (Hread 2%nat ltac:(lia)) as [Hb Hv].
    rewrite D1, V1. cbv zeta. change 2 with (Z.of_nat 2). rewrite Hb.
    unfold readUInt16BE. now rewrite Hv.
  - destruct (Hread 2%nat ltac:(lia)) as [Hb Hv].
    rewrite D2, V2. cbv zeta. change 2 with (Z.of_nat 2). rewrite Hb.
    unfold readInt16BE. now rewrite Hv.
  - destruct (Hread 2%nat ltac:(lia)) as [Hb Hv].
    rewrite D3, V3. cbv zeta. change 2 with (Z.of_nat 2). rewrite Hb.
    unfold readUInt16BE. rewrite Hv. unfold decoded_part. cbn [String.eqb Ascii.eqb Bool.eqb].
    change (2 * 2)%nat with 4%nat.
    now destruct (hex_value (take 4 s) 0 =? 0).
  - destruct (Hread 4%nat ltac:(lia)) as [Hb Hv].
    rewrite D4, V4. cbv zeta. change 4 with (Z.of_nat 4). rewrite Hb.
    unfold readUInt32BE. now rewrite Hv.
  - destruct (Hread 4%nat ltac:(lia)) as [Hb Hv].
    rewrite D5, V5. cbv zeta. change 4 with (Z.of_nat 4). rewrite Hb.
    unfold readInt32BE. now rewrite Hv.
  - destruct (Hread 4%nat ltac:(lia)) as [Hb Hv].
    rewrite D6, V6. cbv zeta. change 4 with (Z.of_nat 4). rewrite Hb.
    unfold readFloatBE. now rewrite Hv.
  - destruct (Hread 8%nat ltac:(lia)) as [Hb _].
    rewrite D7, V7. cbv zeta. change 8 with (Z.of_nat 8). rewrite Hb.
    rewrite BigInt_0x_hex_digits; [reflexivity | exact Hhex |].
    intros ->. simpl in Hlen. lia.
Qed.

(** X4: on a string of hexadecimal digits that has at least the width its
    codec requires, every copy of the decoder returns the number of the
    codec and no diagnostic: the 16-bit and 32-bit codecs read the value of
    the first 4 or 8 digits (unsigned, two's complement, zero test or
    IEEE-754 binary32), while uint64 returns the decimal text of the value of
    the whole string, however long it is. *)
Theorem sized_codecs_decode_their_digits (codec s : string) (N : nat) :
  required_width codec = Some N ->
  all_chars is_hex_digit s = true ->
  (N <= String.length s)%nat ->
  decodeValue s codec
    = Ok (value_of_bits codec
            (hex_value (if (codec =? "uint64")%string then s else take N s) 0))
  /\ decodeValue_sorted s codec = decodeValue s codec.
Proof.
  intros Hw Hhex Hlen. unfold decodeValue, decodeValue_sorted.
  rewrite !(sized_codecs_decode_hex _ codec s N Hw Hhex Hlen). split; reflexivity.
Qed.

Lemma sized_codecs_decode_their_digits_witness :
  required_width "int16" = Some 4%nat
  /\ all_chars is_hex_digit "fffe1234" = true
  /\ (4 <= String.length "fffe1234")%nat
  /\ decodeValue "fffe1234" "int16" = Ok (VNum (num_of_Z (-2))).
Proof.
  split; [reflexivity | split; [reflexivity | split; [simpl; lia |]]].
  apply (sized_codecs_decode_their_digits "int16" "fffe1234" 4);
    [reflexivity | reflexivity | simpl; lia].
Defined.

(** ** Register words through the pollers *)

Lemma hex_value_append (s1 s2 : string) (acc : Z) :
  all_chars is_hex_digit s1 = true ->
  hex_value (s1 ++ s2) acc = hex_value s2 (hex_value s1 acc).
Proof.
  revert acc. induction s1 as [| c s1 IH]; intros acc H; [reflexivity |].
  cbn [all_chars] in H. apply andb_true_iff in H as [Hc Hs].
  unfold is_hex_digit in Hc. cbn [append hex_value].
  destruct (hex_val c); [now apply IH | discriminate].
Qed.

Lemma joined_words (words : list Z) :
  Forall is_word16 words ->
  all_chars is_hex_digit (join (map hexWord words)) = true
  /\ String.length (join (map hexWord words)) = (4 * List.length words)%nat
  /\ forall acc,
       hex_value (join (map hexWord words)) acc
       = fold_left (fun a w => a * 65536 + normalized_word w) words acc.
Proof.
  induction 1 as [| w ws Hw _ (IHhex & IHlen & IHval)]; [repeat split |].
  destruct (hexWord_spec w Hw) as (Hlen & Hhex & Hval).
  cbn [map join List.length fold_left].
  split; [now rewrite all_chars_append, Hhex, IHhex |].
  split; [rewrite length_append, Hlen, IHlen; lia |].
  intros acc. rewrite hex_value_append by exact Hhex.
  rewrite IHval. f_equal.
  rewrite hex_value_shift by exact Hhex. rewrite Hlen, Hval. reflexivity.
Qed.

Lemma value_of_bits_not_null (codec : string) (N : nat) (v : Z) :
  required_width codec = Some N ->
  match value_of_bits codec v with
  | VNum _ | VStr _ => True
  | _ => False
  end.
Proof.
  intros Hw.
  destruct (required_width_codec codec N Hw)
    as [[_ [-> | [-> | ->]]] | [[_ [-> | [-> | ->]]] | [_ ->]]]; exact I.
Qed.

Lemma decoded_part_exact (codec s : string) (N : nat) :
  String.length s = N -> decoded_part codec N s = s.
Proof.
  intros <-. unfold decoded_part. destruct (codec =? "uint64")%string; [reflexivity |].
  apply take_all.
Qed.

Section WordsThroughThePollers.

Context {conn : Type}.
Variable readHoldingRegisters :
  conn -> forall (unit address size : number), conn * result (list Z).

(** The decoded value of the TTID poller for a codec with a required width. *)
Lemma pollField_decodes_sized
    deviceType site ttidNum unitId field (c c' : client conn) words N :
  invalid_spec field = false ->
  client_read readHoldingRegisters (setID unitId c)
    (computeStartingAddressForType deviceType ttidNum unitId (field_BaseReg field))
    (field_Size field) = (c', Ok words) ->
  Forall is_word16 words ->
  required_width (normalizeCodec (field_Codec field)) = Some N ->
  let padded :=
    padForCodec (normalizeCodec (field_Codec field))
      (or_else (strip_leading_zeros (join (map hexWord words))) "00") in
  DecodedValue (snd (pollField readHoldingRegisters deviceType site ttidNum unitId field c))
  = value_of_bits (normalizeCodec (field_Codec field))
      (hex_value (decoded_part (normalizeCodec (field_Codec field)) N padded) 0).
Proof.
  intros Hspec Hread Hwords Hw padded.
  rewrite (pollField_read_succeeds _ deviceType site _ _ _ _ _ _ Hspec Hread).
  cbn [snd DecodedValue]. fold padded.
  destruct (joined_words words Hwords) as (Hhex & _ & _).
  assert (Hp : all_chars is_hex_digit padded = true).
  { apply padForCodec_hex.
    pose proof (strip_leading_zeros_all is_hex_digit _ Hhex) as Hs.
    destruct (strip_leading_zeros (join (map hexWord words))); [reflexivity | exact Hs]. }
  unfold decodeValue.
  rewrite (sized_codecs_decode_hex _ _ padded N Hw Hp (padForCodec_width _ _ _ Hw)).
  pose proof (value_of_bits_not_null _ N
                (hex_value (decoded_part (normalizeCodec (field_Codec field)) N padded) 0) Hw)
    as Hnn.
  destruct (value_of_bits (normalizeCodec (field_Codec field))
              (hex_value (decoded_part (normalizeCodec (field_Codec field)) N padded) 0));
    reflexivity || contradiction.
Qed.

(** X5: in the TTID poller a successful read of 16-bit words under a codec
    with a required width always decodes to the number of the codec (the
    decimal text for uint64), never to a diagnostic, a [null] or a decode
    error, whatever the number of words, none included; and when the words
    have exactly the width of the codec, the number is the one the words
    denote, most significant word first. *)
Theorem sized_codecs_decode_the_words
    deviceType site ttidNum unitId field (c c' : client conn) words N :
  invalid_spec field = false ->
  client_read readHoldingRegisters (setID unitId c)
    (computeStartingAddressForType deviceType ttidNum unitId (field_BaseReg field))
    (field_Size field) = (c', Ok words) ->
  Forall is_word16 words ->
  required_width (normalizeCodec (field_Codec field)) = Some N ->
  let row := snd (pollField readHoldingRegisters deviceType site ttidNum unitId field c) in
  (exists v, DecodedValue row = value_of_bits (normalizeCodec (field_Codec field)) v)
  /\ ((4 * List.length words)%nat = N ->
      DecodedValue row
      = value_of_bits (normalizeCodec (field_Codec field)) (words_value words)
      /\ CombinedHex row = VStr (quoted_upper (join (map hexWord words)))).
Proof.
  intros Hspec Hread Hwords Hw row. subst row.
  pose proof (pollField_decodes_sized deviceType site ttidNum unitId field c c' words N
                Hspec Hread Hwords Hw) as Hd.
  cbv zeta in Hd. split; [eexists; exact Hd |].
  intros Hexact.
  destruct (joined_words words Hwords) as (_ & Hlen & Hval).
  rewrite Hexact in Hlen.
  rewrite (strip_then_pad_exact_width _ _ N Hw Hlen) in Hd.
  rewrite (decoded_part_exact _ _ N Hlen), Hval in Hd.
  split; [exact Hd |].
  rewrite (pollField_read_succeeds _ deviceType site _ _ _ _ _ _ Hspec Hread).
  cbn [snd CombinedHex]. now rewrite (strip_then_pad_exact_width _ _ N Hw Hlen).
Qed.

End WordsThroughThePollers.

Lemma sized_codecs_decode_the_words_witness :
  Forall is_word16 [-1; 65534]
  /\ DecodedValue
       (snd (pollField (answering [-1; 65534]) "weather" "10.0.0.5"
               (num_of_Z 3) (num_of_Z 101)
               {| field_ID := "Offset"; field_BaseReg := num_of_Z 8;
                  field_Size := num_of_Z 2; field_Codec := "Int32" |} fresh_client))
     = VNum (num_of_Z (-2)).
Proof.
  assert (Hwords : Forall is_word16 [-1; 65534]).
  { repeat constructor; unfold is_word16; lia. }
  split; [exact Hwords |].
  destruct (sized_codecs_decode_the_words (answering [-1; 65534]) "weather" "10.0.0.5"
              (num_of_Z 3) (num_of_Z 101)
              {| field_ID := "Offset"; field_BaseReg := num_of_Z 8;
                 field_Size := num_of_Z 2; field_Codec := "Int32" |}
              fresh_client
              {| unitID := num_of_Z 101; link := tt;
                 reads := [(num_of_Z 101, num_of_Z 1032, num_of_Z 2)] |}
              [-1; 65534] 8 eq_refl eq_refl Hwords eq_refl) as [_ Hexact].
  exact (proj1 (Hexact eq_refl)).
Defined.

(** ** Units and addresses *)

Lemma computeUnitId_fixed (t : number) :
  computeUnitId "weather" t = Ok (num_of_Z 101)
  /\ computeUnitId "repeater" t = Ok (num_of_Z 102)
  /\ computeUnitId "network" t = Ok (num_of_Z 100).
Proof.
  repeat split.
Qed.

(** X7: the units of the row boxes run into the fixed units of the other
    categories.  Row identifier 9901 is read at the unit and the addresses of
    the network controller (identifier 1, unit 100); for [1 <= j <= 100], row
    identifier [10000 + j] is read at the unit and the addresses of weather
    identifier [j] (unit 101), and row identifier [10100 + j] at those of
    repeater identifier [j] (unit 102). *)
Theorem row_units_alias_the_fixed_units (j b : Z) :
  1 <= j <= 100 ->
  let start deviceType t unitId :=
    computeStartingAddressForType deviceType (num_of_Z t) (num_of_Z unitId) (num_of_Z b) in
  (computeUnitId "row" (num_of_Z 9901) = computeUnitId "network" (num_of_Z 1)
   /\ start "row" 9901 100 = start "network" 1 100)
  /\ (computeUnitId "row" (num_of_Z (10000 + j)) = computeUnitId "weather" (num_of_Z j)
      /\ start "row" (10000 + j) 101 = start "weather" j 101)
  /\ (computeUnitId "row" (num_of_Z (10100 + j)) = computeUnitId "repeater" (num_of_Z j)
      /\ start "row" (10100 + j) 102 = start "repeater" j 102).
Proof.
  intros Hj start. subst start. cbv beta.
  assert (Hunit : forall t u, 1 <= t -> (t - 1) / 100 + 1 = u ->
                              computeUnitId "row" (num_of_Z t) = Ok (num_of_Z u)).
  { intros t u Ht <-. now apply computeUnitId_row. }
  assert (Hdiv : forall q, (q * 100 + j - 1) / 100 = q).
  { intros q. replace (q * 100 + j - 1) with ((j - 1) + q * 100) by lia.
    rewrite Z.div_add by lia. rewrite Z.div_small by lia. lia. }
  split; [split; reflexivity |].
  split;
    (split;
     [| rewrite computeStartingAddress_row by reflexivity;
        rewrite computeStartingAddress_flat by discriminate;
        apply (f_equal num_of_Z); lia]).
  - rewrite (Hunit (10000 + j) 101); [reflexivity | lia |].
    replace (10000 + j - 1) with (100 * 100 + j - 1) by lia.
    rewrite Hdiv. reflexivity.
  - rewrite (Hunit (10100 + j) 102); [reflexivity | lia |].
    replace (10100 + j - 1) with (101 * 100 + j - 1) by lia.
    rewrite Hdiv. reflexivity.
Qed.

Lemma row_units_alias_the_fixed_units_witness :
  1 <= 7 <= 100
  /\ computeUnitId "row" (num_of_Z 10007) = computeUnitId "weather" (num_of_Z 7)
  /\ computeStartingAddressForType "row" (num_of_Z 10007) (num_of_Z 101) (num_of_Z 12)
     = computeStartingAddressForType "weather" (num_of_Z 7) (num_of_Z 101) (num_of_Z 12).
Proof.
  split; [lia |].
  destruct (row_units_alias_the_fixed_units 7 12 ltac:(lia)) as (_ & [Hu Ha] & _).
  split; [exact Hu | exact Ha].
Defined.

(** X8: within the 512 registers of a slot the banked addressing of the row
    boxes loses nothing: for identifiers from 1 to [Number.MAX_SAFE_INTEGER],
    on which the arithmetic of the code is exact, and base registers from 0
    to 511, the start address lies between 0 and 51199, and two reads at the
    same unit and the same start address are reads of the same identifier and
    the same base register. *)
Theorem row_addressing_is_injective (t t' b b' : Z) :
  1 <= t <= MAX_SAFE_INTEGER -> 1 <= t' <= MAX_SAFE_INTEGER ->
  0 <= b < 512 -> 0 <= b' < 512 ->
  let unit z := (z - 1) / 100 + 1 in
  let start z base :=
    computeStartingAddressForType "row" (num_of_Z z) (num_of_Z (unit z)) (num_of_Z base) in
  (exists a, start t b = num_of_Z a /\ 0 <= a < 51200)
  /\ (computeUnitId "row" (num_of_Z t) = computeUnitId "row" (num_of_Z t') ->
      start t b = start t' b' -> t = t' /\ b = b').
Proof.
  intros [Ht _] [Ht' _] Hb Hb' unit start. subst start unit. cbv beta.
  rewrite !computeStartingAddress_row by reflexivity.
  rewrite !computeUnitId_row by (reflexivity || lia).
  pose proof (Z.div_mod (t - 1) 100 ltac:(lia)) as Hd.
  pose proof (Z.mod_pos_bound (t - 1) 100 ltac:(lia)) as Hm.
  pose proof (Z.div_mod (t' - 1) 100 ltac:(lia)) as Hd'.
  pose proof (Z.mod_pos_bound (t' - 1) 100 ltac:(lia)) as Hm'.
  split.
  - eexists. split; [reflexivity | lia].
  - intros Hu Ha. injection Hu as Hu. injection Ha as Ha. lia.
Qed.

Lemma row_addressing_is_injective_witness :
  1 <= 150 <= MAX_SAFE_INTEGER /\ 0 <= 7 < 512
  /\ exists a, computeStartingAddressForType "row" (num_of_Z 150) (num_of_Z 2) (num_of_Z 7)
               = num_of_Z a /\ 0 <= a < 51200.
Proof.
  assert (Ht : 1 <= 150 <= MAX_SAFE_INTEGER) by (split; [lia | discriminate]).
  split; [exact Ht | split; [lia |]].
  exact (proj1 (row_addressing_is_injective 150 150 7 7
                  Ht Ht ltac:(lia) ltac:(lia))).
Defined.

(** ** The reads of the pollers *)

Section ReadsOfThePollers.

Context {conn : Type}.
Variable readHoldingRegisters :
  conn -> forall (unit address size : number), conn * result (list Z).
Variable Number_of_TTID : string -> number.

Implicit Types (c : client conn).

Lemma client_read_log c address size :
  let c' := fst (client_read readHoldingRegisters c address size) in
  reads c' = (reads c ++ [(unitID c, address, size)])%list /\ unitID c' = unitID c.
Proof.
  unfold client_read.
  destruct (readHoldingRegisters (link c) (unitID c) address size). split; reflexivity.
Qed.

Lemma pollField_reads deviceType site ttidNum unitId field c :
  reads (fst (pollField readHoldingRegisters deviceType site ttidNum unitId field c))
  = (reads c ++ field_reads deviceType ttidNum unitId [field])%list.
Proof.
  unfold field_reads. cbn [flat_map]. rewrite app_nil_r.
  destruct (invalid_spec field) eqn:Hspec.
  - rewrite pollField_invalid by exact Hspec. cbn [fst]. now rewrite app_nil_r.
  - pose proof (client_read_log (setID unitId c)
                  (computeStartingAddressForType deviceType ttidNum unitId
                     (field_BaseReg field)) (field_Size field)) as [Hlog _].
    destruct (client_read readHoldingRegisters (setID unitId c)
                (computeStartingAddressForType deviceType ttidNum unitId
                   (field_BaseReg field)) (field_Size field))
      as [c' [words | err]] eqn:Hread; cbn [fst] in Hlog.
    + rewrite (pollField_read_succeeds _ deviceType site _ _ _ _ _ _ Hspec Hread).
      exact Hlog.
    + rewrite (pollField_read_fails _ deviceType site _ _ _ _ _ _ Hspec Hread).
      exact Hlog.
Qed.

Lemma field_reads_cons deviceType ttidNum unitId field rest :
  field_reads deviceType ttidNum unitId (field :: rest)
  = (field_reads deviceType ttidNum unitId [field]
     ++ field_reads deviceType ttidNum unitId rest)%list.
Proof.
  unfold field_reads. cbn [flat_map]. now rewrite app_nil_r.
Qed.

Lemma pollFields_reads deviceType site ttidNum unitId fieldSpec :
  forall c allResults,
    reads (fst (pollFields readHoldingRegisters deviceType site ttidNum unitId fieldSpec
                  (c, allResults)))
    = (reads c ++ field_reads deviceType ttidNum unitId fieldSpec)%list.
Proof.
  induction fieldSpec as [| field rest IH]; intros c allResults.
  - cbn. now rewrite app_nil_r.
  - rewrite field_reads_cons. unfold pollFields in *. cbn [fold_left fst snd].
    pose proof (pollField_reads deviceType site ttidNum unitId field c) as Hone.
    destruct (pollField readHoldingRegisters deviceType site ttidNum unitId field c)
      as [c1 row]. cbn [fst] in Hone.
    rewrite IH, Hone, <- app_assoc. reflexivity.
Qed.

Lemma pollTTID_reads deviceType site fieldSpec rawTTID c allResults :
  reads (fst (pollTTID readHoldingRegisters Number_of_TTID deviceType site fieldSpec
                rawTTID (c, allResults)))
  = (reads c ++ identifier_reads Number_of_TTID deviceType fieldSpec rawTTID)%list.
Proof.
  unfold pollTTID, identifier_reads.
  destruct (Number_isFinite (Number_of_TTID rawTTID)); cbn [negb fst].
  - destruct (computeUnitId deviceType (Number_of_TTID rawTTID)).
    + apply pollFields_reads.
    + cbn [fst]. now rewrite app_nil_r.
  - now rewrite app_nil_r.
Qed.

(** X9: the reads the TTID poller issues are, in order, one read per
    accepted field of each identifier that is numeric and has a unit, each
    at the unit of its identifier (the unit is selected before every read),
    at the start address of the field and with its register count; a
    rejected field, an identifier that is not numeric and a row identifier
    without a unit cause no read, and no read is repeated, whether it fails
    or not. *)
Theorem reads_of_the_TTID_poller deviceType site fieldSpec ttids c allResults :
  reads (fst (pollTTIDs readHoldingRegisters Number_of_TTID deviceType site fieldSpec
                ttids (c, allResults)))
  = (reads c ++ flat_map (identifier_reads Number_of_TTID deviceType fieldSpec) ttids)%list.
Proof.
  revert c allResults. induction ttids as [| rawTTID rest IH]; intros c allResults.
  - cbn. now rewrite app_nil_r.
  - unfold pollTTIDs in *. cbn [fold_left flat_map].
    pose proof (pollTTID_reads deviceType site fieldSpec rawTTID c allResults) as Hone.
    destruct (pollTTID readHoldingRegisters Number_of_TTID deviceType site fieldSpec
                rawTTID (c, allResults)) as [c1 rows1]. cbn [fst] in Hone.
    rewrite IH, Hone, <- app_assoc. reflexivity.
Qed.

(** *** The loops over the entries of a position *)

Lemma positionField_effect site unitId posBase entry c :
  let st := positionField readHoldingRegisters site unitId posBase entry c in
  reads (fst st) = (reads c ++ [position_read (unitID c) posBase entry])%list
  /\ unitID (fst st) = unitID c
  /\ ID (snd st) = VStr (field_ID entry)
  /\ tagged (snd st).
Proof.
  unfold positionField, position_read.
  pose proof (client_read_log c (nadd (nmul posBase (num_of_Z 512)) (field_BaseReg entry))
                (field_Size entry)) as [Hlog Hunit].
  destruct (client_read readHoldingRegisters c
              (nadd (nmul posBase (num_of_Z 512)) (field_BaseReg entry))
              (field_Size entry)) as [c' [words | err]]; cbn [fst] in Hlog, Hunit.
  - destruct (decodeValue _ _) as [v | err]; cbn [fst snd ID];
      (split; [exact Hlog | split; [exact Hunit | split; [reflexivity |]]]).
    + eapply quoted_row_is_success. reflexivity.
    + reflexivity.
  - cbn [fst snd ID]. split; [exact Hlog | split; [exact Hunit | split; reflexivity]].
Qed.

(** The loop over the entries of one position in csvModbusPosition.js: every
    entry is read, in order, at the unit that is selected on the client, and
    yields one row, a success row or an error row. *)
Lemma positionFields_effect site unitId posBase allEntries :
  forall c allResults, exists c' rows,
    positionFields readHoldingRegisters site unitId posBase allEntries (c, allResults)
    = (c', (allResults ++ rows)%list)
    /\ map ID rows = map (fun entry => VStr (field_ID entry)) allEntries
    /\ Forall tagged rows
    /\ reads c' = (reads c ++ map (position_read (unitID c) posBase) allEntries)%list
    /\ unitID c' = unitID c.
Proof.
  induction allEntries as [| entry rest IH]; intros c allResults.
  - exists c, []. cbn. rewrite !app_nil_r. repeat split. constructor.
  - pose proof (positionField_effect site unitId posBase entry c) as (Hlog & Hunit & Hid & Htag).
    cbv zeta in *.
    destruct (positionField readHoldingRegisters site unitId posBase entry c) as [c1 row] eqn:E.
    cbn [fst snd] in *.
    destruct (IH c1 (push allResults row))
      as (c' & rows & Hfold & Hids & Htags & Hreads & Hunit').
    exists c', (row :: rows). unfold positionFields in *. cbn [fold_left fst snd].
    rewrite E, Hfold. unfold push. rewrite <- app_assoc.
    split; [reflexivity |].
    split; [cbn [map]; now rewrite Hid, Hids |].
    split; [now constructor |].
    split; [| congruence].
    rewrite Hreads, Hlog, Hunit, <- app_assoc. reflexivity.
Qed.

Lemma sortedField_effect site unitId posBase entry c allResults :
  let st := sortedField readHoldingRegisters site unitId posBase entry (c, allResults) in
  unitID (fst st) = unitID c
  /\ if sorted_accepts entry then
       reads (fst st) = (reads c ++ [position_read (unitID c) posBase entry])%list
       /\ exists row, snd st = (allResults ++ [row])%list
                      /\ ID row = VStr (field_ID entry) /\ tagged row
     else st = (c, allResults).
Proof.
  unfold sortedField, sorted_accepts, position_read.
  destruct (field_ID entry) as [| a s] eqn:Eid; [split; reflexivity |].
  destruct (isNaN (field_BaseReg entry) || isNaN (field_Size entry))%bool;
    cbn [negb]; [split; reflexivity |].
  cbn [fst snd].
  pose proof (client_read_log c (nadd (nmul posBase (num_of_Z 512)) (field_BaseReg entry))
                (field_Size entry)) as [Hlog Hunit].
  destruct (client_read readHoldingRegisters c
              (nadd (nmul posBase (num_of_Z 512)) (field_BaseReg entry))
              (field_Size entry)) as [c' [words | err]]; cbn [fst] in Hlog, Hunit.
  - destruct (decodeValue_sorted _ _) as [v | err]; cbn [fst snd];
      (split; [exact Hunit | split; [exact Hlog |]]); eexists;
      (split; [reflexivity | split; [reflexivity |]]).
    + eapply quoted_row_is_success. reflexivity.
    + reflexivity.
  - cbn [fst snd]. split; [exact Hunit | split; [exact Hlog |]]. eexists.
    split; [reflexivity | split; reflexivity].
Qed.

(** The loop over the entries of one position in the legacy sorted
    generator: an entry without an ID, or whose base register or size is
    [NaN], is passed over without a read and without a row; every other entry
    is read, in order, and yields one row, a success row or an error row. *)
Lemma sortedFields_effect site unitId posBase entries :
  forall c allResults, exists c' rows,
    sortedFields readHoldingRegisters site unitId posBase entries (c, allResults)
    = (c', (allResults ++ rows)%list)
    /\ map ID rows
       = map (fun entry => VStr (field_ID entry)) (filter sorted_accepts entries)
    /\ Forall tagged rows
    /\ reads c'
       = (reads c ++ map (position_read (unitID c) posBase)
                       (filter sorted_accepts entries))%list
    /\ unitID c' = unitID c.
Proof.
  induction entries as [| entry rest IH]; intros c allResults.
  - exists c, []. cbn. rewrite !app_nil_r. repeat split. constructor.
  - pose proof (sortedField_effect site unitId posBase entry c allResults) as [Hunit Hstep].
    cbv zeta in *. unfold sortedFields in *. cbn [fold_left filter].
    destruct (sortedField readHoldingRegisters site unitId posBase entry (c, allResults))
      as [c1 rows1] eqn:E. cbn [fst snd] in *.
    destruct (sorted_accepts entry).
    + destruct Hstep as (Hlog & row & -> & Hid & Htag).
      destruct (IH c1 (allResults ++ [row])%list)
        as (c' & rows & Hfold & Hids & Htags & Hreads & Hunit').
      exists c', (row :: rows). rewrite Hfold, <- app_assoc.
      split; [reflexivity |].
      split; [cbn [map]; now rewrite Hid, Hids |].
      split; [now constructor |].
      split; [| congruence].
      rewrite Hreads, Hlog, Hunit, <- app_assoc. reflexivity.
    + injection Hstep as -> ->. apply IH.
Qed.

(** *** The loops over the positions *)

Variable template_text : jsval -> string.

Lemma positionTypeName_effect posBase allEntries c :
  let st := positionTypeName readHoldingRegisters posBase allEntries c in
  reads (fst st) = (reads c ++ position_type_reads (unitID c) allEntries posBase)%list
  /\ unitID (fst st) = unitID c.
Proof.
  unfold positionTypeName, position_type_reads, position_read.
  destruct (findItem "Device Type" allEntries) as [entry |];
    [| cbn [fst]; rewrite app_nil_r; split; reflexivity].
  pose proof (client_read_log c (nadd (nmul posBase (num_of_Z 512)) (field_BaseReg entry))
                (field_Size entry)) as [Hlog Hunit].
  destruct (client_read readHoldingRegisters c
              (nadd (nmul posBase (num_of_Z 512)) (field_BaseReg entry))
              (field_Size entry)) as [c' [words | err]]; cbn [fst] in Hlog, Hunit.
  - destruct (decodeValue _ _); cbn [fst]; split; assumption.
  - cbn [fst]. split; assumption.
Qed.

Lemma positionBlock_effect site unitId allEntries position c allResults :
  exists c' block,
    positionBlock readHoldingRegisters template_text site unitId allEntries
      (c, allResults) position
    = (c', (allResults ++ block)%list)
    /\ position_block template_text allEntries position block
    /\ reads c'
       = (reads c ++ position_type_reads (unitID c) allEntries position
          ++ map (position_read (unitID c) position) allEntries)%list
    /\ unitID c' = unitID c.
Proof.
  unfold positionBlock. cbn [fst snd].
  pose proof (positionTypeName_effect position allEntries c) as [Hlog Hunit].
  cbv zeta in Hlog, Hunit.
  destruct (positionTypeName readHoldingRegisters position allEntries c)
    as [c1 deviceTypeName]. cbn [fst] in Hlog, Hunit.
  set (caption := caption_row ("Position: " ++ template_text (VNum position)
                               ++ " | DeviceType: " ++ template_text deviceTypeName)).
  destruct (positionFields_effect site unitId position allEntries c1
              (push (push allResults caption) (caption_row rule)))
    as (c2 & rows & -> & Hids & Htags & Hreads & Hunit2).
  exists c2, (caption :: caption_row rule
              :: rows ++ [caption_row rule; caption_row EmptyString])%list.
  split; [| split; [| split]].
  - unfold push. rewrite <- !app_assoc. reflexivity.
  - exists deviceTypeName, rows. repeat split; assumption.
  - rewrite Hreads, Hlog, Hunit, <- app_assoc. reflexivity.
  - congruence.
Qed.


Lemma sortedTypeName_effect typeEntry posBase c :
  let st := sortedTypeName readHoldingRegisters typeEntry posBase c in
  reads (fst st) = (reads c ++ sorted_type_reads (unitID c) typeEntry posBase)%list
  /\ unitID (fst st) = unitID c.
Proof.
  unfold sortedTypeName, sorted_type_reads, position_read.
  destruct typeEntry as [entry |];
    [| cbn [fst]; rewrite app_nil_r; split; reflexivity].
  destruct (negb (isNaN (field_BaseReg entry)) && negb (isNaN (field_Size entry)))%bool;
    [| cbn [fst]; rewrite app_nil_r; split; reflexivity].
  pose proof (client_read_log c (nadd (nmul posBase (num_of_Z 512)) (field_BaseReg entry))
                (field_Size entry)) as [Hlog Hunit].
  destruct (client_read readHoldingRegisters c
              (nadd (nmul posBase (num_of_Z 512)) (field_BaseReg entry))
              (field_Size entry)) as [c' [words | err]]; cbn [fst] in Hlog, Hunit.
  - destruct (decodeValue_sorted _ _); cbn [fst]; split; assumption.
  - cbn [fst]. split; assumption.
Qed.

Lemma sortedBlock_effect site unitId typeEntry entries pos c allResults :
  exists c' block,
    sortedBlock readHoldingRegisters template_text site unitId typeEntry entries
      (c, allResults) pos
    = (c', (allResults ++ block)%list)
    /\ sorted_block template_text entries pos block
    /\ reads c'
       = (reads c ++ sorted_type_reads (unitID c) typeEntry pos
          ++ map (position_read (unitID c) pos) (filter sorted_accepts entries))%list
    /\ unitID c' = unitID c.
Proof.
  unfold sortedBlock. cbn [fst snd].
  pose proof (sortedTypeName_effect typeEntry pos c) as [Hlog Hunit].
  cbv zeta in Hlog, Hunit.
  destruct (sortedTypeName readHoldingRegisters typeEntry pos c)
    as [c1 deviceTypeName]. cbn [fst] in Hlog, Hunit.
  set (caption := caption_row ("======================Position: "
                               ++ template_text (VNum pos)
                               ++ " | DeviceType: " ++ template_text deviceTypeName
                               ++ " ======================")).
  destruct (sortedFields_effect site unitId pos entries c1 (push allResults caption))
    as (c2 & rows & -> & Hids & Htags & Hreads & Hunit2).
  exists c2, (caption :: rows ++ [caption_row rule; caption_row EmptyString])%list.
  split; [| split; [| split]].
  - unfold push. rewrite <- !app_assoc. reflexivity.
  - exists deviceTypeName, rows. repeat split; assumption.
  - rewrite Hreads, Hlog, Hunit, <- app_assoc. reflexivity.
  - congruence.
Qed.


End ReadsOfThePollers.



(** ** The mode-toggle client, further *)

(** X12: [scrubUnsupportedFlagsFromError] only ever deletes: the flags it
    leaves are flags it was given, with their values; it reports a change
    exactly when it deleted a flag, and then the object has fewer keys; a
    flag is deleted exactly when it was there and the message names it. *)
Theorem scrub_only_deletes (flags : Flags) (errMsg : string) :
  let scrubbed := fst (scrubUnsupportedFlagsFromError flags errMsg) in
  let changed := snd (scrubUnsupportedFlagsFromError flags errMsg) in
  flags_within scrubbed flags
  /\ (changed = true <-> (key_count scrubbed < key_count flags)%nat)
  /\ (changed = false <-> scrubbed = flags)
  /\ (is_some (enableModbusSorting scrubbed)
      = (is_some (enableModbusSorting flags)
         && negb (contains_ci "enableModbusSorting" errMsg))%bool)
  /\ (is_some (enableLegacyMode scrubbed)
      = (is_some (enableLegacyMode flags)
         && negb (contains_ci "enableLegacyMode" errMsg))%bool).
Proof.
  unfold scrubUnsupportedFlagsFromError, flags_within, key_count. cbn [fst snd].
  destruct flags as [[legacy |] [sorting |]];
    cbn [enableLegacyMode enableModbusSorting is_some andb];
    destruct (contains_ci "enableModbusSorting" errMsg);
    destruct (contains_ci "enableLegacyMode" errMsg);
    cbn [andb orb negb is_some enableLegacyMode enableModbusSorting];
    (split; [auto |]);
    (split; [split; [intros; lia | intros; reflexivity || lia] |]);
    (split; [split; [intros; reflexivity || discriminate | intros H; reflexivity || discriminate H] |]);
    split; reflexivity.
Qed.

Lemma flags_within_refl (flags : Flags) : flags_within flags flags.
Proof.
  split; now right.
Qed.

Lemma flags_within_trans (a b c : Flags) :
  flags_within a b -> flags_within b c -> flags_within a c.
Proof.
  unfold flags_within. intros [[Ha1 | Ha1] [Ha2 | Ha2]] [[Hb1 | Hb1] [Hb2 | Hb2]];
    rewrite ?Ha1, ?Ha2, ?Hb1, ?Hb2; auto.
Qed.

Lemma scrub_within (flags : Flags) (msg : string) :
  flags_within (fst (scrubUnsupportedFlagsFromError flags msg)) flags.
Proof.
  unfold scrubUnsupportedFlagsFromError, flags_within. cbn [fst enableLegacyMode enableModbusSorting].
  split;
    match goal with
    | |- context [if ?b then None else _] => destruct b; auto
    end.
Qed.

Lemma scrub_only_deletes_count (flags : Flags) (msg : string) :
  snd (scrubUnsupportedFlagsFromError flags msg) = true ->
  (key_count (fst (scrubUnsupportedFlagsFromError flags msg)) < key_count flags)%nat.
Proof.
  unfold scrubUnsupportedFlagsFromError, key_count. cbn [fst snd].
  destruct flags as [[legacy |] [sorting |]];
    cbn [enableLegacyMode enableModbusSorting is_some andb];
    destruct (contains_ci "enableModbusSorting" msg);
    destruct (contains_ci "enableLegacyMode" msg);
    cbn [andb orb is_some enableLegacyMode enableModbusSorting];
    intros H; try discriminate H; lia.
Qed.

Lemma scrub_unchanged (flags : Flags) (msg : string) :
  snd (scrubUnsupportedFlagsFromError flags msg) = false ->
  fst (scrubUnsupportedFlagsFromError flags msg) = flags.
Proof.
  unfold scrubUnsupportedFlagsFromError. cbn [fst snd]. intros H.
  apply orb_false_iff in H as [-> ->]. now destruct flags.
Qed.

Section ModeToggleBudget.

Context {world : Type}.
Variable fetchImpl : world -> string -> Flags -> world * fetch_outcome.
Variable ensureFetch : result unit.

Lemma postUpdate_counting w n flags selection :
  postUpdate (counting fetchImpl) (w, n) flags selection
  = ((fst (postUpdate fetchImpl w flags selection), S n),
     snd (postUpdate fetchImpl w flags selection)).
Proof.
  unfold postUpdate, counting. cbn [fst snd].
  destruct (fetchImpl w selection flags) as [w' [e | res]]; [reflexivity |].
  destruct (body res) as [| | [errors |]]; try reflexivity;
    destruct (res_ok res); reflexivity.
Qed.

(** The inner loop makes at most one request per selection, and what it
    leaves is an applied selection with the flags it was given, an
    exception, or flags to go on with that are the given ones or fewer. *)
Lemma selectionLoop_counting selections :
  forall w n flags, exists k,
    (k <= List.length selections)%nat
    /\ selectionLoop (counting fetchImpl) selections (w, n) flags
       = ((fst (selectionLoop fetchImpl selections w flags), (n + k)%nat),
          snd (selectionLoop fetchImpl selections w flags))
    /\ match snd (selectionLoop fetchImpl selections w flags) with
       | Returns (Applied selection sent) => In selection selections /\ sent = flags
       | Returns (Skipped _ _) => False
       | Raises _ => True
       | Goes_on flags' =>
           flags_within flags' flags
           /\ (flags' = flags \/ (key_count flags' < key_count flags)%nat)
       end.
Proof.
  induction selections as [| selection rest IH]; intros w n flags.
  - exists 0%nat. cbn. rewrite Nat.add_0_r.
    repeat split; auto using flags_within_refl.
  - cbn [selectionLoop]. rewrite postUpdate_counting.
    destruct (postUpdate fetchImpl w flags selection) as [w1 [[| msg] | e]]; cbn [fst snd].
    + exists 1%nat. cbn [List.length]. rewrite Nat.add_1_r.
      split; [lia | split; [reflexivity | split; [now left | reflexivity]]].
    + assert (Hnext : forall flags1,
                 flags1 = flags ->
                 exists k : nat,
                   (k <= List.length (selection :: rest))%nat /\
                   selectionLoop (counting fetchImpl) rest (w1, S n) flags1
                   = (fst (selectionLoop fetchImpl rest w1 flags1), (n + k)%nat,
                      snd (selectionLoop fetchImpl rest w1 flags1)) /\
                   match snd (selectionLoop fetchImpl rest w1 flags1) with
                   | Returns (Applied selection0 sent) =>
                       In selection0 (selection :: rest) /\ sent = flags
                   | Returns (Skipped _ _) => False
                   | Raises _ => True
                   | Goes_on flags' =>
                       flags_within flags' flags
                       /\ (flags' = flags \/ (key_count flags' < key_count flags)%nat)
                   end).
      { intros flags1 ->. destruct (IH w1 (S n) flags) as (k & Hk & Hrun & Hres).
        exists (S k). cbn [List.length]. split; [lia |].
        split; [rewrite Hrun; f_equal; f_equal; lia |].
        destruct (snd (selectionLoop fetchImpl rest w1 flags)) as [[s sent | r a] | e | fl];
          try exact Hres.
        destruct Hres as [Hin ->]. split; [now right | reflexivity]. }
      destruct (selection_too_ambitious msg); [now apply Hnext |].
      destruct (inputs_not_supported msg); [| now apply Hnext].
      pose proof (scrub_within flags msg) as Hwithin.
      pose proof (scrub_unchanged flags msg) as Hsame.
      pose proof (scrub_only_deletes_count flags msg) as Hcount.
      destruct (scrubUnsupportedFlagsFromError flags msg) as [scrubbed [|]];
        cbn [fst snd] in *.
      * exists 1%nat. cbn [List.length]. rewrite Nat.add_1_r.
        split; [lia | split; [reflexivity |]].
        split; [exact Hwithin | right; now apply Hcount].
      * apply Hnext. now apply Hsame.
    + exists 1%nat. cbn [List.length]. rewrite Nat.add_1_r.
      split; [lia | split; [reflexivity | exact I]].
Qed.

Lemma attemptLoop_counting attempts :
  forall w n flags, exists k,
    (k <= 4 * attempts)%nat
    /\ attemptLoop (counting fetchImpl) attempts (w, n) flags
       = ((fst (attemptLoop fetchImpl attempts w flags), (n + k)%nat),
          snd (attemptLoop fetchImpl attempts w flags))
    /\ match snd (attemptLoop fetchImpl attempts w flags) with
       | Ok o =>
           (exists sent, outcome_flags o = Some sent /\ flags_within sent flags)
           /\ match o with
              | Applied selection _ => In selection SELECTIONS
              | Skipped reason _ =>
                  reason = "Unsupported flags" \/ reason = "Exhausted retries"
              end
       | Throw _ => True
       end.
Proof.
  induction attempts as [| attempts IH]; intros w n flags.
  - exists 0%nat. cbn. rewrite Nat.add_0_r.
    split; [lia | split; [reflexivity |]].
    split; [exists flags; split; [reflexivity | apply flags_within_refl] | now right].
  - cbn [attemptLoop].
    destruct (selectionLoop_counting SELECTIONS w n flags) as (k1 & Hk1 & Hrun & Hres).
    rewrite Hrun.
    destruct (selectionLoop fetchImpl SELECTIONS w flags) as [w1 [o | e | flags']];
      cbn [fst snd] in *.
    + exists k1. split; [cbn [List.length SELECTIONS] in Hk1; lia | split; [reflexivity |]].
      destruct o as [selection sent | reason a]; [| contradiction].
      destruct Hres as [Hin ->].
      split; [exists flags; split; [reflexivity | apply flags_within_refl] | exact Hin].
    + exists k1. split; [cbn [List.length SELECTIONS] in Hk1; lia | split; [reflexivity | exact I]].
    + destruct Hres as [Hwithin _].
      destruct (no_keys flags') eqn:Hkeys.
      * exists k1. split; [cbn [List.length SELECTIONS] in Hk1; lia | split; [reflexivity |]].
        split; [| now left].
        exists no_flags. split; [reflexivity |]. split; now left.
      * destruct (IH w1 (n + k1)%nat flags') as (k2 & Hk2 & Hrun2 & Hres2).
        exists (k1 + k2)%nat.
        split; [cbn [List.length SELECTIONS] in Hk1; lia |].
        split; [rewrite Hrun2; f_equal; f_equal; lia |].
        destruct (snd (attemptLoop fetchImpl attempts w1 flags')) as [o | e]; [| exact I].
        destruct Hres2 as [(sent & Hsent & Hin) Hkind].
        split; [| exact Hkind].
        exists sent. split; [exact Hsent | now apply flags_within_trans with flags'].
Qed.

(** X13: whatever the service answers, [setModbusMode] makes at most 24
    requests (6 cycles over 4 selections), and none at all for a mode for
    which the lookup in the mode map finds nothing, which it answers with
    the skipped outcome of an invalid mode; counting the requests changes
    nothing in what it does. *)
Theorem setModbusMode_request_budget (mode : string) (w : world) (n : nat) :
  exists k,
    (k <= 24)%nat
    /\ setModbusMode (counting fetchImpl) ensureFetch mode (w, n)
       = ((fst (setModbusMode fetchImpl ensureFetch mode w), (n + k)%nat),
          snd (setModbusMode fetchImpl ensureFetch mode w))
    /\ (MODE_MAP (toLowerCase mode) = None ->
        k = 0%nat
        /\ setModbusMode fetchImpl ensureFetch mode w
           = (w, Ok (Skipped (invalid_mode_text mode) None))).
Proof.
  unfold setModbusMode, setFlags.
  destruct (MODE_MAP (toLowerCase mode)) as [flags |].
  - destruct ensureFetch as [[] | e].
    + destruct (attemptLoop_counting 6 w n flags) as (k & Hk & Hrun & _).
      exists k. split; [lia | split; [exact Hrun | discriminate]].
    + exists 0%nat. rewrite Nat.add_0_r. split; [lia | split; [reflexivity | discriminate]].
  - exists 0%nat. rewrite Nat.add_0_r.
    split; [lia | split; [reflexivity |]]. intros _. split; reflexivity.
Qed.

(** X14: an outcome of [setModbusMode] never reports a flag that the mode
    does not set, nor another value for it: the flags of an applied update
    and those of a skipped one are flags of the mode, flags are only ever
    dropped; an applied update names one of the four selections, and a
    skipped one gives one of three reasons. *)
Theorem setModbusMode_only_sends_flags_of_the_mode (mode : string) (w w' : world) (o : outcome) :
  setModbusMode fetchImpl ensureFetch mode w = (w', Ok o) ->
  match MODE_MAP (toLowerCase mode) with
  | None => o = Skipped (invalid_mode_text mode) None /\ w' = w
  | Some flags =>
      (exists sent, outcome_flags o = Some sent /\ flags_within sent flags)
      /\ match o with
         | Applied selection _ => In selection SELECTIONS
         | Skipped reason _ => reason = "Unsupported flags" \/ reason = "Exhausted retries"
         end
  end.
Proof.
  unfold setModbusMode, setFlags.
  destruct (MODE_MAP (toLowerCase mode)) as [flags |].
  - destruct ensureFetch as [[] | e]; [| discriminate].
    destruct (attemptLoop_counting 6 w 0%nat flags) as (_ & _ & _ & Hres).
    intros Hrun. rewrite Hrun in Hres. exact Hres.
  - intros [= <- <-]. split; reflexivity.
Qed.

End ModeToggleBudget.

Lemma setModbusMode_request_budget_witness :
  MODE_MAP (toLowerCase "Sorted") = None
  /\ setModbusMode (unreachable "fetch failed") (Ok tt) "Sorted" tt
     = (tt, Ok (Skipped (invalid_mode_text "Sorted") None)).
Proof.
  split; [reflexivity |].
  destruct (setModbusMode_request_budget (unreachable "fetch failed") (Ok tt) "Sorted" tt 0%nat)
    as (k & _ & _ & Hnone).
  exact (proj2 (Hnone eq_refl)).
Defined.

Lemma setModbusMode_only_sends_flags_of_the_mode_witness :
  setModbusMode without_sorting (Ok tt) "legacy-sorted" tt
  = (tt, Ok (Applied
               "modbusService { enableModbusService enableModbusWrites enableModbusSorting enableLegacyMode }"
               {| enableLegacyMode := Some true; enableModbusSorting := None |}))
  /\ flags_within {| enableLegacyMode := Some true; enableModbusSorting := None |}
                  {| enableLegacyMode := Some true; enableModbusSorting := Some true |}.
Proof.
  split; [reflexivity |].
  pose proof (setModbusMode_only_sends_flags_of_the_mode without_sorting (Ok tt)
                "legacy-sorted" tt tt _ eq_refl) as H.
  cbn in H. destruct H as [(sent & [= <-] & Hwithin) _]. exact Hwithin.
Defined.

Section ModeToggleOutcomes.

Context {world : Type}.
Variable fetchImpl : world -> string -> Flags -> world * fetch_outcome.

(** X15: when [fetch] is there, [setModbusMode] resolves to an outcome
    object for every mode, valid or not, provided that no request is
    rejected by the transport and no accepted response has the JSON body
    [null]; these are the two ways an exception gets out of [postUpdate]. *)
Theorem setModbusMode_resolves_when_requests_settle (mode : string) (w : world) :
  (forall w0 selection flags, settles (snd (fetchImpl w0 selection flags))) ->
  exists w' o, setModbusMode fetchImpl (Ok tt) mode w = (w', Ok o).
Proof.
  intros Hsettles. now apply setModbusMode_resolves.
Qed.

Lemma selectionLoop_keeps_trying selections :
  forall w n flags,
    (forall w0 selection, exists w1 msg,
        postUpdate fetchImpl w0 flags selection = (w1, Ok (PostFailed msg))
        /\ keeps_trying flags msg) ->
    exists w',
      selectionLoop (counting fetchImpl) selections (w, n) flags
      = ((w', (n + List.length selections)%nat), Goes_on flags).
Proof.
  induction selections as [| selection rest IH]; intros w n flags Hfail.
  - exists w. cbn. now rewrite Nat.add_0_r.
  - cbn [selectionLoop]. rewrite postUpdate_counting.
    destruct (Hfail w selection) as (w1 & msg & -> & Hmsg). cbn [fst snd].
    destruct (IH w1 (S n) flags Hfail) as (w' & Hrest).
    exists w'. cbn [List.length]. replace (n + S (List.length rest))%nat
      with (S n + List.length rest)%nat by lia.
    destruct (selection_too_ambitious msg) eqn:Es; [exact Hrest |].
    destruct (inputs_not_supported msg) eqn:Ei; [| exact Hrest].
    destruct Hmsg as [Hs | [Hi | Hscrub]]; [congruence | congruence |].
    pose proof (scrub_unchanged flags msg Hscrub) as Hsame.
    destruct (scrubUnsupportedFlagsFromError flags msg) as [scrubbed changed].
    cbn [fst snd] in *. subst changed scrubbed. exact Hrest.
Qed.

Lemma attemptLoop_keeps_trying attempts :
  forall w n flags,
    no_keys flags = false ->
    (forall w0 selection, exists w1 msg,
        postUpdate fetchImpl w0 flags selection = (w1, Ok (PostFailed msg))
        /\ keeps_trying flags msg) ->
    exists w',
      attemptLoop (counting fetchImpl) attempts (w, n) flags
      = ((w', (n + 4 * attempts)%nat), Ok (Skipped "Exhausted retries" (Some flags))).
Proof.
  induction attempts as [| attempts IH]; intros w n flags Hkeys Hfail.
  - exists w. cbn. now rewrite Nat.add_0_r.
  - cbn [attemptLoop].
    destruct (selectionLoop_keeps_trying SELECTIONS w n flags Hfail) as (w1 & ->).
    rewrite Hkeys.
    destruct (IH w1 (n + List.length SELECTIONS)%nat flags Hkeys Hfail) as (w' & ->).
    exists w'. f_equal. f_equal. cbn [List.length SELECTIONS]. lia.
Qed.

(** X16: when every request for a mode with flags fails with a message
    after which the client keeps its flags (the selection was too ambitious,
    or the message is not about the inputs, or it names no flag that is
    sent), [setModbusMode] spends its whole budget: exactly 24 requests, all
    with the flags of the mode, and then resolves to the skipped outcome
    "Exhausted retries" that reports these flags. *)
Theorem setModbusMode_exhausts_its_retries (mode : string) (flags : Flags) (w : world) :
  MODE_MAP (toLowerCase mode) = Some flags ->
  no_keys flags = false ->
  (forall w0 selection, exists w1 msg,
      postUpdate fetchImpl w0 flags selection = (w1, Ok (PostFailed msg))
      /\ keeps_trying flags msg) ->
  exists w',
    setModbusMode (counting fetchImpl) (Ok tt) mode (w, 0%nat)
    = ((w', 24%nat), Ok (Skipped "Exhausted retries" (Some flags))).
Proof.
  intros Hmode Hkeys Hfail. unfold setModbusMode, setFlags. rewrite Hmode.
  destruct (attemptLoop_keeps_trying 6 w 0%nat flags Hkeys Hfail) as (w' & ->).
  now exists w'.
Qed.

End ModeToggleOutcomes.

Lemma setModbusMode_resolves_when_requests_settle_witness :
  (forall w0 selection flags, settles (snd (without_sorting w0 selection flags)))
  /\ exists w' o, setModbusMode without_sorting (Ok tt) "ttid" tt = (w', Ok o).
Proof.
  assert (H : forall w0 selection flags, settles (snd (without_sorting w0 selection flags))).
  { intros w0 selection flags. cbn. discriminate. }
  split; [exact H |].
  exact (setModbusMode_resolves_when_requests_settle without_sorting "ttid" tt H).
Defined.

Lemma setModbusMode_exhausts_its_retries_witness :
  MODE_MAP (toLowerCase "TTID")
  = Some {| enableLegacyMode := Some false; enableModbusSorting := Some false |}
  /\ exists w',
       setModbusMode (counting internal_error) (Ok tt) "TTID" (tt, 0%nat)
       = ((w', 24%nat),
          Ok (Skipped "Exhausted retries"
                (Some {| enableLegacyMode := Some false;
                         enableModbusSorting := Some false |}))).
Proof.
  split; [reflexivity |].
  apply (setModbusMode_exhausts_its_retries internal_error "TTID"
           {| enableLegacyMode := Some false; enableModbusSorting := Some false |} tt);
    [reflexivity | reflexivity |].
  intros w0 selection. eexists _, _. split; [reflexivity |].
  right; left. reflexivity.
Defined.

(** ** The run over the device types *)

Lemma flat_map_length_sum {A B : Type} (f : A -> list B) (l : list A) :
  List.length (flat_map f l) = list_sum (map (fun x => List.length (f x)) l).
Proof.
  induction l as [| x l IH]; [reflexivity |].
  cbn [flat_map map list_sum]. now rewrite length_app, IH.
Qed.

Lemma expected_keys_fixed_unit (Number_of_TTID : string -> number)
    (deviceType : string) (fieldSpec : list FieldSpec) (rawTTID : string) :
  deviceType = "weather" \/ deviceType = "repeater" \/ deviceType = "network" ->
  List.length (expected_keys Number_of_TTID deviceType fieldSpec rawTTID)
  = rows_of_identifier Number_of_TTID fieldSpec rawTTID.
Proof.
  intros Hfixed. unfold expected_keys, rows_of_identifier.
  destruct (Number_isFinite (Number_of_TTID rawTTID)); [| reflexivity].
  destruct Hfixed as [-> | [-> | ->]]; cbn; apply length_map.
Qed.

Lemma fixed_unit_rows_count (Number_of_TTID : string -> number)
    (deviceType : string) (fieldSpec : list FieldSpec) (ttids : list string) :
  deviceType = "weather" \/ deviceType = "repeater" \/ deviceType = "network" ->
  Forall (fun rawTTID => Number_isFinite (Number_of_TTID rawTTID) = true) ttids ->
  List.length (flat_map (expected_keys Number_of_TTID deviceType fieldSpec) ttids)
  = (List.length ttids * List.length fieldSpec)%nat.
Proof.
  intros Hfixed Hnumeric. induction Hnumeric as [| rawTTID ttids Hfinite _ IH].
  - reflexivity.
  - cbn [flat_map List.length]. rewrite length_app, IH.
    rewrite (expected_keys_fixed_unit _ _ _ _ Hfixed). unfold rows_of_identifier.
    rewrite Hfinite. reflexivity.
Qed.

Section DeviceTypeLoopProperties.

Context {conn : Type}.
Variable readHoldingRegisters :
  conn -> forall (unit address size : number), conn * result (list Z).
Variable Number_of_TTID : string -> number.
Variable assetsSpec ncSpec : list FieldSpec.

Lemma reportDeviceType_polls site name type ttid ttids fieldSpec
    (st : client conn * list (Report * list Row)) :
  fieldSpec = (if (type =? "network")%string then ncSpec else assetsSpec) ->
  exists c' rows,
    reportDeviceType readHoldingRegisters Number_of_TTID assetsSpec ncSpec site
      {| device_name := name; device_type := type; device_ttids := ttid :: ttids |} st
    = (c', (snd st ++ [({| report_deviceType := name; report_type := type;
                           ttidsProcessed := S (List.length ttids);
                           resultsCount := List.length rows |}, rows)])%list)
    /\ map row_key rows
       = flat_map (expected_keys Number_of_TTID type fieldSpec) (ttid :: ttids)
    /\ Forall tagged rows.
Proof.
  intros ->. unfold reportDeviceType. cbn [device_ttids device_type device_name].
  destruct (pollTTIDs_rows readHoldingRegisters Number_of_TTID type site
              (if (type =? "network")%string then ncSpec else assetsSpec)
              (ttid :: ttids) (fst st)) as (c' & rows & Hrun & Hkeys & Htags).
  rewrite (Hrun []). cbn [app List.length].
  exists c', rows. split; [reflexivity | split; assumption].
Qed.

Lemma reportDeviceType_reports site name type ttid ttids
    (c : client conn) (reports : list (Report * list Row)) :
  exists c' rows,
    reportDeviceType readHoldingRegisters Number_of_TTID assetsSpec ncSpec site
      {| device_name := name; device_type := type; device_ttids := ttid :: ttids |}
      (c, reports)
    = (c', (reports ++ [report_of name type (ttid :: ttids) rows])%list)
    /\ rows_of_report Number_of_TTID assetsSpec ncSpec type (ttid :: ttids) rows.
Proof.
  destruct (reportDeviceType_polls site name type ttid ttids _ (c, reports) eq_refl)
    as (c' & rows & Hrun & Hkeys & Htags).
  exists c', rows. split; [exact Hrun | split; assumption].
Qed.

Lemma run_without_identifiers site (c : client conn) :
  exists c' rows,
    readModbusBatch_reports readHoldingRegisters Number_of_TTID assetsSpec ncSpec site [] c
    = (c', [report_of "Network Controller" "network" ["1"] rows])
    /\ rows_of_report Number_of_TTID assetsSpec ncSpec "network" ["1"] rows.
Proof.
  unfold readModbusBatch_reports, deviceTypes. cbn [fold_left].
  change (reportDeviceType readHoldingRegisters Number_of_TTID assetsSpec ncSpec site
            {| device_name := "Row Boxes"; device_type := "row"; device_ttids := [] |}
            (c, [])) with (c, @nil (Report * list Row)).
  change (reportDeviceType readHoldingRegisters Number_of_TTID assetsSpec ncSpec site
            {| device_name := "Weather Station"; device_type := "weather";
               device_ttids := [] |} (c, [])) with (c, @nil (Report * list Row)).
  change (reportDeviceType readHoldingRegisters Number_of_TTID assetsSpec ncSpec site
            {| device_name := "Repeater"; device_type := "repeater";
               device_ttids := [] |} (c, [])) with (c, @nil (Report * list Row)).
  apply (reportDeviceType_reports site "Network Controller" "network" "1" [] c []).
Qed.

Lemma run_with_identifiers site ttid ttids (c : client conn) :
  exists c' rowsRow rowsWeather rowsRepeater rowsNetwork,
    readModbusBatch_reports readHoldingRegisters Number_of_TTID assetsSpec ncSpec site
      (ttid :: ttids) c
    = (c', [report_of "Row Boxes" "row" (ttid :: ttids) rowsRow;
            report_of "Weather Station" "weather" (ttid :: ttids) rowsWeather;
            report_of "Repeater" "repeater" (ttid :: ttids) rowsRepeater;
            report_of "Network Controller" "network" ["1"] rowsNetwork])
    /\ rows_of_report Number_of_TTID assetsSpec ncSpec "row" (ttid :: ttids) rowsRow
    /\ rows_of_report Number_of_TTID assetsSpec ncSpec "weather" (ttid :: ttids) rowsWeather
    /\ rows_of_report Number_of_TTID assetsSpec ncSpec "repeater" (ttid :: ttids) rowsRepeater
    /\ rows_of_report Number_of_TTID assetsSpec ncSpec "network" ["1"] rowsNetwork.
Proof.
  unfold readModbusBatch_reports, deviceTypes. cbn [fold_left].
  destruct (reportDeviceType_reports site "Row Boxes" "row" ttid ttids c [])
    as (c1 & rows1 & -> & H1).
  destruct (reportDeviceType_reports site "Weather Station" "weather" ttid ttids c1
              ([] ++ [report_of "Row Boxes" "row" (ttid :: ttids) rows1])%list)
    as (c2 & rows2 & -> & H2).
  destruct (reportDeviceType_reports site "Repeater" "repeater" ttid ttids c2
              (([] ++ [report_of "Row Boxes" "row" (ttid :: ttids) rows1])
               ++ [report_of "Weather Station" "weather" (ttid :: ttids) rows2])%list)
    as (c3 & rows3 & -> & H3).
  destruct (reportDeviceType_reports site "Network Controller" "network" "1" [] c3
              ((([] ++ [report_of "Row Boxes" "row" (ttid :: ttids) rows1])
                ++ [report_of "Weather Station" "weather" (ttid :: ttids) rows2])
               ++ [report_of "Repeater" "repeater" (ttid :: ttids) rows3])%list)
    as (c4 & rows4 & -> & H4).
  exists c4, rows1, rows2, rows3, rows4. split; [reflexivity | repeat split; apply H1 || apply H2 || apply H3 || apply H4].
Qed.

(** X17: a run of [readModbusBatch] always reports on the network
    controller, and on nothing else when the CSV file has no identifier;
    with identifiers it reports on the row boxes, the weather stations, the
    repeaters and the network controller, in this order.  Each report counts
    the identifiers of its category (1 for the network controller) and the
    rows of its file, which are the rows of its identifiers in input order,
    each a success row or an error row. *)
Theorem reports_of_a_run site csvTTIDs (c : client conn) :
  let reports :=
    snd (readModbusBatch_reports readHoldingRegisters Number_of_TTID assetsSpec ncSpec
           site csvTTIDs c) in
  map (fun r => report_type (fst r)) reports
    = match csvTTIDs with
      | [] => ["network"]
      | _ => ["row"; "weather"; "repeater"; "network"]
      end
  /\ map (fun r => ttidsProcessed (fst r)) reports
     = match csvTTIDs with
       | [] => [1%nat]
       | _ => [List.length csvTTIDs; List.length csvTTIDs; List.length csvTTIDs; 1%nat]
       end
  /\ Forall (fun r =>
               resultsCount (fst r) = List.length (snd r)
               /\ Forall tagged (snd r)
               /\ map row_key (snd r)
                  = flat_map
                      (expected_keys Number_of_TTID (report_type (fst r))
                         (if (report_type (fst r) =? "network")%string
                          then ncSpec else assetsSpec))
                      (if (report_type (fst r) =? "network")%string
                       then ["1"] else csvTTIDs))
            reports.
Proof.
  cbv zeta. destruct csvTTIDs as [| ttid ttids].
  - destruct (run_without_identifiers site c) as (c' & rows & -> & Htags & Hkeys).
    split; [reflexivity | split; [reflexivity |]].
    constructor; [| constructor]. split; [reflexivity | split; assumption].
  - destruct (run_with_identifiers site ttid ttids c)
      as (c' & r1 & r2 & r3 & r4 & -> & [T1 K1] & [T2 K2] & [T3 K3] & [T4 K4]).
    split; [reflexivity | split; [reflexivity |]].
    repeat constructor; assumption.
Qed.

(** X18: when the identifiers of the CSV file and the identifier of the
    network controller are numeric, every report of [readModbusBatch] other
    than the one of the row boxes counts one entry per identifier and field:
    its number of entries is its number of identifiers times the number of
    fields of its specification. *)
Theorem entries_of_the_fixed_unit_reports site csvTTIDs (c : client conn) :
  Forall (fun rawTTID => Number_isFinite (Number_of_TTID rawTTID) = true)
    ("1" :: csvTTIDs) ->
  Forall (fun r =>
            report_type (fst r) <> "row" ->
            resultsCount (fst r)
            = (ttidsProcessed (fst r)
               * List.length (if (report_type (fst r) =? "network")%string
                              then ncSpec else assetsSpec))%nat)
    (snd (readModbusBatch_reports readHoldingRegisters Number_of_TTID assetsSpec ncSpec
            site csvTTIDs c)).
Proof.
  intros Hnumeric. inversion Hnumeric as [| one rest Hone Hrest]; subst.
  assert (Hnc : Forall (fun rawTTID => Number_isFinite (Number_of_TTID rawTTID) = true)
                  ["1"]) by (constructor; [exact Hone | constructor]).
  assert (Hcount : forall type ttids rows,
             type = "weather" \/ type = "repeater" \/ type = "network" ->
             Forall (fun rawTTID => Number_isFinite (Number_of_TTID rawTTID) = true) ttids ->
             rows_of_report Number_of_TTID assetsSpec ncSpec type ttids rows ->
             List.length rows
             = (List.length ttids
                * List.length (if (type =? "network")%string
                               then ncSpec else assetsSpec))%nat).
  { intros type ttids rows Hfixed Hfinite [_ Hkeys].
    rewrite <- (length_map row_key rows), Hkeys.
    now apply fixed_unit_rows_count. }
  destruct csvTTIDs as [| ttid ttids].
  - destruct (run_without_identifiers site c) as (c' & rows & -> & Hrows).
    constructor; [| constructor]. intros _.
    apply (Hcount "network" ["1"] rows); auto.
  - destruct (run_with_identifiers site ttid ttids c)
      as (c' & r1 & r2 & r3 & r4 & -> & _ & H2 & H3 & H4).
    constructor; [intros Hrow; now elim Hrow |].
    constructor; [intros _; apply (Hcount "weather" (ttid :: ttids) r2); auto |].
    constructor; [intros _; apply (Hcount "repeater" (ttid :: ttids) r3); auto |].
    constructor; [intros _; apply (Hcount "network" ["1"] r4); auto | constructor].
Qed.

End DeviceTypeLoopProperties.

Lemma entries_of_the_fixed_unit_reports_witness :
  Forall (fun rawTTID => Number_isFinite (Number_of_digits rawTTID) = true) ["1"; "3"; "4"]
  /\ Forall (fun r =>
              report_type (fst r) <> "row" ->
              resultsCount (fst r)
              = (ttidsProcessed (fst r)
                 * List.length
                     (if (report_type (fst r) =? "network")%string
                      then [ {| field_ID := "Mode"; field_BaseReg := num_of_Z 0;
                                field_Size := num_of_Z 1; field_Codec := "uint16" |} ]
                      else [ {| field_ID := "Angle"; field_BaseReg := num_of_Z 2;
                                field_Size := num_of_Z 2; field_Codec := "int32" |};
                             {| field_ID := "Status"; field_BaseReg := num_of_Z 4;
                                field_Size := num_of_Z 1; field_Codec := "uint16" |} ]))%nat)
       (snd (readModbusBatch_reports (answering [0; 7]) Number_of_digits
               [ {| field_ID := "Angle"; field_BaseReg := num_of_Z 2;
                    field_Size := num_of_Z 2; field_Codec := "int32" |};
                 {| field_ID := "Status"; field_BaseReg := num_of_Z 4;
                    field_Size := num_of_Z 1; field_Codec := "uint16" |} ]
               [ {| field_ID := "Mode"; field_BaseReg := num_of_Z 0;
                    field_Size := num_of_Z 1; field_Codec := "uint16" |} ]
               "10.0.0.5" ["3"; "4"] fresh_client)).
Proof.
  assert (Hnumeric : Forall (fun rawTTID => Number_isFinite (Number_of_digits rawTTID) = true)
                       ["1"; "3"; "4"]).
  { repeat constructor. }
  split; [exact Hnumeric |].
  exact (entries_of_the_fixed_unit_reports (answering [0; 7]) Number_of_digits _ _
           "10.0.0.5" ["3"; "4"] fresh_client Hnumeric).
Defined.

(** ** Text registers *)

Lemma hex_val_range (c : ascii) (d : Z) : hex_val c = Some d -> 0 <= d < 16.
Proof.
  unfold hex_val.
  destruct ((48 <=? code c) && (code c <=? 57))%bool eqn:H1;
    [intros [= <-]; apply andb_true_iff in H1; lia |].
  destruct ((97 <=? code c) && (code c <=? 102))%bool eqn:H2;
    [intros [= <-]; apply andb_true_iff in H2; lia |].
  destruct ((65 <=? code c) && (code c <=? 70))%bool eqn:H3;
    [intros [= <-]; apply andb_true_iff in H3; lia | discriminate].
Qed.

Lemma hex_val_zero (c : ascii) : hex_val c = Some 0 -> Ascii.eqb c zero_char = true.
Proof.
  intros H. apply Ascii.eqb_eq.
  assert (Hc : code c = 48).
  { revert H. unfold hex_val.
    destruct ((48 <=? code c) && (code c <=? 57))%bool eqn:H1; [intros [= H]; lia |].
    destruct ((97 <=? code c) && (code c <=? 102))%bool eqn:H2;
      [intros [= H]; apply andb_true_iff in H2; lia |].
    destruct ((65 <=? code c) && (code c <=? 70))%bool eqn:H3;
      [intros [= H]; apply andb_true_iff in H3; lia | discriminate]. }
  unfold code in Hc. rewrite <- (ascii_nat_embedding c).
  replace (nat_of_ascii c) with 48%nat by lia. reflexivity.
Qed.

Lemma hex_val_not_zero (c : ascii) (d : Z) :
  hex_val c = Some d -> d <> 0 -> Ascii.eqb c zero_char = false.
Proof.
  intros H Hd. destruct (Ascii.eqb c zero_char) eqn:E; [| reflexivity].
  apply Ascii.eqb_eq in E. subst c. cbv in H. congruence.
Qed.

(** The buffer of the four digits of a register word holds its two bytes. *)
Lemma hexWord_bytes (v : Z) (rest : string) :
  is_word16 v ->
  Buffer_from_hex (hexWord v ++ rest) = (word_bytes v ++ Buffer_from_hex rest)%list.
Proof.
  intros Hv. destruct (hexWord_spec v Hv) as (Hlen & Hhex & Hval).
  unfold word_bytes, normalized_word.
  assert (Hn : 0 <= (if v <? 0 then 65536 + v else v) < 65536).
  { unfold is_word16 in Hv. destruct (Z.ltb_spec v 0); lia. }
  set (n := if v <? 0 then 65536 + v else v) in *.
  destruct (hexWord v) as [| a [| b [| c [| d [| e s]]]]]; try discriminate Hlen.
  cbn [all_chars] in Hhex.
  repeat (apply andb_true_iff in Hhex as [?H Hhex]).
  unfold is_hex_digit in *.
  destruct (hex_val a) as [x |] eqn:Ha; [| discriminate].
  destruct (hex_val b) as [y |] eqn:Hb; [| discriminate].
  destruct (hex_val c) as [z |] eqn:Hc; [| discriminate].
  destruct (hex_val d) as [t |] eqn:Hd; [| discriminate].
  cbn [hex_value] in Hval. rewrite Ha, Hb, Hc, Hd in Hval.
  cbn [append Buffer_from_hex]. rewrite Ha, Hb, Hc, Hd. cbn [app].
  apply hex_val_range in Ha, Hb, Hc, Hd.
  assert (Hsplit : n = (16 * x + y) * 256 + (16 * z + t)) by lia.
  assert (Hdiv : n / 256 = 16 * x + y).
  { symmetry. apply (Z.div_unique n 256 (16 * x + y) (16 * z + t)); lia. }
  assert (Hmod : n mod 256 = 16 * z + t).
  { symmetry. apply (Z.mod_unique n 256 (16 * x + y) (16 * z + t)); lia. }
  now rewrite Hdiv, Hmod.
Qed.

Lemma joined_bytes (words : list Z) :
  Forall is_word16 words ->
  Buffer_from_hex (join (map hexWord words)) = bytes_of_words words.
Proof.
  induction 1 as [| w ws Hw _ IH]; [reflexivity |].
  cbn [map join bytes_of_words flat_map].
  rewrite (hexWord_bytes w _ Hw), IH. reflexivity.
Qed.

(** Bytes that are 7-bit characters are their own UTF-8 text. *)
Lemma utf8_of_seven_bit_bytes (bs : list Z) :
  Forall (fun b => b <= 127) bs -> Buffer_toString_utf8 bs = text_of_bytes bs.
Proof.
  unfold Buffer_toString_utf8.
  induction 1 as [| b bs Hb _ IH]; [reflexivity |].
  cbn [utf8_run utf8_idle needed text_of_bytes]. unfold utf8_lead.
  destruct (Z.leb_spec b 127); [| lia].
  cbn [str1 append]. now rewrite IH.
Qed.

(** Stripping the leading zeros of the digits removes whole zero bytes, and
    no text, when the first byte that is not zero has two digits. *)
Lemma text_after_stripping (s : string) :
  all_chars is_hex_digit s = true ->
  starts_at_a_byte (Buffer_from_hex s) = true ->
  Forall (fun b => b <= 127) (Buffer_from_hex s) ->
  Forall (fun b => b <= 127)
    (Buffer_from_hex (or_else (strip_leading_zeros s) "00"))
  /\ remove_nul (text_of_bytes (Buffer_from_hex (or_else (strip_leading_zeros s) "00")))
     = remove_nul (text_of_bytes (Buffer_from_hex s)).
Proof.
  induction s as [| c | a b r IH] using string_pair_ind; intros Hhex Hstart Hseven.
  - split; [| reflexivity].
    change (Forall (fun b => b <= 127) [0]). constructor; [lia | constructor].
  - cbn [strip_leading_zeros]. destruct (Ascii.eqb c zero_char).
    + split; [| reflexivity].
      change (Forall (fun b => b <= 127) [0]). constructor; [lia | constructor].
    + split; [constructor | reflexivity].
  - cbn [all_chars] in Hhex.
    apply andb_true_iff in Hhex as [Ha Hhex]. apply andb_true_iff in Hhex as [Hb Hhex].
    unfold is_hex_digit in Ha, Hb.
    destruct (hex_val a) as [x |] eqn:Hx; [| discriminate].
    destruct (hex_val b) as [y |] eqn:Hy; [| discriminate].
    cbn [Buffer_from_hex] in Hstart, Hseven |- *. rewrite Hx, Hy in Hstart, Hseven |- *.
    pose proof (hex_val_range _ _ Hx) as Rx. pose proof (hex_val_range _ _ Hy) as Ry.
    cbn [starts_at_a_byte] in Hstart.
    destruct (Z.eqb_spec (16 * x + y) 0) as [Hzero | Hzero].
    + assert (x = 0) by lia. assert (y = 0) by lia. subst x y.
      cbn [strip_leading_zeros].
      rewrite (hex_val_zero _ Hx), (hex_val_zero _ Hy).
      inversion Hseven as [| ? ? _ Htail]; subst.
      destruct (IH Hhex Hstart Htail) as [IH1 IH2].
      split; [exact IH1 |]. rewrite IH2. reflexivity.
    + apply Z.leb_le in Hstart.
      assert (Hnz : x <> 0) by lia.
      cbn [strip_leading_zeros]. rewrite (hex_val_not_zero _ _ Hx Hnz).
      cbn [or_else Buffer_from_hex]. rewrite Hx, Hy.
      split; [exact Hseven | reflexivity].
Qed.

Lemma padForCodec_ascii (combinedHex : string) : padForCodec "ascii" combinedHex = combinedHex.
Proof. reflexivity. Qed.

Section TextThroughThePoller.

Context {conn : Type}.
Variable readHoldingRegisters :
  conn -> forall (unit address size : number), conn * result (list Z).

(** X19: a field whose codec normalizes to ascii decodes to the text of the
    bytes of the words read, without the NUL characters, when the bytes are
    7-bit characters and the first byte that is not zero is 16 or more, so
    that the zeros stripped from the digits make up whole bytes. *)
Theorem text_registers_decode_to_their_characters
    deviceType site ttidNum unitId field (c c' : client conn) words :
  invalid_spec field = false ->
  client_read readHoldingRegisters (setID unitId c)
    (computeStartingAddressForType deviceType ttidNum unitId (field_BaseReg field))
    (field_Size field) = (c', Ok words) ->
  Forall is_word16 words ->
  normalizeCodec (field_Codec field) = "ascii" ->
  Forall (fun b => b <= 127) (bytes_of_words words) ->
  starts_at_a_byte (bytes_of_words words) = true ->
  DecodedValue (snd (pollField readHoldingRegisters deviceType site ttidNum unitId field c))
  = VStr (remove_nul (text_of_bytes (bytes_of_words words))).
Proof.
  intros Hspec Hread Hwords Hcodec Hseven Hstart.
  rewrite (pollField_read_succeeds _ deviceType site _ _ _ _ _ _ Hspec Hread).
  cbn [snd DecodedValue]. rewrite Hcodec, padForCodec_ascii.
  destruct (joined_words words Hwords) as (Hhex & _ & _).
  rewrite <- (joined_bytes words Hwords) in Hseven, Hstart |- *.
  destruct (text_after_stripping _ Hhex Hstart Hseven) as [Hseven' Htext].
  unfold decodeValue, decodeValueWith. cbn [String.eqb Ascii.eqb Bool.eqb].
  rewrite (utf8_of_seven_bit_bytes _ Hseven'), Htext. reflexivity.
Qed.

End TextThroughThePoller.

Lemma text_registers_decode_to_their_characters_witness :
  DecodedValue
    (snd (pollField (answering [0; 18537; 8448]) "weather" "10.0.0.5"
            (num_of_Z 3) (num_of_Z 101)
            {| field_ID := "Label"; field_BaseReg := num_of_Z 20;
               field_Size := num_of_Z 3; field_Codec := "Text" |} fresh_client))
  = VStr "Hi!".
Proof.
  assert (Hwords : Forall is_word16 [0; 18537; 8448]).
  { repeat constructor; unfold is_word16; lia. }
  assert (Hseven : Forall (fun b => b <= 127) (bytes_of_words [0; 18537; 8448])).
  { repeat constructor; vm_compute; discriminate. }
  exact (text_registers_decode_to_their_characters (answering [0; 18537; 8448])
           "weather" "10.0.0.5" (num_of_Z 3) (num_of_Z 101)
           {| field_ID := "Label"; field_BaseReg := num_of_Z 20;
              field_Size := num_of_Z 3; field_Codec := "Text" |}
           fresh_client
           {| unitID := num_of_Z 101; link := tt;
              reads := [(num_of_Z 101, num_of_Z 1044, num_of_Z 3)] |}
           [0; 18537; 8448] eq_refl eq_refl Hwords eq_refl Hseven eq_refl).
Defined.
